(** * YT-Video-Mixer: the recording / overdub / playback timeline engine

    A shallow embedding of the control-data engine of [create.html] (the
    recorder, the overdub replayer and the hijack coordinator) and of the
    playback page [playback.js] and the gallery import / export
    [gallery.js], followed by the theorems about them.

    Conventions of the embedding.
    - JavaScript numbers that the engine handles are integers (millisecond
      clock readings, slider values after [parseInt]); they are modelled
      as [Z].  Keyframe offsets are seconds with a fraction: [Q].  The
      one fraction the engine computes, the interpolation of the overdub
      replayer, is computed in binary64 as the source does ([Float64]).
    - A JavaScript object used as a dictionary is a [gmap]; the array
      [videos] is a [list (option Video)] where [None] is [null] (or a
      hole, which [forEach], [some] and [filter] skip alike).
    - A JavaScript [Set] is a duplicate-free list in insertion order,
      which is the order [for ... of] visits it in.
    - [Date.now()] is an argument [now] of the handler that reads it.
      The throttled recorder reads the clock a second time for the
      timestamp it stores; that reading is an argument of its own.  The
      keyframe replay of the playback page reads the clock at each
      debounce test and each store; its readings are a sequence [clock].
    - [JSON.stringify] followed by [JSON.parse] is a function on
      JavaScript values ([JSValue]); the text in between is not modelled.
    - A method of a YouTube player exists only once the player is ready;
      a call before that throws.  An uncaught throw ends the handler or
      timer callback at once and leaves the page as it is at that point:
      such code returns an [Outcome].
    - Console output, CSS classes of buttons and the asynchronous calls to
      the YouTube players made through [setTimeout] are not part of the
      state. *)

From Stdlib Require Import ZArith QArith Qround Lia Bool String.
From Stdlib Require SpecFloat.
From stdpp Require Import base option list gmap sorting pretty.

Local Open Scope Z_scope.

#[local] Set Warnings "-clear-no-such-hyp,-register-all".

(** ** Data model *)

(** The three arrays of a slot's control data are addressed by these
    strings in the source: ['volume'], ['opacity'], ['timestamps']. *)
Inductive ControlType := Volume | Opacity | Timestamps.

#[global] Instance ControlType_eq_dec : EqDecision ControlType.
Proof. solve_decision. Defined.

(** A control key stands for the string [`${slot}-${controlType}`]; the
    slot is a decimal number, so the string determines the pair. *)
Definition ControlKey : Type := nat * ControlType.

Definition controlTypeCode (c : ControlType) : nat :=
  match c with Volume => 0%nat | Opacity => 1%nat | Timestamps => 2%nat end.

Definition controlTypeOfCode (n : nat) : ControlType :=
  match n with 0%nat => Volume | 1%nat => Opacity | _ => Timestamps end.

#[global] Instance ControlType_countable : Countable ControlType.
Proof.
  apply (inj_countable' controlTypeCode controlTypeOfCode).
  by intros [].
Defined.

(** [{timestamp, value}] *)
Record Point := mkPoint { timestamp : Z; value : Z }.

Inductive Action := ActSet | ActJump | ActDelete.

(** [{timestamp, keyframeIndex, time, action}] *)
Record KeyframeEvent := mkKeyframeEvent {
  kf_timestamp : Z;
  keyframeIndex : nat;
  kf_time : option Q;
  action : Action
}.

(** [{volume: [], opacity: [], timestamps: []}] *)
Record SlotData := mkSlotData {
  volumeData : list Point;
  opacityData : list Point;
  timestampData : list KeyframeEvent
}.

Definition emptySlotData : SlotData := mkSlotData [] [] [].

(** [{session, startTime, duration, controlData}] *)
Record Session := mkSession {
  session : Z;
  startTime : Z;
  duration : Z;
  controlData : gmap nat SlotData
}.

(** A uniform view of the three arrays, used to state properties for an
    arbitrary control type. *)
Inductive Sample :=
| PointSample (p : Point)
| KeyframeSample (e : KeyframeEvent).

Definition sampleTimestamp (x : Sample) : Z :=
  match x with
  | PointSample p => timestamp p
  | KeyframeSample e => kf_timestamp e
  end.

Definition controlLog (controlType : ControlType) (sd : SlotData) : list Sample :=
  match controlType with
  | Volume => PointSample <$> volumeData sd
  | Opacity => PointSample <$> opacityData sd
  | Timestamps => KeyframeSample <$> timestampData sd
  end.

(** [session.controlData[slot][controlType]], empty when the slot has no
    entry. *)
Definition sessionLog (s : Session) (slot : nat) (controlType : ControlType) : list Sample :=
  match controlData s !! slot with
  | Some sd => controlLog controlType sd
  | None => []
  end.

(** ** Session store: truncation ([deleteFutureRecordingData]) *)

(** [session.controlData[slot][controlType] =
       session.controlData[slot][controlType].filter(point => point.timestamp < fromTime)] *)
Definition truncateSlotData (controlType : ControlType) (fromTime : Z) (sd : SlotData) : SlotData :=
  match controlType with
  | Volume =>
      mkSlotData (filter (λ point, timestamp point < fromTime) (volumeData sd))
                 (opacityData sd) (timestampData sd)
  | Opacity =>
      mkSlotData (volumeData sd)
                 (filter (λ point, timestamp point < fromTime) (opacityData sd))
                 (timestampData sd)
  | Timestamps =>
      mkSlotData (volumeData sd) (opacityData sd)
                 (filter (λ point, kf_timestamp point < fromTime) (timestampData sd))
  end.

Definition truncateSession (slot : nat) (controlType : ControlType) (fromTime : Z)
    (s : Session) : Session :=
  match controlData s !! slot with
  | Some sd =>
      mkSession (session s) (startTime s) (duration s)
                (<[slot := truncateSlotData controlType fromTime sd]> (controlData s))
  | None => s
  end.

(** [recordingSessions.forEach(session => ...)] *)
Definition deleteFutureRecordingData (slot : nat) (controlType : ControlType) (fromTime : Z)
    (recordingSessions : list Session) : list Session :=
  truncateSession slot controlType fromTime <$> recordingSessions.

(** ** Page state of [create.html] *)

(** The video object of a slot.  The fields the engine never reads
    ([startTime], [endTime], [duration], [currentTime]) are left out. *)
Record Video := mkVideo {
  url : string;
  videoId : string;
  title : string;
  volume : Z;
  opacity : Z;
  linked : bool;
  volumeOpacityLinked : bool;
  locked : bool;
  keyframes : list (option Q)
}.

(** The YouTube player of a slot as the engine sees it: [getVolume] and
    [setVolume] throw while the player is not ready. *)
Record Player := mkPlayer { playerReady : bool; playerVolume : Z }.

Definition getVolume (p : Player) : option Z :=
  if playerReady p then Some (playerVolume p) else None.

Definition setVolume (v : Z) (p : Player) : option Player :=
  if playerReady p then Some (mkPlayer true v) else None.

(** A range input ([vol-N], [opc-N]) with the three CSS classes the
    engine toggles on it. *)
Record Slider := mkSlider {
  sliderValue : Z;
  classPlayback : bool;
  classRecording : bool;
  classHijacked : bool
}.

Inductive VisualState := StPlayback | StRecording | StHijacked.

(** [element.classList.remove('playback', 'recording', 'hijacked');
     element.classList.add(state)] *)
Definition setVisualState (st : VisualState) (sl : Slider) : Slider :=
  match st with
  | StPlayback => mkSlider (sliderValue sl) true false false
  | StRecording => mkSlider (sliderValue sl) false true false
  | StHijacked => mkSlider (sliderValue sl) false false true
  end.

Definition setSliderValue (v : Z) (sl : Slider) : Slider :=
  mkSlider v (classPlayback sl) (classRecording sl) (classHijacked sl).

Definition addClassPlayback (sl : Slider) : Slider :=
  mkSlider (sliderValue sl) true (classRecording sl) (classHijacked sl).

(** [classList.remove('hijacked'); classList.add('playback')] *)
Definition markPlayback (sl : Slider) : Slider :=
  mkSlider (sliderValue sl) true (classRecording sl) false.

(** The globals of the page, and the DOM elements the engine reads back. *)
Record State := mkState {
  videos : list (option Video);
  previewPlayers : gmap nat Player;
  isReceivingLink : bool;
  isRecording : bool;
  isCountdown : bool;
  recordingStartTime : Z;
  playbackInterval : option Z;      (* the running timer, with its [playbackStartTime] *)
  recordingSessions : list Session;
  currentSession : Z;
  isPlaybackMode : bool;
  hijackedControls : list ControlKey;
  lastRecordingTime : gmap ControlKey Z;
  currentRecordingData : Session;
  currentPlaybackVolumes : gmap nat Z;
  syncLocks : gmap nat bool;
  volSlider : gmap nat Slider;      (* [document.getElementById(`vol-${slot}`)] *)
  opcSlider : gmap nat Slider;      (* [document.getElementById(`opc-${slot}`)] *)
  mainLayerOpacity : gmap nat Z     (* [main-layer-N].style.opacity, in percent *)
}.

Definition initialState : State :=
  mkState [] ∅ false false false 0 None [] 0 false [] ∅
          (mkSession 0 0 60000 ∅) ∅ ∅ ∅ ∅ ∅.

Definition set_videos (x : list (option Video)) (s : State) : State :=
  mkState x (previewPlayers s) (isReceivingLink s) (isRecording s) (isCountdown s)
    (recordingStartTime s) (playbackInterval s) (recordingSessions s) (currentSession s)
    (isPlaybackMode s) (hijackedControls s) (lastRecordingTime s) (currentRecordingData s)
    (currentPlaybackVolumes s) (syncLocks s) (volSlider s) (opcSlider s) (mainLayerOpacity s).

Definition set_previewPlayers (x : gmap nat Player) (s : State) : State :=
  mkState (videos s) x (isReceivingLink s) (isRecording s) (isCountdown s)
    (recordingStartTime s) (playbackInterval s) (recordingSessions s) (currentSession s)
    (isPlaybackMode s) (hijackedControls s) (lastRecordingTime s) (currentRecordingData s)
    (currentPlaybackVolumes s) (syncLocks s) (volSlider s) (opcSlider s) (mainLayerOpacity s).

Definition set_isReceivingLink (x : bool) (s : State) : State :=
  mkState (videos s) (previewPlayers s) x (isRecording s) (isCountdown s)
    (recordingStartTime s) (playbackInterval s) (recordingSessions s) (currentSession s)
    (isPlaybackMode s) (hijackedControls s) (lastRecordingTime s) (currentRecordingData s)
    (currentPlaybackVolumes s) (syncLocks s) (volSlider s) (opcSlider s) (mainLayerOpacity s).

Definition set_isRecording (x : bool) (s : State) : State :=
  mkState (videos s) (previewPlayers s) (isReceivingLink s) x (isCountdown s)
    (recordingStartTime s) (playbackInterval s) (recordingSessions s) (currentSession s)
    (isPlaybackMode s) (hijackedControls s) (lastRecordingTime s) (currentRecordingData s)
    (currentPlaybackVolumes s) (syncLocks s) (volSlider s) (opcSlider s) (mainLayerOpacity s).

Definition set_isCountdown (x : bool) (s : State) : State :=
  mkState (videos s) (previewPlayers s) (isReceivingLink s) (isRecording s) x
    (recordingStartTime s) (playbackInterval s) (recordingSessions s) (currentSession s)
    (isPlaybackMode s) (hijackedControls s) (lastRecordingTime s) (currentRecordingData s)
    (currentPlaybackVolumes s) (syncLocks s) (volSlider s) (opcSlider s) (mainLayerOpacity s).

Definition set_recordingStartTime (x : Z) (s : State) : State :=
  mkState (videos s) (previewPlayers s) (isReceivingLink s) (isRecording s) (isCountdown s)
    x (playbackInterval s) (recordingSessions s) (currentSession s)
    (isPlaybackMode s) (hijackedControls s) (lastRecordingTime s) (currentRecordingData s)
    (currentPlaybackVolumes s) (syncLocks s) (volSlider s) (opcSlider s) (mainLayerOpacity s).

Definition set_playbackInterval (x : option Z) (s : State) : State :=
  mkState (videos s) (previewPlayers s) (isReceivingLink s) (isRecording s) (isCountdown s)
    (recordingStartTime s) x (recordingSessions s) (currentSession s)
    (isPlaybackMode s) (hijackedControls s) (lastRecordingTime s) (currentRecordingData s)
    (currentPlaybackVolumes s) (syncLocks s) (volSlider s) (opcSlider s) (mainLayerOpacity s).

Definition set_recordingSessions (x : list Session) (s : State) : State :=
  mkState (videos s) (previewPlayers s) (isReceivingLink s) (isRecording s) (isCountdown s)
    (recordingStartTime s) (playbackInterval s) x (currentSession s)
    (isPlaybackMode s) (hijackedControls s) (lastRecordingTime s) (currentRecordingData s)
    (currentPlaybackVolumes s) (syncLocks s) (volSlider s) (opcSlider s) (mainLayerOpacity s).

Definition set_currentSession (x : Z) (s : State) : State :=
  mkState (videos s) (previewPlayers s) (isReceivingLink s) (isRecording s) (isCountdown s)
    (recordingStartTime s) (playbackInterval s) (recordingSessions s) x
    (isPlaybackMode s) (hijackedControls s) (lastRecordingTime s) (currentRecordingData s)
    (currentPlaybackVolumes s) (syncLocks s) (volSlider s) (opcSlider s) (mainLayerOpacity s).

Definition set_isPlaybackMode (x : bool) (s : State) : State :=
  mkState (videos s) (previewPlayers s) (isReceivingLink s) (isRecording s) (isCountdown s)
    (recordingStartTime s) (playbackInterval s) (recordingSessions s) (currentSession s)
    x (hijackedControls s) (lastRecordingTime s) (currentRecordingData s)
    (currentPlaybackVolumes s) (syncLocks s) (volSlider s) (opcSlider s) (mainLayerOpacity s).

Definition set_hijackedControls (x : list ControlKey) (s : State) : State :=
  mkState (videos s) (previewPlayers s) (isReceivingLink s) (isRecording s) (isCountdown s)
    (recordingStartTime s) (playbackInterval s) (recordingSessions s) (currentSession s)
    (isPlaybackMode s) x (lastRecordingTime s) (currentRecordingData s)
    (currentPlaybackVolumes s) (syncLocks s) (volSlider s) (opcSlider s) (mainLayerOpacity s).

Definition set_lastRecordingTime (x : gmap ControlKey Z) (s : State) : State :=
  mkState (videos s) (previewPlayers s) (isReceivingLink s) (isRecording s) (isCountdown s)
    (recordingStartTime s) (playbackInterval s) (recordingSessions s) (currentSession s)
    (isPlaybackMode s) (hijackedControls s) x (currentRecordingData s)
    (currentPlaybackVolumes s) (syncLocks s) (volSlider s) (opcSlider s) (mainLayerOpacity s).

Definition set_currentRecordingData (x : Session) (s : State) : State :=
  mkState (videos s) (previewPlayers s) (isReceivingLink s) (isRecording s) (isCountdown s)
    (recordingStartTime s) (playbackInterval s) (recordingSessions s) (currentSession s)
    (isPlaybackMode s) (hijackedControls s) (lastRecordingTime s) x
    (currentPlaybackVolumes s) (syncLocks s) (volSlider s) (opcSlider s) (mainLayerOpacity s).

Definition set_currentPlaybackVolumes (x : gmap nat Z) (s : State) : State :=
  mkState (videos s) (previewPlayers s) (isReceivingLink s) (isRecording s) (isCountdown s)
    (recordingStartTime s) (playbackInterval s) (recordingSessions s) (currentSession s)
    (isPlaybackMode s) (hijackedControls s) (lastRecordingTime s) (currentRecordingData s)
    x (syncLocks s) (volSlider s) (opcSlider s) (mainLayerOpacity s).

Definition set_syncLocks (x : gmap nat bool) (s : State) : State :=
  mkState (videos s) (previewPlayers s) (isReceivingLink s) (isRecording s) (isCountdown s)
    (recordingStartTime s) (playbackInterval s) (recordingSessions s) (currentSession s)
    (isPlaybackMode s) (hijackedControls s) (lastRecordingTime s) (currentRecordingData s)
    (currentPlaybackVolumes s) x (volSlider s) (opcSlider s) (mainLayerOpacity s).

Definition set_volSlider (x : gmap nat Slider) (s : State) : State :=
  mkState (videos s) (previewPlayers s) (isReceivingLink s) (isRecording s) (isCountdown s)
    (recordingStartTime s) (playbackInterval s) (recordingSessions s) (currentSession s)
    (isPlaybackMode s) (hijackedControls s) (lastRecordingTime s) (currentRecordingData s)
    (currentPlaybackVolumes s) (syncLocks s) x (opcSlider s) (mainLayerOpacity s).

Definition set_opcSlider (x : gmap nat Slider) (s : State) : State :=
  mkState (videos s) (previewPlayers s) (isReceivingLink s) (isRecording s) (isCountdown s)
    (recordingStartTime s) (playbackInterval s) (recordingSessions s) (currentSession s)
    (isPlaybackMode s) (hijackedControls s) (lastRecordingTime s) (currentRecordingData s)
    (currentPlaybackVolumes s) (syncLocks s) (volSlider s) x (mainLayerOpacity s).

Definition set_mainLayerOpacity (x : gmap nat Z) (s : State) : State :=
  mkState (videos s) (previewPlayers s) (isReceivingLink s) (isRecording s) (isCountdown s)
    (recordingStartTime s) (playbackInterval s) (recordingSessions s) (currentSession s)
    (isPlaybackMode s) (hijackedControls s) (lastRecordingTime s) (currentRecordingData s)
    (currentPlaybackVolumes s) (syncLocks s) (volSlider s) (opcSlider s) x.

(** [videos[slot]], [None] for [null], a hole or an index past the end. *)
Definition videoAt (s : State) (slot : nat) : option Video :=
  mjoin (videos s !! slot).

(** [videos[slot] = x], growing the array with holes when [slot] is past
    its end. *)
Definition arraySet {A} (slot : nat) (x : option A) (l : list (option A)) : list (option A) :=
  if decide (slot < length l)%nat then <[slot := x]> l
  else l ++ replicate (slot - length l) None ++ [x].

Definition setVideo (slot : nat) (v : Video) (s : State) : State :=
  set_videos (arraySet slot (Some v) (videos s)) s.

(** ** The JavaScript [Set] of control keys *)

Definition Set_has (key : ControlKey) (l : list ControlKey) : bool :=
  bool_decide (key ∈ l).

Definition Set_add (key : ControlKey) (l : list ControlKey) : list ControlKey :=
  if Set_has key l then l else l ++ [key].

Definition set_volume (x : Z) (v : Video) : Video :=
  mkVideo (url v) (videoId v) (title v) x (opacity v) (linked v)
          (volumeOpacityLinked v) (locked v) (keyframes v).

Definition set_opacity (x : Z) (v : Video) : Video :=
  mkVideo (url v) (videoId v) (title v) (volume v) x (linked v)
          (volumeOpacityLinked v) (locked v) (keyframes v).

Definition set_keyframes (x : list (option Q)) (v : Video) : Video :=
  mkVideo (url v) (videoId v) (title v) (volume v) (opacity v) (linked v)
          (volumeOpacityLinked v) (locked v) x.

(** [Math.max(0, Math.min(100, x))] *)
Definition clamp (x : Z) : Z := Z.max 0 (Z.min 100 x).

(** [array.forEach((x, i) => ...)] over a list, threading an
    accumulator; [i0] is the index of the head. *)
Fixpoint forEachFrom {A B : Type} (i0 : nat) (f : A → nat → B → B) (l : list A) (acc : B) : B :=
  match l with
  | [] => acc
  | x :: l' => forEachFrom (S i0) f l' (f x i0 acc)
  end.

(** [videos.forEach((video, slot) => { if (video ...) ... })] on the page
    state: the callback receives the object the array holds at [slot]
    when its turn comes, so earlier iterations' writes are seen. *)
Definition forEachVideo (f : Video → nat → State → State) (s : State) : State :=
  foldl (λ acc slot, match videoAt acc slot with
                     | Some video => f video slot acc
                     | None => acc
                     end)
        s (seq 0 (length (videos s))).

(** ** Hijack coordinator *)

Definition isVolumeOrOpacity (controlType : ControlType) : bool :=
  match controlType with Volume | Opacity => true | Timestamps => false end.

(** [sourceControlType === 'volume' ? 'opacity' : 'volume'] *)
Definition pairedControl (controlType : ControlType) : ControlType :=
  match controlType with Volume => Opacity | _ => Volume end.

Definition collectLinkedControlsToHijack (vs : list (option Video)) (sourceSlot : nat)
    (sourceControlType : ControlType) (controlsToHijack : list ControlKey) : list ControlKey :=
  match mjoin (vs !! sourceSlot) with
  | None => controlsToHijack
  | Some sourceVideo =>
      (* volume-opacity linking within the same module *)
      let c1 :=
        if volumeOpacityLinked sourceVideo && isVolumeOrOpacity sourceControlType
        then Set_add (sourceSlot, pairedControl sourceControlType) controlsToHijack
        else controlsToHijack in
      (* cross-module linking, never for timestamps *)
      if linked sourceVideo && negb (bool_decide (sourceControlType = Timestamps)) then
        forEachFrom 0
          (λ (video : option Video) slot acc,
             match video with
             | Some video =>
                 if negb (bool_decide (slot = sourceSlot)) && linked video && negb (locked video)
                 then
                   let acc1 := Set_add (slot, sourceControlType) acc in
                   if volumeOpacityLinked sourceVideo && isVolumeOrOpacity sourceControlType
                   then Set_add (slot, pairedControl sourceControlType) acc1
                   else acc1
                 else acc
             | None => acc
             end)
          vs c1
      else c1
  end.

(** [updateControlVisualState(slot, controlType, state)]; the element of
    ['timestamps'] is a keyframe button, whose classes are not modelled. *)
Definition updateControlVisualState (slot : nat) (controlType : ControlType)
    (st : VisualState) (s : State) : State :=
  match controlType with
  | Volume => set_volSlider (alter (setVisualState st) slot (volSlider s)) s
  | Opacity => set_opcSlider (alter (setVisualState st) slot (opcSlider s)) s
  | Timestamps => s
  end.

(** The body of the loop [for (const key of controlsToHijack)]. *)
Definition hijackKey (currentTime : Z) (s : State) (key : ControlKey) : State :=
  if Set_has key (hijackedControls s) then s
  else
    let s1 := set_hijackedControls (Set_add key (hijackedControls s)) s in
    let s2 := set_recordingSessions
                (deleteFutureRecordingData key.1 key.2 currentTime (recordingSessions s1)) s1 in
    updateControlVisualState key.1 key.2 StHijacked s2.

Definition hijackControl (slot : nat) (controlType : ControlType) (now : Z) (s : State) : State :=
  let controlKey := (slot, controlType) in
  if isPlaybackMode s && negb (Set_has controlKey (hijackedControls s)) then
    let currentTime := now - recordingStartTime s in
    let controlsToHijack :=
      collectLinkedControlsToHijack (videos s) slot controlType [controlKey] in
    (* the classes of the keyframe buttons, set next for 'timestamps',
       are not modelled *)
    foldl (hijackKey currentTime) s controlsToHijack
  else s.

(** ** Recorder *)

Definition pushPoint (controlType : ControlType) (p : Point) (sd : SlotData) : SlotData :=
  match controlType with
  | Volume => mkSlotData (volumeData sd ++ [p]) (opacityData sd) (timestampData sd)
  | Opacity => mkSlotData (volumeData sd) (opacityData sd ++ [p]) (timestampData sd)
  | Timestamps => sd  (* no call site passes 'timestamps' *)
  end.

Definition set_controlData (cd : gmap nat SlotData) (x : Session) : Session :=
  mkSession (session x) (startTime x) (duration x) cd.

(** The slot's entry of the session being recorded, created on demand:
    [if (!currentRecordingData.controlData[slot]) {...}]. *)
Definition slotDataOrInit (slot : nat) (x : Session) : SlotData :=
  default emptySlotData (controlData x !! slot).

(** [recordControlChange]; [now] is its own reading of the clock, from
    which the stored timestamp is taken. *)
Definition recordControlChange (slot : nat) (controlType : ControlType) (v : Z) (now : Z)
    (s : State) : State :=
  if negb (isRecording s) then s
  else
    let ts := now - recordingStartTime s in
    let cur := currentRecordingData s in
    let sd := pushPoint controlType (mkPoint ts v) (slotDataOrInit slot cur) in
    set_currentRecordingData (set_controlData (<[slot := sd]> (controlData cur)) cur) s.

(** [recordControlChangeThrottled]; [now] is the reading the throttle
    tests and remembers, [stampNow] the later one that
    [recordControlChange] takes for the timestamp. *)
Definition recordControlChangeThrottled (slot : nat) (controlType : ControlType) (v : Z)
    (now stampNow : Z) (s : State) : State :=
  if negb (isRecording s) then s
  else
    let throttleKey := (slot, controlType) in
    (* [if (!lastRecordingTime[throttleKey]) lastRecordingTime[throttleKey] = 0] *)
    let last := default 0 (lastRecordingTime s !! throttleKey) in
    let s1 := set_lastRecordingTime (<[throttleKey := last]> (lastRecordingTime s)) s in
    if bool_decide (25 ≤ now - last) then
      let s2 := recordControlChange slot controlType v stampNow s1 in
      set_lastRecordingTime (<[throttleKey := now]> (lastRecordingTime s2)) s2
    else s1.

Definition recordTimestampChange (slot : nat) (idx : nat) (t : option Q) (a : Action)
    (now : Z) (s : State) : State :=
  if negb (isRecording s) then s
  else
    let ts := now - recordingStartTime s in
    let cur := currentRecordingData s in
    let sd0 := slotDataOrInit slot cur in
    let sd := mkSlotData (volumeData sd0) (opacityData sd0)
                         (timestampData sd0 ++ [mkKeyframeEvent ts idx t a]) in
    set_currentRecordingData (set_controlData (<[slot := sd]> (controlData cur)) cur) s.

(** ** Linked-control value propagation *)

(** [updateAllLayersOpacity]: [if (mainLayer) mainLayer.style.opacity = value / 100] *)
Definition updateAllLayersOpacity (slot : nat) (v : Z) (s : State) : State :=
  set_mainLayerOpacity (alter (λ _, v) slot (mainLayerOpacity s)) s.

(** The callback of [videos.forEach] in [updateLinkedControls]. *)
Definition linkedControlStep (sourceSlot : nat) (type : ControlType) (change : Z) (now : Z)
    (video : Video) (slot : nat) (s : State) : State :=
  if negb (bool_decide (slot = sourceSlot)) && linked video && negb (locked video) then
    match type with
    | Volume =>
        let newLinkedValue := clamp (volume video + change) in
        let s1 := setVideo slot (set_volume newLinkedValue video) s in
        let s2 := set_volSlider (alter (setSliderValue newLinkedValue) slot (volSlider s1)) s1 in
        if isPlaybackMode s2 then hijackControl slot Volume now s2 else s2
    | Opacity =>
        let newLinkedValue := clamp (opacity video + change) in
        let s1 := setVideo slot (set_opacity newLinkedValue video) s in
        let s2 := set_opcSlider (alter (setSliderValue newLinkedValue) slot (opcSlider s1)) s1 in
        let s3 := updateAllLayersOpacity slot newLinkedValue s2 in
        if isPlaybackMode s3 then hijackControl slot Opacity now s3 else s3
    | Timestamps => s
    end
  else s.

Definition updateLinkedControls (sourceSlot : nat) (type : ControlType) (oldValue newValue : Z)
    (now : Z) (s : State) : State :=
  match videoAt s sourceSlot with
  | None => s
  | Some sourceVideo =>
      if negb (linked sourceVideo) then s
      else
        (* the change amount, not the ratio *)
        let change := newValue - oldValue in
        forEachVideo (linkedControlStep sourceSlot type change now) s
  end.

(** How a handler ends: normally, or by an uncaught [TypeError] (reading
    [.value] of a slider that is not in the document, calling a method
    of a player that is not ready), which leaves the state as it was at
    the throw. *)
Inductive Outcome :=
| Done (s : State)
| Thrown (s : State).

Definition outcomeState (o : Outcome) : State :=
  match o with Done s | Thrown s => s end.

(** What follows runs only when nothing was thrown before. *)
Definition andThen (o : Outcome) (f : State → Outcome) : Outcome :=
  match o with
  | Done s => f s
  | Thrown s => Thrown s
  end.

(** The module-to-module part shared by both immediate updaters:
    [if (videos[slot].linked && !isReceivingLink) {...}]. *)
Definition propagateToLinked (slot : nat) (type : ControlType) (oldValue newValue : Z)
    (now : Z) (s : State) : State :=
  match videoAt s slot with
  | Some v =>
      if linked v && negb (isReceivingLink s) then
        let s1 := set_isReceivingLink true s in
        let s2 := updateLinkedControls slot type oldValue newValue now s1 in
        set_isReceivingLink false s2
      else s
  | None => s
  end.

(** [updateOpacityImmediate(slot, value, true)]: the reciprocal link is
    skipped, so this call never reaches [updateVolumeImmediate] again. *)
Definition updateOpacityImmediate_skip (slot : nat) (v : Z) (now : Z) (s : State) : State :=
  match videoAt s slot with
  | None => s
  | Some video =>
      if isReceivingLink s then s
      else
        let oldValue := opacity video in
        let s1 := setVideo slot (set_opacity v video) s in
        let s2 := updateAllLayersOpacity slot v s1 in
        propagateToLinked slot Opacity oldValue v now s2
  end.

(** [updateVolumeImmediate(slot, value, true)] *)
Definition updateVolumeImmediate_skip (slot : nat) (v : Z) (now : Z) (s : State) : State :=
  match videoAt s slot with
  | None => s
  | Some video =>
      if isReceivingLink s then s
      else
        let oldValue := volume video in
        let s1 := setVideo slot (set_volume v video) s in
        propagateToLinked slot Volume oldValue v now s1
  end.

Definition updateVolumeImmediate (slot : nat) (v : Z) (skipOpacityLink : bool) (now : Z)
    (s : State) : Outcome :=
  if skipOpacityLink then Done (updateVolumeImmediate_skip slot v now s)
  else
    match videoAt s slot with
    | None => Done s
    | Some video =>
        if isReceivingLink s then Done s
        else
          let oldValue := volume video in
          let s1 := setVideo slot (set_volume v video) s in
          if volumeOpacityLinked video then
            let change := v - oldValue in
            match opcSlider s1 !! slot with
            | None => Thrown s1
            | Some sl =>
                let newOpacity := clamp (sliderValue sl + change) in
                let s2 := set_opcSlider (<[slot := setSliderValue newOpacity sl]> (opcSlider s1)) s1 in
                let s3 := updateOpacityImmediate_skip slot newOpacity now s2 in
                Done (propagateToLinked slot Volume oldValue v now s3)
            end
          else Done (propagateToLinked slot Volume oldValue v now s1)
    end.

Definition updateOpacityImmediate (slot : nat) (v : Z) (skipVolumeLink : bool) (now : Z)
    (s : State) : Outcome :=
  if skipVolumeLink then Done (updateOpacityImmediate_skip slot v now s)
  else
    match videoAt s slot with
    | None => Done s
    | Some video =>
        if isReceivingLink s then Done s
        else
          let oldValue := opacity video in
          let s1 := setVideo slot (set_opacity v video) s in
          let s1' := updateAllLayersOpacity slot v s1 in
          if volumeOpacityLinked video then
            let change := v - oldValue in
            match volSlider s1' !! slot with
            | None => Thrown s1'
            | Some sl =>
                let newVolume := clamp (sliderValue sl + change) in
                let s2 := set_volSlider (<[slot := setSliderValue newVolume sl]> (volSlider s1')) s1' in
                let s3 := updateVolumeImmediate_skip slot newVolume now s2 in
                Done (propagateToLinked slot Opacity oldValue v now s3)
            end
          else Done (propagateToLinked slot Opacity oldValue v now s1')
    end.

(** The [oninput] handlers of the sliders.  The debounce timer they arm
    fires [updateVolumeDebounced] / [updateOpacityDebounced] later.
    [stampNow] is the recorder's reading for the timestamp. *)
Definition updateVolume (slot : nat) (v : Z) (now stampNow : Z) (s : State) : State :=
  match updateVolumeImmediate slot v false now s with
  | Thrown s1 => s1
  | Done s1 =>
      if isRecording s1 then recordControlChangeThrottled slot Volume v now stampNow s1 else s1
  end.

Definition updateOpacity (slot : nat) (v : Z) (now stampNow : Z) (s : State) : State :=
  match updateOpacityImmediate slot v false now s with
  | Thrown s1 => s1
  | Done s1 =>
      if isRecording s1 then recordControlChangeThrottled slot Opacity v now stampNow s1 else s1
  end.

Definition updateVolumeDebounced (slot : nat) (now : Z) (s : State) : State :=
  match videoAt s slot with
  | Some video =>
      if negb (locked video) && isPlaybackMode s then hijackControl slot Volume now s else s
  | None => s
  end.

Definition updateOpacityDebounced (slot : nat) (now : Z) (s : State) : State :=
  match videoAt s slot with
  | Some video =>
      if negb (locked video) && isPlaybackMode s then hijackControl slot Opacity now s else s
  | None => s
  end.

(** ** Keyframe handlers *)

(** [slot in syncLocks && syncLocks[slot]] *)
Definition isSyncLocked (s : State) (slot : nat) : bool :=
  default false (syncLocks s !! slot).

(** [setKeyframe]; [playerTime] is what [getCurrentTime()] returns, [None]
    when it throws. *)
Definition setKeyframe (slot idx : nat) (playerTime : option Q) (now : Z) (s : State) : State :=
  match videoAt s slot, previewPlayers s !! slot with
  | Some video, Some _ =>
      if locked video then s
      else
        let s1 := if isPlaybackMode s then hijackControl slot Timestamps now s else s in
        match playerTime with
        | None => s1
        | Some t =>
            let s2 := setVideo slot (set_keyframes (arraySet idx (Some t) (keyframes video)) video) s1 in
            if isRecording s2 then recordTimestampChange slot idx (Some t) ActSet now s2 else s2
        end
  | _, _ => s
  end.

(** [jumpToKeyframe]; [seekTo] throws on a player that is not ready, and
    the [catch] then skips the recording of the jump. *)
Definition jumpToKeyframe (slot idx : nat) (now : Z) (s : State) : State :=
  match videoAt s slot with
  | Some video =>
      match keyframes video !! idx with
      | Some (Some targetTime) =>
          if locked video then s
          else
            let s1 := if isPlaybackMode s && isRecording s
                      then hijackControl slot Timestamps now s else s in
            match previewPlayers s1 !! slot with
            | Some p =>
                if isSyncLocked s1 slot then s1
                else
                  let s2 := set_syncLocks (<[slot := true]> (syncLocks s1)) s1 in
                  if playerReady p then
                    if isRecording s2
                    then recordTimestampChange slot idx (Some targetTime) ActJump now s2
                    else s2
                  else s2
            | None => s1
            end
      | _ => s
      end
  | None => s
  end.

Definition deleteKeyframe (slot idx : nat) (now : Z) (s : State) : State :=
  match videoAt s slot with
  | Some video =>
      if locked video then s
      else
        let s1 := if isPlaybackMode s then hijackControl slot Timestamps now s else s in
        let s2 := setVideo slot (set_keyframes (arraySet idx None (keyframes video)) video) s1 in
        if isRecording s2 then recordTimestampChange slot idx None ActDelete now s2 else s2
  | None => s
  end.

(** ** Overdub replayer of [create.html] *)

(** JavaScript numbers are IEEE 754 binary64: the Standard Library's
    specification of floating-point arithmetic at precision 53 and
    maximal exponent 1024, which rounds to nearest, ties to even. *)
Module Float64.

Definition prec : Z := 53.
Definition emax : Z := 1024.

Definition float : Type := SpecFloat.spec_float.

(** The number an integer is held as: itself when its magnitude is below
    2^53, else the nearest binary64. *)
Definition ofZ (z : Z) : float := SpecFloat.binary_normalize prec emax z 0 false.

Definition div : float → float → float := SpecFloat.SFdiv prec emax.
Definition mul : float → float → float := SpecFloat.SFmul prec emax.
Definition add : float → float → float := SpecFloat.SFadd prec emax.

(** The exact value of a finite number; [None] for NaN and the
    infinities. *)
Definition toQ (x : float) : option Q :=
  match x with
  | SpecFloat.S754_zero _ => Some 0%Q
  | SpecFloat.S754_finite sign m e =>
      let magnitude :=
        if bool_decide (0 ≤ e) then inject_Z (Z.pos m * 2 ^ e)
        else Qmake (Z.pos m) (Z.to_pos (2 ^ (- e))) in
      Some (if sign then - magnitude else magnitude)%Q
  | _ => None
  end.

End Float64.

(** [Math.round] of a number whose exact value is [x]: the nearest
    integer, halves go up. *)
Definition Math_round (x : Q) : Z := Qfloor (x + (1 # 2))%Q.

(** [interpolatedValue = currentPoint.value + (valueDiff * timeProgress);
     interpolatedValue = Math.round(interpolatedValue)], each operation
    rounded to binary64.  [Math.round] leaves NaN and the infinities as
    they are; no integer stands for them, and the embedding puts 0. *)
Definition interpolate (currentPoint nextPoint : Point) (currentTime : Z) : Z :=
  let timeDiff := timestamp nextPoint - timestamp currentPoint in
  let valueDiff := value nextPoint - value currentPoint in
  let timeProgress :=
    Float64.div (Float64.ofZ (currentTime - timestamp currentPoint)) (Float64.ofZ timeDiff) in
  let interpolatedValue :=
    Float64.add (Float64.ofZ (value currentPoint))
                (Float64.mul (Float64.ofZ valueDiff) timeProgress) in
  match Float64.toQ interpolatedValue with
  | Some x => Math_round x
  | None => 0
  end.

(** The scan of [playbackVolumeData]: [currentPoint] is the last point at
    or before [currentTime] met before the first later point, which is
    [nextPoint] and ends the loop. *)
Fixpoint findPoints (volumeData : list Point) (currentTime : Z) (currentPoint : option Point)
    : option Point * option Point :=
  match volumeData with
  | [] => (currentPoint, None)
  | p :: rest =>
      if bool_decide (timestamp p ≤ currentTime)
      then findPoints rest currentTime (Some p)
      else (currentPoint, Some p)
  end.

(** [interpolatedValue], when there is a [currentPoint]. *)
Definition interpolatedVolume (volumeData : list Point) (currentTime : Z) : option Z :=
  let '(currentPoint, nextPoint) := findPoints volumeData currentTime None in
  match currentPoint with
  | None => None
  | Some c =>
      Some
        match nextPoint with
        | None => value c
        | Some n =>
            let timeDiff := timestamp n - timestamp c in
            (* only interpolate within 500ms gaps *)
            if bool_decide (timeDiff < 500)
            then interpolate c n currentTime
            else value c
        end
  end.

(** The volume [applyVolumeSmooth] hands to [setVolume], from the last
    applied volume and the target. *)
Definition smoothedVolume (currentVolume targetVolume : Z) : Z :=
  let volumeDiff := Z.abs (targetVolume - currentVolume) in
  if bool_decide (volumeDiff ≤ 2) then targetVolume
  else
    let step := if bool_decide (20 < volumeDiff) then 5 else 2 in
    let nextVolume :=
      currentVolume + (if bool_decide (currentVolume < targetVolume) then step else - step) in
    if bool_decide (currentVolume < targetVolume)
    then Z.min nextVolume targetVolume
    else Z.max nextVolume targetVolume.

Definition applyVolumeSmooth (slot : nat) (targetVolume : Z) (s : State) : State :=
  match previewPlayers s !! slot with
  | None => s
  | Some p =>
      (* initialize the current volume if not set *)
      let s1 :=
        match currentPlaybackVolumes s !! slot with
        | Some _ => s
        | None =>
            set_currentPlaybackVolumes
              (<[slot := default 50 (getVolume p)]> (currentPlaybackVolumes s)) s
        end in
      let currentVolume := default 50 (currentPlaybackVolumes s1 !! slot) in
      let applied := smoothedVolume currentVolume targetVolume in
      match setVolume applied p with
      | Some p' =>
          set_currentPlaybackVolumes (<[slot := applied]> (currentPlaybackVolumes s1))
            (set_previewPlayers (<[slot := p']> (previewPlayers s1)) s1)
      | None => s1   (* 'Could not set volume' *)
      end
  end.

Definition playbackVolumeData (slot : nat) (volumeData : list Point) (currentTime : Z)
    (s : State) : State :=
  match interpolatedVolume volumeData currentTime with
  | None => s
  | Some interpolatedValue =>
      match volSlider s !! slot with
      | Some sl =>
          if classHijacked sl then s
          else
            let sl' := addClassPlayback (setSliderValue interpolatedValue sl) in
            applyVolumeSmooth slot interpolatedValue
              (set_volSlider (<[slot := sl']> (volSlider s)) s)
      | None => s
      end
  end.

(** [opacityData.find(point => Math.abs(point.timestamp - currentTime) < 100)] *)
Definition opacityPoint (opacityData : list Point) (currentTime : Z) : option Point :=
  List.find (λ point, bool_decide (Z.abs (timestamp point - currentTime) < 100)) opacityData.

Definition playbackOpacityData (slot : nat) (opacityData : list Point) (currentTime : Z)
    (s : State) : State :=
  match opacityPoint opacityData currentTime with
  | None => s
  | Some point =>
      match opcSlider s !! slot with
      | Some sl =>
          if classHijacked sl then s
          else
            let sl' := addClassPlayback (setSliderValue (value point) sl) in
            updateAllLayersOpacity slot (value point)
              (set_opcSlider (<[slot := sl']> (opcSlider s)) s)
      | None => s
      end
  end.

(** Replayed jumps seek the preview player under the slot's sync lock.
    [targetTime] is [videos[slot].keyframes[keyframeIndex]]: a number,
    [null], or [undefined] past the end of the array, and only [null]
    stops the jump.  The lock is taken before [seekTo] is called, which
    throws on a player that is not ready; where the player moves to and
    the timers that seek the main player and release the lock are not
    modelled. *)
Definition playbackTimestampData (slot : nat) (timestampData : list KeyframeEvent)
    (currentTime : Z) (s : State) : Outcome :=
  match List.find (λ point, bool_decide (Z.abs (kf_timestamp point - currentTime) < 100))
                  timestampData with
  | Some point =>
      match action point with
      | ActJump =>
          match videoAt s slot with
          | None => Thrown s   (* [videos[slot].keyframes] of no video *)
          | Some video =>
              match keyframes video !! keyframeIndex point with
              | Some None => Done s
              | _ =>
                  match previewPlayers s !! slot with
                  | Some p =>
                      if isSyncLocked s slot then Done s
                      else
                        let s1 := set_syncLocks (<[slot := true]> (syncLocks s)) s in
                        if playerReady p then Done s1 else Thrown s1
                  | None => Done s
                  end
              end
          end
      | _ => Done s
      end
  | None => Done s
  end.

(** [Object.keys(o)] of an object with array-index keys: ascending. *)
Definition Object_keys {A} (o : gmap nat A) : list nat :=
  merge_sort Nat.le (map_to_list o).*1.

Definition playbackSlot (x : Session) (currentTime : Z) (s : State) (slot : nat) : Outcome :=
  match controlData x !! slot with
  | None => Done s
  | Some slotData =>
      let s1 :=
        if bool_decide (is_Some (videoAt s slot)) && negb (Set_has (slot, Volume) (hijackedControls s))
        then playbackVolumeData slot (volumeData slotData) currentTime s else s in
      let s2 :=
        if bool_decide (is_Some (videoAt s1 slot)) && negb (Set_has (slot, Opacity) (hijackedControls s1))
        then playbackOpacityData slot (opacityData slotData) currentTime s1 else s1 in
      if bool_decide (is_Some (videoAt s2 slot)) && negb (Set_has (slot, Timestamps) (hijackedControls s2))
      then playbackTimestampData slot (timestampData slotData) currentTime s2 else Done s2
  end.

(** [Object.keys(session.controlData).forEach(slot => ...)]: a throw in
    one slot leaves the later slots unvisited. *)
Definition playbackSessionData (x : Session) (currentTime : Z) (s : State) : Outcome :=
  foldl (λ o slot, andThen o (λ acc, playbackSlot x currentTime acc slot))
        (Done s) (Object_keys (controlData x)).

(** [recordingSessions.forEach(session => playbackSessionData(session, elapsed))] *)
Definition playbackAllSessions (ss : list Session) (elapsed : Z) (s : State) : Outcome :=
  foldl (λ o x, andThen o (playbackSessionData x elapsed)) (Done s) ss.

(** One firing of the 100ms [playbackInterval].  A throw in the replay
    ends the callback before the test that stops the timer. *)
Definition playbackTick (now : Z) (s : State) : State :=
  match playbackInterval s with
  | None => s
  | Some playbackStartTime =>
      let elapsed := now - playbackStartTime in
      match playbackAllSessions (recordingSessions s) elapsed s with
      | Thrown s1 => s1
      | Done s1 =>
          if bool_decide (60000 ≤ elapsed) then set_playbackInterval None s1 else s1
      end
  end.

(** ** Session life cycle *)

(** What [alert()] shows.  The second message lists the user-facing
    numbers (slot + 1) of the modules, joined by [', ']. *)
Inductive Alert :=
| AlertAddVideo                                  (* 'Add at least one video before recording!' *)
| AlertMissingKeyframes (videoList : list nat).  (* 'Please set at least one timestamp button in video slot(s): ...' *)

Definition isSomeb {A} (x : option A) : bool :=
  match x with Some _ => true | None => false end.

(** [video.keyframes.some(keyframe => keyframe !== null)] *)
Definition hasKeyframe (video : Video) : bool := existsb isSomeb (keyframes video).

(** The list [videosWithoutKeyframes].  Every slot holds an object of
    its own, so [videos.indexOf(video)] is the slot the video sits in. *)
Definition videosWithoutKeyframes (vs : list (option Video)) : list nat :=
  forEachFrom 0
    (λ (v : option Video) actualSlot acc,
       match v with
       | Some video => if hasKeyframe video then acc else acc ++ [(actualSlot + 1)%nat]
       | None => acc
       end)
    vs [].

Definition startPlaybackMode (now : Z) (s : State) : State :=
  match recordingSessions s with
  | [] => s
  | _ :: _ =>
      set_playbackInterval (Some now)
        (set_currentPlaybackVolumes ∅ (set_isPlaybackMode true s))
  end.

Definition startRecordingSession (now : Z) (s : State) : State * option Alert :=
  if negb (existsb isSomeb (videos s)) then (s, Some AlertAddVideo)
  else
    match videosWithoutKeyframes (videos s) with
    | (_ :: _) as videoList => (s, Some (AlertMissingKeyframes videoList))
    | [] =>
        let isFirstSession := bool_decide (recordingSessions s = []) in
        let s1 := set_currentSession (Z.of_nat (length (recordingSessions s)) + 1) s in
        let s2 := if isFirstSession then s1 else startPlaybackMode now s1 in
        (* startCountdown() *)
        (set_isCountdown true s2, None)
    end.

Definition toggleRecording (now : Z) (s : State) : State * option Alert :=
  if isRecording s || isCountdown s then (s, None)
  else startRecordingSession now s.

(** Apply [f] to the volume and opacity sliders of every loaded slot. *)
Definition onLoadedSliders (f : Slider → Slider) (s : State) : State :=
  forEachVideo
    (λ _ slot acc,
       set_opcSlider (alter f slot (opcSlider acc))
         (set_volSlider (alter f slot (volSlider acc)) acc))
    s.

Definition clearClasses (sl : Slider) : Slider := mkSlider (sliderValue sl) false false false.

(** [controlData[slot] = {volume: [], opacity: [], timestamps: []}] for
    each loaded video. *)
Definition freshControlData (vs : list (option Video)) : gmap nat SlotData :=
  forEachFrom 0
    (λ (v : option Video) slot acc,
       match v with Some _ => <[slot := emptySlotData]> acc | None => acc end)
    vs ∅.

(** [video.keyframes.find(keyframe => keyframe !== null)] *)
Definition leftmostKeyframe (video : Video) : option Q :=
  mjoin (List.find isSomeb (keyframes video)).

(** The loop of [startActualRecording] that seeks every loaded video to
    its leftmost keyframe calls [previewPlayers[slot].seekTo] outside any
    [try]: it throws at the first slot that has a video with a keyframe
    and a player that is not ready.  Where the players move to is not
    modelled. *)
Definition seekToLeftmostThrows (s : State) : bool :=
  existsb
    (λ slot,
       match videoAt s slot, previewPlayers s !! slot with
       | Some video, Some p => isSomeb (leftmostKeyframe video) && negb (playerReady p)
       | _, _ => false
       end)
    (seq 0 (length (videos s))).

(** The last tick of the countdown: [isCountdown = false;
    startActualRecording()].  When the seek loop throws, the recording
    is on but the session being recorded has not been replaced and the
    60 s timer is not set: the page goes on recording into the data of
    the recording before. *)
Definition startActualRecording (now : Z) (s : State) : Outcome :=
  let s1 := set_lastRecordingTime ∅
              (set_recordingStartTime now (set_isRecording true (set_isCountdown false s))) in
  let overdub := bool_decide (1 < currentSession s1) in
  (* unlockControlsForOverdubbing() *)
  let s2 := if overdub
            then onLoadedSliders markPlayback (set_hijackedControls [] s1)
            else s1 in
  if seekToLeftmostThrows s2 then Thrown s2
  else
    let s3 := set_currentRecordingData
                (mkSession (currentSession s2) now 60000 (freshControlData (videos s2))) s2 in
    (* updateControlVisualState(slot) *)
    Done (if overdub then onLoadedSliders (setVisualState StPlayback) s3 else s3).

Definition set_duration (d : Z) (x : Session) : Session :=
  mkSession (session x) (startTime x) d (controlData x).

(** [stopRecording], run by the recording timer when the 60 s are over.
    The pushed copy [{...currentRecordingData}] shares its [controlData]
    with [currentRecordingData] until [startActualRecording] replaces the
    latter.  The two are kept as separate values here: nothing reads or
    writes [currentRecordingData] in between, unless that start throws
    before the replacement; what the recorder writes after such a throw
    reaches, on the page, the finalized copy as well, and here the
    session being recorded only. *)
Definition stopRecording (now : Z) (s : State) : State :=
  let s1 := set_hijackedControls []
              (set_isPlaybackMode false
                 (set_playbackInterval None (set_isRecording false s))) in
  let finished := set_duration (now - recordingStartTime s1) (currentRecordingData s1) in
  let s2 := set_recordingSessions (recordingSessions s1 ++ [finished])
              (set_currentRecordingData finished s1) in
  (* lockAllControlsBetweenSessions(); clearOverdubVisualStates() *)
  onLoadedSliders clearClasses s2.

Definition actuallyRemoveVideo (slot : nat) (s : State) : State :=
  let s1 := set_previewPlayers (delete slot (previewPlayers s)) s in
  let s2 := match videoAt s1 slot with
            | Some _ => set_videos (arraySet slot None (videos s1)) s1
            | None => s1
            end in
  set_opcSlider (delete slot (opcSlider s2))
    (set_volSlider (delete slot (volSlider s2))
       (set_mainLayerOpacity (delete slot (mainLayerOpacity s2)) s2)).

Definition resetInterface (s : State) : State :=
  let s1 := forEachVideo (λ _ slot acc, actuallyRemoveVideo slot acc) s in
  set_isPlaybackMode false
    (set_hijackedControls []
       (set_currentSession 0 (set_recordingSessions [] s1))).

(** The synchronous part of [loadVideoInSlot]; the players arrive later. *)
Definition loadVideoInSlot (slot : nat) (u vid : string) (s : State) : State :=
  let s1 := set_previewPlayers (delete slot (previewPlayers s)) s in
  let video := mkVideo u vid ("Video " +:+ pretty (slot + 1)%nat) 50 100 false false false
                       [None; None; None] in
  set_opcSlider (<[slot := mkSlider 100 false false false]> (opcSlider s1))
    (set_volSlider (<[slot := mkSlider 50 false false false]> (volSlider s1))
       (setVideo slot video s1)).

(** [loadAndPlayArtPiece(composition)], synchronous part; [vs] is
    [composition.videos] as (url, videoId) pairs. *)
Definition loadAndPlayArtPiece (vs : list (string * string)) (sessions : list Session)
    (s : State) : State :=
  let s1 := resetInterface s in
  let s2 := forEachFrom 0
              (λ (videoData : string * string) index acc,
                 if decide (index < 6)%nat
                 then loadVideoInSlot index videoData.1 videoData.2 acc else acc)
              vs s1 in
  set_recordingSessions sessions s2.

(** ** The page as a transition system *)

Inductive Event :=
| EvToggleRecording (now : Z)
| EvCountdownDone (now : Z)
| EvRecordingTimeout (now : Z)
| EvUpdateVolume (slot : nat) (v : Z) (now stampNow : Z)
| EvVolumeDebounced (slot : nat) (now : Z)
| EvUpdateOpacity (slot : nat) (v : Z) (now stampNow : Z)
| EvOpacityDebounced (slot : nat) (now : Z)
| EvSetKeyframe (slot idx : nat) (playerTime : option Q) (now : Z)
| EvJumpToKeyframe (slot idx : nat) (now : Z)
| EvDeleteKeyframe (slot idx : nat) (now : Z)
| EvPlaybackTick (now : Z)
| EvLoadVideo (slot : nat) (u vid : string)
| EvRemoveVideo (slot : nat)
| EvResetInterface
| EvLoadArtPiece (vs : list (string * string)) (sessions : list Session).

Definition handle (e : Event) (s : State) : State :=
  match e with
  | EvToggleRecording now => (toggleRecording now s).1
  | EvCountdownDone now =>
      if isCountdown s then outcomeState (startActualRecording now s) else s
  | EvRecordingTimeout now => if isRecording s then stopRecording now s else s
  | EvUpdateVolume slot v now stampNow => updateVolume slot v now stampNow s
  | EvVolumeDebounced slot now => updateVolumeDebounced slot now s
  | EvUpdateOpacity slot v now stampNow => updateOpacity slot v now stampNow s
  | EvOpacityDebounced slot now => updateOpacityDebounced slot now s
  | EvSetKeyframe slot idx t now => setKeyframe slot idx t now s
  | EvJumpToKeyframe slot idx now => jumpToKeyframe slot idx now s
  | EvDeleteKeyframe slot idx now => deleteKeyframe slot idx now s
  | EvPlaybackTick now => playbackTick now s
  | EvLoadVideo slot u vid => loadVideoInSlot slot u vid s
  | EvRemoveVideo slot => actuallyRemoveVideo slot s
  | EvResetInterface => resetInterface s
  | EvLoadArtPiece vs sessions => loadAndPlayArtPiece vs sessions s
  end.

(** A step of the page: one of the handlers above, or any other code of
    the page (link and lock toggles, DOM styling, player callbacks, the
    composition preview).  That other code never assigns
    [recordingSessions] or [isPlaybackMode]. *)
Inductive step : State → State → Prop :=
| step_event e s : step s (handle e s)
| step_other s s' :
    recordingSessions s' = recordingSessions s →
    isPlaybackMode s' = isPlaybackMode s →
    step s s'.

Inductive reachable : State → Prop :=
| reachable_init : reachable initialState
| reachable_step s s' : reachable s → step s s' → reachable s'.

(** ** Saved compositions *)

(** A composition id is [Date.now()] when saved and a string
    ['imported_...'] after an import. *)
Inductive Id := IdNum (n : Z) | IdStr (str : string).

(** [{url, videoId, title, keyframes}] *)
Record SavedVideo := mkSavedVideo {
  sv_url : string;
  sv_videoId : string;
  sv_title : string;
  sv_keyframes : list (option Q)
}.

(** The art piece as stored in [localStorage]; the last three fields
    exist only on imported pieces. *)
Record Composition := mkComposition {
  artId : Id;
  artName : string;
  createdAt : string;
  artVideos : list SavedVideo;
  sessions : list Session;
  artDuration : Z;
  thumbnail : string;
  importedAt : option string;
  originalName : option string;
  compositionHash : option string
}.

(** [saveCompositionWithThumbnailSilent]: the composition built from the
    page state; [isoNow] is [new Date().toISOString()]. *)
Definition saveComposition (nm thumbnailUrl : string) (now : Z) (isoNow : string)
    (s : State) : Composition :=
  mkComposition (IdNum now) nm isoNow
    ((λ v, mkSavedVideo (url v) (videoId v) (title v) (keyframes v)) <$> omap (λ x, x) (videos s))
    (recordingSessions s) 60000 thumbnailUrl None None None.

(** One sample of the overdub replayer's output: for each session in
    recording order and each of its slots, the volume and the opacity it
    computes at [elapsed] ([None]: the session leaves the control alone). *)
Definition sessionTargets (x : Session) (elapsed : Z) : list (nat * option Z * option Z) :=
  (λ slot,
     let sd := default emptySlotData (controlData x !! slot) in
     (slot, interpolatedVolume (volumeData sd) elapsed,
            value <$> opacityPoint (opacityData sd) elapsed))
  <$> Object_keys (controlData x).

Definition replayTargets (ss : list Session) (elapsed : Z) : list (list (nat * option Z * option Z)) :=
  (λ x, sessionTargets x elapsed) <$> ss.

(** The jump the overdub replayer tries at [elapsed]: for each session
    and slot, the keyframe button of the first keyframe event less than
    100 ms away, when that event is a jump. *)
Definition jumpTargets (ss : list Session) (elapsed : Z) : list (list (nat * option nat)) :=
  (λ x,
     (λ slot,
        let sd := default emptySlotData (controlData x !! slot) in
        (slot,
         match List.find (λ point, bool_decide (Z.abs (kf_timestamp point - elapsed) < 100))
                         (timestampData sd) with
         | Some point =>
             match action point with ActJump => Some (keyframeIndex point) | _ => None end
         | None => None
         end))
     <$> Object_keys (controlData x))
  <$> ss.

(** The sampling instants: every 100 ms over the 60 s, both ends included. *)
Definition sampleInstants : list Z := (λ k, 100 * Z.of_nat k) <$> seq 0 601.

(** The overdub replayer run from state [s] over the instants [ts]: the
    state after each tick. *)
Fixpoint replayRun (ss : list Session) (ts : list Z) (s : State) : list State :=
  match ts with
  | [] => []
  | t :: ts' =>
      let s' := outcomeState (playbackAllSessions ss t s) in
      s' :: replayRun ss ts' s'
  end.

(** ** The playback page ([playback.js]) *)

Module Playback.

(** The globals and DOM elements the replayer of the page touches.
    [seekingSlots] is [window.seekingSlots] and [lastSeekTime] is
    [window.lastSeekTime], whose keys [`${slot}-${entry.time}`] stand
    for pairs of a slot and a time; the latest binding of a key comes
    first.  [seekTimers] holds the slots whose 100 ms timer of
    [performSmoothSeek] is pending.  [clockReads] counts the readings of
    [Date.now()] the keyframe replay has taken: the page reads the clock
    anew at each use, and the readings are handed to the replay as a
    sequence [clock], of which [clock (clockReads s)] is the next one.
    The position of the players and the flashing of the keyframe buttons
    are not modelled. *)
Record PageState := mkPageState {
  mainPlayers : gmap nat Player;
  currentPlaybackVolumes : gmap nat Z;
  seekingSlots : list nat;
  mainPlayerOpacity : gmap nat Z;   (* [main-player-N].style.opacity, in percent *)
  volumeSlider : gmap nat Z;        (* [volume-N].value *)
  opacitySlider : gmap nat Z;       (* [opacity-N].value *)
  videos : list (option SavedVideo);
  lastSeekTime : list (nat * Q * Z);
  seekTimers : list nat;
  clockReads : nat
}.

Definition set_seekingSlots (x : list nat) (s : PageState) : PageState :=
  mkPageState (mainPlayers s) (currentPlaybackVolumes s) x (mainPlayerOpacity s)
    (volumeSlider s) (opacitySlider s) (videos s) (lastSeekTime s) (seekTimers s) (clockReads s).

Definition set_lastSeekTime (x : list (nat * Q * Z)) (s : PageState) : PageState :=
  mkPageState (mainPlayers s) (currentPlaybackVolumes s) (seekingSlots s) (mainPlayerOpacity s)
    (volumeSlider s) (opacitySlider s) (videos s) x (seekTimers s) (clockReads s).

Definition set_seekTimers (x : list nat) (s : PageState) : PageState :=
  mkPageState (mainPlayers s) (currentPlaybackVolumes s) (seekingSlots s) (mainPlayerOpacity s)
    (volumeSlider s) (opacitySlider s) (videos s) (lastSeekTime s) x (clockReads s).

(** How a callback of the page ends: normally, or by an uncaught
    [TypeError], with the page as it was at the throw. *)
Inductive Outcome :=
| Done (s : PageState)
| Thrown (s : PageState).

Definition outcomeState (o : Outcome) : PageState :=
  match o with Done s | Thrown s => s end.

Definition andThen (o : Outcome) (f : PageState → Outcome) : Outcome :=
  match o with
  | Done s => f s
  | Thrown s => Thrown s
  end.

(** The loop "find the closest recorded point", which both
    [playbackVolumeData] and [playbackOpacityData] run. *)
Fixpoint scanTarget (data : list Point) (currentTime : Z) (target : Z) : Z :=
  match data with
  | [] => target
  | p :: rest =>
      if bool_decide (timestamp p ≤ currentTime)
      then scanTarget rest currentTime (value p)
      else target
  end.

(** [targetVolume] / [targetOpacity]; [None] when the array is empty and
    the function returns at once. *)
Definition targetValue (data : list Point) (currentTime : Z) : option Z :=
  match data with
  | [] => None
  | p0 :: _ => Some (scanTarget data currentTime (value p0))
  end.

Definition smoothedVolume (currentVolume targetVolume : Z) : Z :=
  let volumeDiff := Z.abs (targetVolume - currentVolume) in
  if bool_decide (volumeDiff ≤ 5) then targetVolume
  else
    let step := Z.min 3 volumeDiff in
    let nextVolume :=
      currentVolume + (if bool_decide (currentVolume < targetVolume) then step else - step) in
    if bool_decide (currentVolume < targetVolume)
    then Z.min nextVolume targetVolume
    else Z.max nextVolume targetVolume.

Definition applyVolumeSmooth (slot : nat) (targetVolume : Z) (s : PageState) : PageState :=
  match mainPlayers s !! slot with
  | None => s
  | Some p =>
      if bool_decide (slot ∈ seekingSlots s) then s
      else
        let cpv :=
          match currentPlaybackVolumes s !! slot with
          | Some _ => currentPlaybackVolumes s
          | None => <[slot := 50]> (currentPlaybackVolumes s)
          end in
        let currentVolume := default 50 (cpv !! slot) in
        let applied := smoothedVolume currentVolume targetVolume in
        match setVolume applied p with
        | Some p' =>
            mkPageState (<[slot := p']> (mainPlayers s)) (<[slot := applied]> cpv)
              (seekingSlots s) (mainPlayerOpacity s) (volumeSlider s) (opacitySlider s)
              (videos s) (lastSeekTime s) (seekTimers s) (clockReads s)
        | None =>
            mkPageState (mainPlayers s) cpv
              (seekingSlots s) (mainPlayerOpacity s) (volumeSlider s) (opacitySlider s)
              (videos s) (lastSeekTime s) (seekTimers s) (clockReads s)
        end
  end.

Definition playbackVolumeData (slot : nat) (volumeData : list Point) (currentTime : Z)
    (s : PageState) : PageState :=
  match targetValue volumeData currentTime with
  | None => s
  | Some targetVolume =>
      let s1 := applyVolumeSmooth slot targetVolume s in
      mkPageState (mainPlayers s1) (currentPlaybackVolumes s1) (seekingSlots s1)
        (mainPlayerOpacity s1) (alter (λ _, targetVolume) slot (volumeSlider s1))
        (opacitySlider s1) (videos s1) (lastSeekTime s1) (seekTimers s1) (clockReads s1)
  end.

Definition playbackOpacityData (slot : nat) (opacityData : list Point) (currentTime : Z)
    (s : PageState) : PageState :=
  match targetValue opacityData currentTime with
  | None => s
  | Some targetOpacity =>
      mkPageState (mainPlayers s) (currentPlaybackVolumes s) (seekingSlots s)
        (alter (λ _, targetOpacity) slot (mainPlayerOpacity s)) (volumeSlider s)
        (alter (λ _, targetOpacity) slot (opacitySlider s))
        (videos s) (lastSeekTime s) (seekTimers s) (clockReads s)
  end.

(** [window.lastSeekTime[seekKey]], [None] when the key is absent. *)
Definition lastSeekOf (slot : nat) (time : Q) (m : list (nat * Q * Z)) : option Z :=
  snd <$> List.find (λ b, bool_decide (b.1.1 = slot) && Qeq_bool b.1.2 time) m.

(** [performSmoothSeek(slot, targetTime)].  The players are sought only
    when they have a [seekTo]; [updateTimelineDisplayForPlayback] then
    reads [videos[slot].duration], which throws when the page has no
    video in the slot, before the timer that ends the seek is set. *)
Definition performSmoothSeek (slot : nat) (s : PageState) : Outcome :=
  if bool_decide (slot ∈ seekingSlots s) then Done s
  else
    let s1 := set_seekingSlots (seekingSlots s ++ [slot]) s in
    match mjoin (videos s1 !! slot) with
    | None => Thrown s1
    | Some _ => Done (set_seekTimers (seekTimers s1 ++ [slot]) s1)
    end.

(** [Date.now()] in the keyframe replay: the next reading of [clock]. *)
Definition Date_now (clock : nat → Z) (s : PageState) : Z * PageState :=
  (clock (clockReads s),
   mkPageState (mainPlayers s) (currentPlaybackVolumes s) (seekingSlots s) (mainPlayerOpacity s)
     (volumeSlider s) (opacitySlider s) (videos s) (lastSeekTime s) (seekTimers s)
     (S (clockReads s))).

(** [window.lastSeekTime[seekKey] = Date.now(); performSmoothSeek(slot,
    entry.time)] *)
Definition seekNow (clock : nat → Z) (slot : nat) (time : Q) (s : PageState) : Outcome :=
  let '(now, s1) := Date_now clock s in
  performSmoothSeek slot (set_lastSeekTime ((slot, time, now) :: lastSeekTime s1) s1).

(** The callback of [timestampData.forEach].  The debounce reads the
    clock once to test a seek time it finds (a stored 0 counts as none)
    and once more to store the new one. *)
Definition replayEntry (clock : nat → Z) (slot : nat) (currentTime : Z) (entry : KeyframeEvent)
    (s : PageState) : Outcome :=
  if bool_decide (Z.abs (kf_timestamp entry - currentTime) < 200) then
    match action entry, kf_time entry with
    | ActJump, Some time =>
        match lastSeekOf slot time (lastSeekTime s) with
        | Some t =>
            if bool_decide (t = 0) then seekNow clock slot time s
            else
              let '(now, s1) := Date_now clock s in
              let timeSinceLastSeek := now - t in
              if bool_decide (timeSinceLastSeek < 500) then Done s1
              else seekNow clock slot time s1
        | None => seekNow clock slot time s
        end
    | _, _ => Done s
    end
  else Done s.

Definition playbackTimestampData (clock : nat → Z) (slot : nat)
    (timestampData : list KeyframeEvent) (currentTime : Z) (s : PageState) : Outcome :=
  foldl (λ o entry, andThen o (replayEntry clock slot currentTime entry)) (Done s) timestampData.

(** The timer set by [performSmoothSeek] fires:
    [window.seekingSlots.delete(slot)]. *)
Fixpoint removeFirst (slot : nat) (l : list nat) : list nat :=
  match l with
  | [] => []
  | x :: l' => if bool_decide (x = slot) then l' else x :: removeFirst slot l'
  end.

Definition seekTimerFires (slot : nat) (s : PageState) : PageState :=
  if bool_decide (slot ∈ seekTimers s)
  then set_seekTimers (removeFirst slot (seekTimers s))
         (set_seekingSlots (filter (λ x, x ≠ slot) (seekingSlots s)) s)
  else s.

Definition playbackSlot (clock : nat → Z) (x : Session) (currentTime : Z) (s : PageState)
    (slot : nat) : Outcome :=
  match controlData x !! slot with
  | None => Done s
  | Some slotData =>
      let s1 := if bool_decide (is_Some (mainPlayers s !! slot))
                then playbackVolumeData slot (volumeData slotData) currentTime s else s in
      let s2 := if bool_decide (is_Some (mainPlayers s1 !! slot))
                then playbackOpacityData slot (opacityData slotData) currentTime s1 else s1 in
      playbackTimestampData clock slot (timestampData slotData) currentTime s2
  end.

Definition playbackSessionData (clock : nat → Z) (x : Session) (currentTime : Z)
    (s : PageState) : Outcome :=
  foldl (λ o slot, andThen o (λ acc, playbackSlot clock x currentTime acc slot))
        (Done s) (Object_keys (controlData x)).

Definition applyRecordedDataAtTime (clock : nat → Z) (currentArtPiece : option Composition)
    (currentTime : Z) (s : PageState) : Outcome :=
  match currentArtPiece with
  | None => Done s
  | Some piece =>
      foldl (λ o x, andThen o (playbackSessionData clock x currentTime)) (Done s)
            (sessions piece)
  end.

(** One sample of this replayer's output, shaped like [replayTargets]. *)
Definition sessionTargets (x : Session) (currentTime : Z) : list (nat * option Z * option Z) :=
  (λ slot,
     let sd := default emptySlotData (controlData x !! slot) in
     (slot, targetValue (volumeData sd) currentTime, targetValue (opacityData sd) currentTime))
  <$> Object_keys (controlData x).

Definition replayTargets (piece : Composition) (currentTime : Z)
    : list (list (nat * option Z * option Z)) :=
  (λ x, sessionTargets x currentTime) <$> sessions piece.

(** The jumps this replayer tries at [currentTime]: for each session and
    slot, the times of the recorded jumps less than 200 ms away. *)
Definition jumpTargets (piece : Composition) (currentTime : Z) : list (list (nat * list Q)) :=
  (λ x,
     (λ slot,
        let sd := default emptySlotData (controlData x !! slot) in
        (slot,
         omap (λ entry,
                 if bool_decide (Z.abs (kf_timestamp entry - currentTime) < 200)
                 then match action entry with ActJump => kf_time entry | _ => None end
                 else None)
              (timestampData sd)))
     <$> Object_keys (controlData x))
  <$> sessions piece.

(** What happens on the page while it replays a piece: the recorded
    data is applied at a playback time, or the timer of a seek fires. *)
Inductive ReplayStep :=
| ApplyAt (currentTime : Z)
| SeekTimerFires (slot : nat).

Definition replayStep (clock : nat → Z) (piece : Composition) (s : PageState)
    (step : ReplayStep) : PageState :=
  match step with
  | ApplyAt currentTime => outcomeState (applyRecordedDataAtTime clock (Some piece) currentTime s)
  | SeekTimerFires slot => seekTimerFires slot s
  end.

(** The page replaying [piece]: the state after each step. *)
Fixpoint replayRun (clock : nat → Z) (piece : Composition) (steps : list ReplayStep)
    (s : PageState) : list PageState :=
  match steps with
  | [] => []
  | step :: steps' =>
      let s' := replayStep clock piece s step in
      s' :: replayRun clock piece steps' s'
  end.

End Playback.

(** ** JavaScript values and JSON *)

(** The value of a character ['0'] .. ['9']. *)
Definition digitValue (c : Ascii.ascii) : option Z :=
  let n := Z.of_nat (Ascii.nat_of_ascii c) in
  if bool_decide (48 ≤ n ≤ 57) then Some (n - 48) else None.

(** [parseInt(str)] for a string that starts with neither white space
    nor a sign nor [0x], as the property names of [controlData] and the
    substrings of the digit buffer do: the number its leading decimal
    digits spell, [None] (NaN) when it has none. *)
Fixpoint parseInt_go (str : string) (acc : option Z) : option Z :=
  match str with
  | EmptyString => acc
  | String c rest =>
      match digitValue c with
      | Some d => parseInt_go rest (Some (10 * default 0 acc + d))
      | None => acc
      end
  end.

Definition parseInt (str : string) : option Z := parseInt_go str None.

(** The values that the export and the import hand to [JSON]: numbers,
    strings, [null], arrays and plain objects, and [undefined] for a
    property that is absent.  The properties of an object are listed in
    the order [JSON.stringify] and [Object.keys] visit them. *)
Inductive JSValue :=
| JSUndefined
| JSNull
| JSNumber (x : Q)
| JSString (str : string)
| JSArray (elements : list JSValue)
| JSObject (properties : list (string * JSValue)).

(** [JSON.parse(JSON.stringify(v))] for a value [v] other than
    [undefined]: a property whose value is [undefined] is left out and
    an [undefined] element of an array becomes [null]; finite numbers and
    strings are read back as they were written, which is the contract of
    the two built-ins.  The text in between is not modelled. *)
Fixpoint JSON_parse_stringify (v : JSValue) : JSValue :=
  match v with
  | JSArray elements =>
      JSArray (List.map (λ x, match x with
                              | JSUndefined => JSNull
                              | _ => JSON_parse_stringify x
                              end) elements)
  | JSObject properties =>
      JSObject (List.flat_map (λ '(name, x), match x with
                                             | JSUndefined => []
                                             | _ => [(name, JSON_parse_stringify x)]
                                             end) properties)
  | _ => v
  end.

(** [v[name]], [undefined] when [v] has no such property. *)
Definition getProperty (name : string) (v : JSValue) : JSValue :=
  match v with
  | JSObject properties =>
      default JSUndefined (snd <$> List.find (λ kv, String.eqb kv.1 name) properties)
  | _ => JSUndefined
  end.

(** *** The objects of the engine as JavaScript values *)

Definition jsInteger (z : Z) : JSValue := JSNumber (inject_Z z).

(** A keyframe time is a number or [null]. *)
Definition jsTime (t : option Q) : JSValue :=
  match t with Some x => JSNumber x | None => JSNull end.

Definition jsPoint (p : Point) : JSValue :=
  JSObject [("timestamp", jsInteger (timestamp p)); ("value", jsInteger (value p))].

Definition jsAction (a : Action) : JSValue :=
  JSString match a with ActSet => "set" | ActJump => "jump" | ActDelete => "delete" end.

Definition jsKeyframeEvent (e : KeyframeEvent) : JSValue :=
  JSObject [("timestamp", jsInteger (kf_timestamp e));
            ("keyframeIndex", jsInteger (Z.of_nat (keyframeIndex e)));
            ("time", jsTime (kf_time e));
            ("action", jsAction (action e))].

Definition jsSlotData (sd : SlotData) : JSValue :=
  JSObject [("volume", JSArray (jsPoint <$> volumeData sd));
            ("opacity", JSArray (jsPoint <$> opacityData sd));
            ("timestamps", JSArray (jsKeyframeEvent <$> timestampData sd))].

(** [controlData]: an object whose property names are the slot numbers
    in decimal, in ascending order. *)
Definition jsControlData (cd : gmap nat SlotData) : JSValue :=
  JSObject ((λ slot, (pretty slot, jsSlotData (default emptySlotData (cd !! slot))))
            <$> Object_keys cd).

Definition jsSession (x : Session) : JSValue :=
  JSObject [("session", jsInteger (session x)); ("startTime", jsInteger (startTime x));
            ("duration", jsInteger (duration x)); ("controlData", jsControlData (controlData x))].

Definition jsSavedVideo (v : SavedVideo) : JSValue :=
  JSObject [("url", JSString (sv_url v)); ("videoId", JSString (sv_videoId v));
            ("title", JSString (sv_title v)); ("keyframes", JSArray (jsTime <$> sv_keyframes v))].

Definition jsId (i : Id) : JSValue :=
  match i with IdNum n => jsInteger n | IdStr str => JSString str end.

(** A property that exists only on some objects. *)
Definition jsOptional (name : string) (x : option string) : list (string * JSValue) :=
  match x with Some str => [(name, JSString str)] | None => [] end.

Definition jsComposition (c : Composition) : JSValue :=
  JSObject ([("id", jsId (artId c)); ("name", JSString (artName c));
             ("createdAt", JSString (createdAt c));
             ("videos", JSArray (jsSavedVideo <$> artVideos c));
             ("sessions", JSArray (jsSession <$> sessions c));
             ("duration", jsInteger (artDuration c));
             ("thumbnail", JSString (thumbnail c))]
            ++ jsOptional "importedAt" (importedAt c)
            ++ jsOptional "originalName" (originalName c)
            ++ jsOptional "compositionHash" (compositionHash c)).

(** *** Reading the objects back *)

Definition integerOf (v : JSValue) : option Z :=
  match v with
  | JSNumber x => if bool_decide (Qden x = 1%positive) then Some (Qnum x) else None
  | _ => None
  end.

Definition stringOf (v : JSValue) : option string :=
  match v with JSString str => Some str | _ => None end.

Definition arrayOf (v : JSValue) : option (list JSValue) :=
  match v with JSArray elements => Some elements | _ => None end.

Definition timeOf (v : JSValue) : option (option Q) :=
  match v with
  | JSNumber x => Some (Some x)
  | JSNull => Some None
  | _ => None
  end.

Definition optionalStringOf (v : JSValue) : option (option string) :=
  match v with
  | JSString str => Some (Some str)
  | JSUndefined => Some None
  | _ => None
  end.

Definition pointOf (v : JSValue) : option Point :=
  t ← integerOf (getProperty "timestamp" v);
  x ← integerOf (getProperty "value" v);
  Some (mkPoint t x).

Definition actionOf (v : JSValue) : option Action :=
  str ← stringOf v;
  if String.eqb str "set" then Some ActSet
  else if String.eqb str "jump" then Some ActJump
  else if String.eqb str "delete" then Some ActDelete
  else None.

Definition keyframeEventOf (v : JSValue) : option KeyframeEvent :=
  ts ← integerOf (getProperty "timestamp" v);
  idx ← integerOf (getProperty "keyframeIndex" v);
  t ← timeOf (getProperty "time" v);
  a ← actionOf (getProperty "action" v);
  Some (mkKeyframeEvent ts (Z.to_nat idx) t a).

Definition slotDataOf (v : JSValue) : option SlotData :=
  vol ← arrayOf (getProperty "volume" v) ≫= mapM pointOf;
  opc ← arrayOf (getProperty "opacity" v) ≫= mapM pointOf;
  tss ← arrayOf (getProperty "timestamps" v) ≫= mapM keyframeEventOf;
  Some (mkSlotData vol opc tss).

(** The slot of a property is [parseInt(name)], as the replayers read it. *)
Definition controlDataOf (v : JSValue) : option (gmap nat SlotData) :=
  match v with
  | JSObject properties =>
      list_to_map
      <$> mapM (λ kv : string * JSValue,
                  slot ← parseInt kv.1;
                  sd ← slotDataOf kv.2;
                  Some (Z.to_nat slot, sd))
               properties
  | _ => None
  end.

Definition sessionOf (v : JSValue) : option Session :=
  n ← integerOf (getProperty "session" v);
  t0 ← integerOf (getProperty "startTime" v);
  d ← integerOf (getProperty "duration" v);
  cd ← controlDataOf (getProperty "controlData" v);
  Some (mkSession n t0 d cd).

Definition savedVideoOf (v : JSValue) : option SavedVideo :=
  u ← stringOf (getProperty "url" v);
  vid ← stringOf (getProperty "videoId" v);
  ttl ← stringOf (getProperty "title" v);
  kfs ← arrayOf (getProperty "keyframes" v) ≫= mapM timeOf;
  Some (mkSavedVideo u vid ttl kfs).

Definition idOf (v : JSValue) : option Id :=
  match v with
  | JSString str => Some (IdStr str)
  | _ => IdNum <$> integerOf v
  end.

Definition compositionOf (v : JSValue) : option Composition :=
  i ← idOf (getProperty "id" v);
  nm ← stringOf (getProperty "name" v);
  created ← stringOf (getProperty "createdAt" v);
  vs ← arrayOf (getProperty "videos" v) ≫= mapM savedVideoOf;
  ss ← arrayOf (getProperty "sessions" v) ≫= mapM sessionOf;
  d ← integerOf (getProperty "duration" v);
  thumb ← stringOf (getProperty "thumbnail" v);
  imported ← optionalStringOf (getProperty "importedAt" v);
  original ← optionalStringOf (getProperty "originalName" v);
  hash ← optionalStringOf (getProperty "compositionHash" v);
  Some (mkComposition i nm created vs ss d thumb imported original hash).

(** ** Gallery: export and import ([gallery.js]) *)

Module Gallery.

(** [{version, exportDate, exportedBy, artPiece}] *)
Record ExportData := mkExportData {
  version : string;
  exportDate : string;
  exportedBy : string;
  artPiece : Composition
}.

(** What [JSON.parse] of a dropped or picked file can be for the
    importer: the format with metadata, a bare art piece, or anything
    else. *)
Inductive ImportData :=
| ImportWithMetadata (e : ExportData)
| ImportDirect (c : Composition)
| ImportOther.

(** [exportData = {version, exportDate, exportedBy, artPiece: cut}] *)
Definition jsExportData (e : ExportData) : JSValue :=
  JSObject [("version", JSString (version e)); ("exportDate", JSString (exportDate e));
            ("exportedBy", JSString (exportedBy e)); ("artPiece", jsComposition (artPiece e))].

Definition exportDataOf (v : JSValue) : option ExportData :=
  ver ← stringOf (getProperty "version" v);
  date ← stringOf (getProperty "exportDate" v);
  by_ ← stringOf (getProperty "exportedBy" v);
  piece ← compositionOf (getProperty "artPiece" v);
  Some (mkExportData ver date by_ piece).

(** What the importer has in hand after [JSON.parse]: an object with an
    [artPiece], else an art piece itself, else something it rejects. *)
Definition importDataOf (v : JSValue) : ImportData :=
  match exportDataOf v with
  | Some e => ImportWithMetadata e
  | None =>
      match compositionOf v with
      | Some c => ImportDirect c
      | None => ImportOther
      end
  end.

(** A [.splice] file holds [JSON.stringify(exportData, null, 2)] and the
    importer reads it back with [JSON.parse]. *)
Definition readBack (e : ExportData) : ImportData :=
  importDataOf (JSON_parse_stringify (jsExportData e)).

(** [playCut(cut)] stores [JSON.stringify(cut)] in [sessionStorage] and
    [loadArtPieceForPlayback] of the playback page reads it with
    [JSON.parse]: the piece the playback page gets. *)
Definition playCut (cut : Composition) : option Composition :=
  compositionOf (JSON_parse_stringify (jsComposition cut)).

Inductive ImportResult :=
| Imported (savedCuts : list Composition) (piece : Composition)
| DuplicateFound (existingCut : Composition)
| ImportFailed (message : string).

(** [ToInt32], the result type of the bitwise operators. *)
Definition toInt32 (x : Z) : Z :=
  let m := x mod 2 ^ 32 in
  if bool_decide (2 ^ 31 ≤ m) then m - 2 ^ 32 else m.

Definition digit36 (d : Z) : Ascii.ascii :=
  if bool_decide (d < 10) then Ascii.ascii_of_nat (Z.to_nat (48 + d))
  else Ascii.ascii_of_nat (Z.to_nat (87 + d)).

(** [n.toString(36)] for a natural number below 36^7. *)
Fixpoint toString36_go (fuel : nat) (n : Z) (acc : string) : string :=
  match fuel with
  | O => acc
  | S fuel' =>
      let acc' := String (digit36 (n mod 36)) acc in
      if bool_decide (n / 36 = 0) then acc' else toString36_go fuel' (n / 36) acc'
  end.

Definition toString36 (n : Z) : string := toString36_go 7 n EmptyString.

Section Importer.

(** [piece.id == cutId], JavaScript's loose equality between a stored id
    and the string the share button passes. *)
Variable looseEq : Id → string → bool.

(** The UTF-16 code units of [JSON.stringify(hashData)], where
    [hashData] holds the videos' url, videoId and keyframes and the
    sessions' actions and duration. *)
Variable hashString : Composition → list Z.

Definition exportCut (savedCuts : list Composition) (cutId : string) (isoNow : string)
    : option ExportData :=
  match List.find (λ piece, looseEq (artId piece) cutId) savedCuts with
  | None => None
  | Some cut => Some (mkExportData "1.0" isoNow "Splice" cut)
  end.

Definition generateCompositionHash (piece : Composition) : string :=
  let hash :=
    foldl (λ hash char, toInt32 (toInt32 (hash * 32) - hash + char)) 0 (hashString piece) in
  toString36 (Z.abs hash).

(** [!artPiece.id] *)
Definition idFalsy (i : Id) : bool :=
  match i with
  | IdNum n => bool_decide (n = 0)
  | IdStr str => bool_decide (str = EmptyString)
  end.

(** The inputs the importer takes from the clock and the random
    generator: the new id, [new Date().toISOString()] and the
    [toLocaleTimeString] suffix. *)
Record ImportEnv := mkImportEnv {
  newId : string;
  isoNow : string;
  timeSuffix : string
}.

Definition processImportedData (importData : ImportData) (env : ImportEnv)
    (savedCuts : list Composition) : ImportResult :=
  let chosen :=
    match importData with
    | ImportWithMetadata e => Some (artPiece e)
    | ImportDirect c =>
        if negb (idFalsy (artId c)) && negb (bool_decide (artName c = EmptyString))
        then Some c else None
    | ImportOther => None
    end in
  match chosen with
  | None => ImportFailed "Invalid file format"
  | Some piece =>
      if idFalsy (artId piece) || bool_decide (artName piece = EmptyString)
      then ImportFailed "Missing required art piece data"
      else
        let incomingHash := generateCompositionHash piece in
        match List.find (λ cut, bool_decide (compositionHash cut = Some incomingHash)) savedCuts with
        | Some existingCut => DuplicateFound existingCut
        | None =>
            let orig := artName piece in
            let nm :=
              match List.find (λ cut, bool_decide (originalName cut = Some orig)) savedCuts with
              | Some _ => orig +:+ " " +:+ timeSuffix env
              | None => orig
              end in
            let piece' :=
              mkComposition (IdStr (newId env)) nm (createdAt piece) (artVideos piece)
                (sessions piece) (artDuration piece) (thumbnail piece)
                (Some (isoNow env)) (Some orig) (Some incomingHash) in
            Imported (savedCuts ++ [piece']) piece'
        end
  end.

End Importer.

End Gallery.

(** ** Example data *)

(** A finalized session with two volume samples and one opacity sample
    in slot 0. *)
Definition exampleSession : Session :=
  mkSession 1 0 60000
    {[ 0%nat := mkSlotData [mkPoint 0 50; mkPoint 1000 80] [mkPoint 0 100] [] ]}.

(** Two loaded modules during an overdub: slot 0 is cross-linked and has
    its volume tied to its opacity, slot 1 is cross-linked only. *)
Definition exampleVideoTied : Video :=
  mkVideo "https://youtu.be/a" "a" "Video 1" 50 100 true true false [Some 5%Q; None; None].

Definition exampleVideoLinked : Video :=
  mkVideo "https://youtu.be/b" "b" "Video 2" 50 100 true false false [Some 0%Q; None; None].

Definition exampleOverdub : State :=
  mkState [Some exampleVideoTied; Some exampleVideoLinked] ∅ false true false 10000 (Some 6000)
          [exampleSession] 2 true [] ∅ (mkSession 2 10000 60000 ∅) ∅ ∅
          {[ 0%nat := mkSlider 50 true false false; 1%nat := mkSlider 50 true false false ]}
          {[ 0%nat := mkSlider 100 true false false; 1%nat := mkSlider 100 true false false ]}
          ∅.

(** The record / replay scenario: one track at slot 0 with its first
    keyframe at 5.0 s, and a finalized session holding the volume
    samples (0, 50) and (1000, 80).  The overdub is in its countdown,
    the replay timer started at clock 6000. *)
Definition scenarioVolume : list Point := [mkPoint 0 50; mkPoint 1000 80].

Definition scenarioSession : Session :=
  mkSession 1 0 60000 {[ 0%nat := mkSlotData scenarioVolume [] [] ]}.

Definition scenarioState : State :=
  mkState [Some (mkVideo "https://youtu.be/a" "a" "Video 1" 50 100 false false false
                         [Some 5%Q; None; None])]
          {[ 0%nat := mkPlayer true 50 ]} false false true 0 (Some 6000)
          [scenarioSession] 2 true [] ∅ (mkSession 1 0 60000 ∅) ∅ ∅
          {[ 0%nat := mkSlider 50 false false false ]}
          {[ 0%nat := mkSlider 100 false false false ]}
          {[ 0%nat := 100 ]}.

(** A tick of the replay timer at clock [6000 + elapsed] in the scenario
    leaves this value on the volume slider of slot 0. *)
Definition scenarioSliderAt (elapsed : Z) : option Z :=
  sliderValue <$> volSlider (playbackTick (6000 + elapsed) scenarioState) !! 0%nat.

(** The last applied volume of a slot as [applyVolumeSmooth] sees it: the
    stored one, else what the player reports, else 50. *)
Definition lastAppliedVolume (s : State) (slot : nat) (p : Player) : Z :=
  default (default 50 (getVolume p)) (currentPlaybackVolumes s !! slot).

(** The playback page with a ready player in slot 0 and nothing applied
    yet. *)
Definition examplePage : Playback.PageState :=
  Playback.mkPageState {[ 0%nat := mkPlayer true 50 ]} ∅ [] {[ 0%nat := 100 ]} ∅ ∅
    [Some (mkSavedVideo "https://youtu.be/a" "a" "Video 1" [Some 5%Q; None; None])] [] [] 0.

(** ** Recording runs *)

(** The volume or opacity array of a slot's control data. *)
Definition pointsOf (controlType : ControlType) (sd : SlotData) : list Point :=
  match controlType with
  | Volume => volumeData sd
  | Opacity => opacityData sd
  | Timestamps => []
  end.

(** The samples persisted so far for a key in the session being recorded. *)
Definition recordedPoints (s : State) (slot : nat) (controlType : ControlType) : list Point :=
  pointsOf controlType (slotDataOrInit slot (currentRecordingData s)).

(** The calls that write to the session being recorded. *)
Inductive RecorderCall :=
| CallControl (slot : nat) (controlType : ControlType) (v : Z) (now stampNow : Z)
| CallTimestamp (slot idx : nat) (t : option Q) (a : Action) (now : Z).

Definition recorderCall (s : State) (c : RecorderCall) : State :=
  match c with
  | CallControl slot controlType v now stampNow =>
      recordControlChangeThrottled slot controlType v now stampNow s
  | CallTimestamp slot idx t a now => recordTimestampChange slot idx t a now s
  end.

(** Neighbouring samples are at least 25 ms apart. *)
Fixpoint spaced (l : list Point) : Prop :=
  match l with
  | p :: (q :: _) as l' => timestamp p + 25 ≤ timestamp q ∧ spaced l'
  | _ => True
  end.

(** Neighbouring samples are at least [gap] ms apart. *)
Fixpoint spacedBy (gap : Z) (l : list Point) : Prop :=
  match l with
  | p :: (q :: _) as l' => timestamp p + gap ≤ timestamp q ∧ spacedBy gap l'
  | _ => True
  end.

(** The clock does not run backwards between the two readings of a
    throttled call, and the second comes at most [lag] ms after the
    first. *)
Definition lagWithin (lag : Z) (c : RecorderCall) : Prop :=
  match c with
  | CallControl _ _ _ now stampNow => now ≤ stampNow ≤ now + lag
  | CallTimestamp _ _ _ _ _ => True
  end.

(** A recording in progress since clock 1000 with nothing persisted yet. *)
Definition exampleRecording : State :=
  mkState [Some exampleVideoLinked] ∅ false true false 1000 None [] 1 false [] ∅
          (mkSession 1 1000 60000 {[ 0%nat := emptySlotData ]}) ∅ ∅
          {[ 0%nat := mkSlider 50 false false false ]}
          {[ 0%nat := mkSlider 100 false false false ]} ∅.

(** What a recording run maintains, for the session started at [now0],
    when the two readings of each call are at most [lag] ms apart: the
    throttle remembers a reading at most [lag] ms before the clock time
    of the last stored sample. *)
Definition recorderInvariant (now0 lag : Z) (calls : list RecorderCall) (s : State) : Prop :=
  isRecording s = true ∧ recordingStartTime s = now0 ∧
  ∀ slot ct,
    spacedBy (25 - lag) (recordedPoints s slot ct) ∧
    (∀ p, last (recordedPoints s slot ct) = Some p →
          ∃ t, lastRecordingTime s !! (slot, ct) = Some t ∧
               t ≤ timestamp p + now0 ≤ t + lag) ∧
    (∀ p, p ∈ recordedPoints s slot ct →
          ∃ now stampNow, CallControl slot ct (value p) now stampNow ∈ calls ∧
                          timestamp p = stampNow - now0).

(** A page with one loaded video whose keyframes are all unset, next to
    one that has its first keyframe. *)
Definition exampleNoKeyframe : State :=
  mkState [Some exampleVideoLinked;
           Some (mkVideo "https://youtu.be/c" "c" "Video 2" 50 100 false false false
                         [None; None; None])]
          ∅ false false false 0 None [] 0 false [] ∅ (mkSession 0 0 60000 ∅) ∅ ∅
          {[ 0%nat := mkSlider 50 false false false; 1%nat := mkSlider 50 false false false ]}
          {[ 0%nat := mkSlider 100 false false false; 1%nat := mkSlider 100 false false false ]}
          ∅.

(** ** Linked values *)

(** [video.volume] or [video.opacity], by control type. *)
Definition controlValue (type : ControlType) (v : Video) : Z :=
  match type with
  | Volume => volume v
  | Opacity => opacity v
  | Timestamps => 0
  end.

Definition set_controlValue (type : ControlType) (x : Z) (v : Video) : Video :=
  match type with
  | Volume => set_volume x v
  | Opacity => set_opacity x v
  | Timestamps => v
  end.

(** What [updateLinkedControls] does to the video of a slot. *)
Definition linkedVideo (sourceSlot : nat) (type : ControlType) (change : Z)
    (slot : nat) (v : Video) : Video :=
  if negb (bool_decide (slot = sourceSlot)) && linked v && negb (locked v)
  then set_controlValue type (clamp (controlValue type v + change)) v
  else v.

(** Three loaded modules, all cross-linked, the third one locked. *)
Definition exampleLinked : State :=
  mkState [Some (mkVideo "https://youtu.be/a" "a" "Video 1" 50 100 true false false [Some 5%Q; None; None]);
           Some (mkVideo "https://youtu.be/b" "b" "Video 2" 90 100 true false false [Some 0%Q; None; None]);
           Some (mkVideo "https://youtu.be/c" "c" "Video 3" 40 100 true false true [Some 0%Q; None; None])]
          ∅ false false false 0 None [] 0 false [] ∅ (mkSession 0 0 60000 ∅) ∅ ∅
          {[ 0%nat := mkSlider 50 false false false; 1%nat := mkSlider 90 false false false;
             2%nat := mkSlider 40 false false false ]}
          {[ 0%nat := mkSlider 100 false false false; 1%nat := mkSlider 100 false false false;
             2%nat := mkSlider 100 false false false ]}
          ∅.

(** ** Control touches *)

(** The events by which the live user touches a control. *)
Definition isControlTouch (e : Event) : bool :=
  match e with
  | EvUpdateVolume _ _ _ _ | EvVolumeDebounced _ _
  | EvUpdateOpacity _ _ _ _ | EvOpacityDebounced _ _
  | EvSetKeyframe _ _ _ _ | EvJumpToKeyframe _ _ _ | EvDeleteKeyframe _ _ _ => true
  | _ => false
  end.

(** What a control touch may do to the overdub bookkeeping: it keeps the
    mode and the number of sessions, and outside playback mode it keeps
    the hijack set and the sessions themselves. *)
Definition touchRel (s s' : State) : Prop :=
  isPlaybackMode s' = isPlaybackMode s ∧
  length (recordingSessions s') = length (recordingSessions s) ∧
  (isPlaybackMode s = false →
   hijackedControls s' = hijackedControls s ∧ recordingSessions s' = recordingSessions s).

(** Playback mode is only ever on while a finalized session exists. *)
Definition playbackNeedsSession (s : State) : Prop :=
  isPlaybackMode s = true → recordingSessions s ≠ [].

(** ** A saved piece *)

(** A saved composition of one track whose only session moves the volume
    from 50 to 80 within 400 ms. *)
Definition examplePiece : Composition :=
  mkComposition (IdNum 1700000000000) "first cut" "2024-01-01T00:00:00.000Z"
    [mkSavedVideo "https://youtu.be/a" "a" "Video 1" [Some 5%Q; None; None]]
    [mkSession 1 0 60000 {[ 0%nat := mkSlotData [mkPoint 0 50; mkPoint 400 80] [mkPoint 0 100] [] ]}]
    60000 "https://img.youtube.com/vi/a/mqdefault.jpg" None None None.

Definition exampleImportEnv : Gallery.ImportEnv :=
  Gallery.mkImportEnv "imported_1700000001000_k3j9x2m1q" "2024-01-02T00:00:00.000Z" "10:15".

(** The piece above as the importer stores it, when the hash input is
    the empty string. *)
Definition exampleImported : Composition :=
  mkComposition (IdStr "imported_1700000001000_k3j9x2m1q") "first cut"
    "2024-01-01T00:00:00.000Z" (artVideos examplePiece) (sessions examplePiece) 60000
    "https://img.youtube.com/vi/a/mqdefault.jpg"
    (Some "2024-01-02T00:00:00.000Z") (Some "first cut") (Some "0").

(** A second cut, with a jump to the first keyframe recorded at 300 ms,
    and the same cut as the importer stores it. *)
Definition exampleJumpPiece : Composition :=
  mkComposition (IdNum 1700000000500) "second cut" "2024-01-01T00:00:00.500Z"
    [mkSavedVideo "https://youtu.be/a" "a" "Video 1" [Some 5%Q; None; None]]
    [mkSession 1 0 60000
       {[ 0%nat := mkSlotData [mkPoint 0 50; mkPoint 400 80] [mkPoint 0 100]
                              [mkKeyframeEvent 300 0 (Some 5%Q) ActJump] ]}]
    60000 "https://img.youtube.com/vi/a/mqdefault.jpg" None None None.

Definition exampleJumpImported : Composition :=
  mkComposition (IdStr "imported_1700000001000_k3j9x2m1q") "second cut"
    "2024-01-01T00:00:00.500Z" (artVideos exampleJumpPiece) (sessions exampleJumpPiece) 60000
    "https://img.youtube.com/vi/a/mqdefault.jpg"
    (Some "2024-01-02T00:00:00.000Z") (Some "second cut") (Some "0").

(** The hijack scenario: session 1 holds an opacity sample of value 100
    every 1000 ms from 0 to 60000; the overdub (session 2) is recording
    since clock 10000. *)
Definition everySecond (n : nat) : list Point :=
  (λ k, mkPoint (1000 * Z.of_nat k) 100) <$> seq 0 n.

Definition hijackScenario : State :=
  mkState [Some (mkVideo "https://youtu.be/a" "a" "Video 1" 50 100 false false false
                         [Some 5%Q; None; None])]
          {[ 0%nat := mkPlayer true 50 ]} false true false 10000 (Some 6000)
          [mkSession 1 0 60000 {[ 0%nat := mkSlotData [] (everySecond 61) [] ]}]
          2 true [] ∅ (mkSession 2 10000 60000 {[ 0%nat := emptySlotData ]}) ∅ ∅
          {[ 0%nat := mkSlider 50 true false false ]}
          {[ 0%nat := mkSlider 100 true false false ]}
          {[ 0%nat := 100 ]}.

(** The two pages about to replay the sessions of the saved piece: the
    overdub page in playback mode, and the playback page with its
    sliders in the document. *)
Definition exampleReplayState : State :=
  mkState [Some (mkVideo "https://youtu.be/a" "a" "Video 1" 50 100 false false false
                         [Some 5%Q; None; None])]
          {[ 0%nat := mkPlayer true 50 ]} false false true 0 (Some 6000)
          (sessions examplePiece) 2 true [] ∅ (mkSession 1 0 60000 ∅) ∅ ∅
          {[ 0%nat := mkSlider 50 false false false ]}
          {[ 0%nat := mkSlider 100 false false false ]}
          {[ 0%nat := 100 ]}.

Definition examplePageSliders : Playback.PageState :=
  Playback.mkPageState {[ 0%nat := mkPlayer true 50 ]} ∅ [] {[ 0%nat := 100 ]}
                       {[ 0%nat := 50 ]} {[ 0%nat := 100 ]}
    [Some (mkSavedVideo "https://youtu.be/a" "a" "Video 1" [Some 5%Q; None; None])] [] [] 0.

(** ** Keyframe events *)

(** The slot of a keyframe button event. *)
Definition keyframeEventSlot (e : Event) : option nat :=
  match e with
  | EvSetKeyframe slot _ _ _ | EvJumpToKeyframe slot _ _ | EvDeleteKeyframe slot _ _ => Some slot
  | _ => None
  end.


(** The part of the state a keyframe touch must leave to the sliders'
    own hijacks: the two sliders, the hijack set and the sessions. *)
Definition overdubView (s : State)
    : gmap nat Slider * gmap nat Slider * list ControlKey * list Session :=
  (volSlider s, opcSlider s, hijackedControls s, recordingSessions s).

(** [s'] differs from [s] at most by a hijack of the keyframes of [slot]. *)
Definition keyframeHijackOnly (slot : nat) (s s' : State) : Prop :=
  volSlider s' = volSlider s ∧ opcSlider s' = opcSlider s ∧
  ∀ k : ControlKey, k ≠ (slot, Timestamps) →
    (k ∈ hijackedControls s' ↔ k ∈ hijackedControls s) ∧
    (λ x, sessionLog x k.1 k.2) <$> recordingSessions s'
    = (λ x, sessionLog x k.1 k.2) <$> recordingSessions s.

(** ** What the replayer writes for a slot *)

(** The volume side of a slot: its slider, its player and the last
    applied volume. *)
Definition volumeView (s : State) (slot : nat) : option Slider * option Player * option Z :=
  (volSlider s !! slot, previewPlayers s !! slot, currentPlaybackVolumes s !! slot).

(** The opacity side of a slot: its slider and the opacity of its layer. *)
Definition opacityView (s : State) (slot : nat) : option Slider * option Z :=
  (opcSlider s !! slot, mainLayerOpacity s !! slot).

(** The timeline data: what has been recorded and what is being
    recorded, with the recorder's clocks, the hijack set and the videos. *)
Definition timelineView (s : State)
    : list (option Video) * list Session * Session * gmap ControlKey Z * list ControlKey
      * (bool * bool * bool * Z * Z) :=
  (videos s, recordingSessions s, currentRecordingData s, lastRecordingTime s,
   hijackedControls s,
   (isRecording s, isCountdown s, isPlaybackMode s, recordingStartTime s, currentSession s)).

(** The hijack scenario after the live user has touched the opacity of
    slot 0 at elapsed = 20000. *)
Definition exampleHijacked : State := hijackControl 0 Opacity (10000 + 20000) hijackScenario.

(** ** The recorder's own state *)

(** The session being recorded, the throttle clocks and the recording
    flag and clock. *)
Definition recorderView (s : State) : Session * gmap ControlKey Z * bool * Z :=
  (currentRecordingData s, lastRecordingTime s, isRecording s, recordingStartTime s).


(** What the seek loop of [startActualRecording] needs so as not to
    throw: every loaded video that has a keyframe and a player has a
    ready player. *)
Definition readyToSeek (s : State) : Prop :=
  ∀ slot video p,
    videoAt s slot = Some video → previewPlayers s !! slot = Some p →
    hasKeyframe video = true → playerReady p = true.

(** The three linked modules at the end of the countdown, the player of
    the first one created but not ready yet. *)
Definition exampleNotReady : State :=
  set_previewPlayers {[ 0%nat := mkPlayer false 50 ]}
    (set_isCountdown true (set_currentSession 1 exampleLinked)).

(** Every preview player is ready, so that no call of a player method
    in the replay throws. *)
Definition playersReady (s : State) : Prop :=
  ∀ slot p, previewPlayers s !! slot = Some p → playerReady p = true.

(** The record / replay scenario with a jump to the first keyframe
    recorded at 59950 ms and the preview player not ready. *)
Definition scenarioJumpNotReady : State :=
  set_previewPlayers {[ 0%nat := mkPlayer false 50 ]}
    (set_recordingSessions
       [mkSession 1 0 60000
          {[ 0%nat := mkSlotData [] [] [mkKeyframeEvent 59950 0 (Some 5%Q) ActJump] ]}]
       scenarioState).

(** What no recorder call changes: the finalized sessions and the
    header of the session being recorded. *)
Definition sessionHeader (s : State) : list Session * Z * Z :=
  (recordingSessions s, session (currentRecordingData s), startTime (currentRecordingData s)).

(** ** The module of a slot *)

(** What a slot holds: its video, its two sliders, its player and its
    layer. *)
Definition moduleView (s : State) (slot : nat)
    : option Video * option Slider * option Slider * option Player * option Z :=
  (videoAt s slot, volSlider s !! slot, opcSlider s !! slot, previewPlayers s !! slot,
   mainLayerOpacity s !! slot).

(** The video object [loadVideoInSlot] creates. *)
Definition freshVideo (slot : nat) (u vid : string) : Video :=
  mkVideo u vid ("Video " +:+ pretty (slot + 1)%nat) 50 100 false false false
          [None; None; None].

(** The flags and timers [resetInterface] does not touch. *)
Definition unresetView (s : State) : bool * bool * option Z * Session * Z :=
  (isRecording s, isCountdown s, playbackInterval s, currentRecordingData s,
   recordingStartTime s).

(** [composition.videos] as the loader reads it: the url and the videoId
    of each saved video. *)
Definition savedVideoRefs (piece : Composition) : list (string * string) :=
  (λ sv, (sv_url sv, sv_videoId sv)) <$> artVideos piece.

(** The number of loaded slots below [slot]. *)
Definition loadedBelow (s : State) (slot : nat) : nat :=
  length (omap (λ x, x) (take slot (videos s))).

(** A page whose only video sits in slot 2, with a finalized session
    that moves the volume of that slot. *)
Definition exampleGap : State :=
  mkState [None; None;
           Some (mkVideo "https://youtu.be/c" "c" "Video 3" 50 100 false false false
                         [Some 0%Q; None; None])]
          ∅ false false false 0 None
          [mkSession 1 0 60000 {[ 2%nat := mkSlotData [mkPoint 0 50; mkPoint 1000 80] [] [] ]}]
          1 false [] ∅ (mkSession 1 0 60000 ∅) ∅ ∅
          {[ 2%nat := mkSlider 50 false false false ]}
          {[ 2%nat := mkSlider 100 false false false ]} ∅.

(** ** Timestamp entry ([create.html], the push-digit input) *)

(** [str.substring(a, b)] for [a <= b], and [str.substring(a)]. *)
Definition js_substring (a b : nat) (str : string) : string := substring a (b - a) str.

Definition js_substring_from (a : nat) (str : string) : string :=
  substring a (String.length str - a) str.

(** [x > y] for a number [x] that may be NaN. *)
Definition numberGt (x : option Z) (y : Z) : bool :=
  match x with Some n => bool_decide (y < n) | None => false end.

(** [`${x}`] for an integer or NaN. *)
Definition numberToString (x : option Z) : string :=
  match x with Some n => pretty n | None => "NaN" end.

(** The input element: [dataset.digits], [dataset.pushMode] and [value]. *)
Record TimestampInput := mkTimestampInput {
  digits : string;
  pushMode : bool;
  inputValue : string
}.

(** The element [showTimestampInput] creates. *)
Definition newTimestampInput : TimestampInput := mkTimestampInput "00000" true ":".

Definition updateTimestampDisplay (input : TimestampInput) : TimestampInput :=
  let minutes := js_substring 0 3 (digits input) in
  let seconds := js_substring 3 5 (digits input) in
  mkTimestampInput (digits input) (pushMode input)
    (numberToString (parseInt minutes) +:+ ":" +:+ seconds).

Definition pushDigitLeft (input : TimestampInput) (newDigit : string) : TimestampInput :=
  (* shift all digits left and add the new digit on the right *)
  let digits' := js_substring_from 1 (digits input) +:+ newDigit in
  let minutes := parseInt (js_substring 0 3 digits') in
  let seconds := parseInt (js_substring 3 5 digits') in
  if numberGt minutes 999 then input
  else if numberGt seconds 59 then input
  else updateTimestampDisplay (mkTimestampInput digits' (pushMode input) (inputValue input)).

Definition pushDigitRight (input : TimestampInput) : TimestampInput :=
  (* shift all digits right and add a zero on the left *)
  updateTimestampDisplay
    (mkTimestampInput ("0" +:+ js_substring 0 4 (digits input)) (pushMode input)
                      (inputValue input)).

(** NaN when either part is. *)
Definition parseTimestampFromDigits (digits : string) : option Z :=
  match parseInt (js_substring 0 3 digits), parseInt (js_substring 3 5 digits) with
  | Some minutes, Some seconds => Some (minutes * 60 + seconds)
  | _, _ => None
  end.

(** [/^[0-9]$/.test(key)] *)
Definition isDigitKey (key : string) : bool :=
  match key with
  | String c EmptyString => isSomeb (digitValue c)
  | _ => false
  end.

(** The [keydown] listener of the input, as far as the buffer goes:
    ['Enter'] and ['Escape'] (and ['Backspace'] outside push mode) close
    the editor through [applyTimestampInput] or [cancelTimestampInput]
    and write nothing to it. *)
Definition keydown (key : string) (input : TimestampInput) : TimestampInput :=
  if bool_decide (key = "Enter") then input
  else if bool_decide (key = "Escape") then input
  else if bool_decide (key = "Backspace") then
    if pushMode input then pushDigitRight input else input
  else if isDigitKey key then
    let input1 :=
      if pushMode input then input
      else mkTimestampInput "00000" true "0:00" in
    pushDigitLeft input1 key
  else input.

(** The character of a digit, the string of a list of digits and the
    key of a digit. *)
Definition digitChar (n : Z) : Ascii.ascii := Ascii.ascii_of_nat (Z.to_nat (48 + n)).

Definition digitString (l : list Z) : string :=
  foldr (λ n str, String (digitChar n) str) EmptyString l.

Definition digitKey (n : Z) : string := String (digitChar n) EmptyString.

(** The buffers the editor can hold according to its comments: five
    digits; and those it does reach: the first four are at most 5. *)
Definition reachableBuffer (a b c d e : Z) : Prop :=
  0 ≤ a ≤ 5 ∧ 0 ≤ b ≤ 5 ∧ 0 ≤ c ≤ 5 ∧ 0 ≤ d ≤ 5 ∧ 0 ≤ e ≤ 9.

(** The editor after a run of key presses. *)
Definition typeKeys (keys : list string) : TimestampInput :=
  foldl (λ input key, keydown key input) newTimestampInput keys.

(** ** Link and lock toggles ([create.html]) *)

Definition set_linked (x : bool) (v : Video) : Video :=
  mkVideo (url v) (videoId v) (title v) (volume v) (opacity v) x
          (volumeOpacityLinked v) (locked v) (keyframes v).

Definition set_volumeOpacityLinked (x : bool) (v : Video) : Video :=
  mkVideo (url v) (videoId v) (title v) (volume v) (opacity v) (linked v)
          x (locked v) (keyframes v).

Definition set_locked (x : bool) (v : Video) : Video :=
  mkVideo (url v) (videoId v) (title v) (volume v) (opacity v) (linked v)
          (volumeOpacityLinked v) x (keyframes v).

(** [toggleLink(slot)].  [volDisabled] and [opcDisabled] are the
    [disabled] attributes of the two sliders, which the lock functions
    set and the state does not carry. *)
Definition toggleLink (slot : nat) (volDisabled opcDisabled : bool) (s : State) : State :=
  match videoAt s slot with
  | Some video =>
      if locked video then s
      else
        let video' := set_linked (negb (linked video)) video in
        let s1 := setVideo slot video' s in
        if linked video' && (isPlaybackMode s1 && bool_decide (1 < currentSession s1)) then
          (* linking during an overdub: show the sliders as replayed,
             unless they are hijacked already *)
          let s2 :=
            if negb volDisabled && negb (Set_has (slot, Volume) (hijackedControls s1))
            then set_volSlider (alter markPlayback slot (volSlider s1)) s1 else s1 in
          if negb opcDisabled && negb (Set_has (slot, Opacity) (hijackedControls s2))
          then set_opcSlider (alter markPlayback slot (opcSlider s2)) s2 else s2
        else s1
  | None => s
  end.

(** [toggleVolumeOpacityLink(slot)]; an empty [videoId] is falsy. *)
Definition toggleVolumeOpacityLink (slot : nat) (s : State) : State :=
  match videoAt s slot with
  | Some videoObj =>
      if bool_decide (videoId videoObj = EmptyString) || locked videoObj then s
      else setVideo slot
             (set_volumeOpacityLinked (negb (volumeOpacityLinked videoObj)) videoObj) s
  | None => s
  end.

(** [toggleLock(slot)]; the [disabled] attributes and the classes of the
    buttons it sets are not part of the state. *)
Definition toggleLock (slot : nat) (s : State) : State :=
  match videoAt s slot with
  | Some videoObj =>
      if bool_decide (videoId videoObj = EmptyString) then s
      else
        (* break volume-opacity linking when locking *)
        let videoObj1 :=
          if negb (locked videoObj) && volumeOpacityLinked videoObj
          then set_volumeOpacityLinked false videoObj else videoObj in
        setVideo slot (set_locked (negb (locked videoObj1)) videoObj1) s
  | None => s
  end.

(** What the user can do on the page: the events of the engine and the
    three toggles. *)
Inductive UserAction :=
| ActEvent (e : Event)
| ActToggleLink (slot : nat) (volDisabled opcDisabled : bool)
| ActToggleVolumeOpacityLink (slot : nat)
| ActToggleLock (slot : nat).

Definition act (s : State) (a : UserAction) : State :=
  match a with
  | ActEvent e => handle e s
  | ActToggleLink slot volDisabled opcDisabled => toggleLink slot volDisabled opcDisabled s
  | ActToggleVolumeOpacityLink slot => toggleVolumeOpacityLink slot s
  | ActToggleLock slot => toggleLock slot s
  end.

(** Every loaded video satisfies [P]. *)
Definition allVideos (P : Video → Prop) (s : State) : Prop :=
  ∀ slot video, videoAt s slot = Some video → P video.

(** A locked module has its volume not tied to its opacity. *)
Definition lockedUntied (v : Video) : Prop :=
  locked v = true → volumeOpacityLinked v = false.

(** A property of videos that only looks at the three flags. *)
Definition flagProperty (P : Video → Prop) : Prop :=
  ∀ v v', linked v' = linked v → volumeOpacityLinked v' = volumeOpacityLinked v →
          locked v' = locked v → P v → P v'.

(** ** The transport of the playback page ([playback.js]) *)

Module Transport.

(** The globals of the transport, with the page the replayer writes.
    [playbackInterval] says whether the 50 ms timer is set and
    [completionModal] whether the completion modal is shown.  What the
    players do on [playVideo], [pauseVideo] and [seekTo] is not
    modelled.  A callback is given the clock reading it takes itself,
    [now]; the keyframe replay it runs takes its own readings from
    [clock]. *)
Record Clock := mkClock {
  currentArtPiece : option Composition;
  isPlaybackActive : bool;
  playbackStartTime : Z;
  playbackCurrentTime : Z;
  playbackInterval : bool;
  completionModal : bool;
  page : Playback.PageState
}.

Definition compositionDuration : Z := 60000.

Definition startPlayback (now : Z) (c : Clock) : Clock :=
  if negb (isSomeb (currentArtPiece c)) || isPlaybackActive c then c
  else mkClock (currentArtPiece c) true (now - playbackCurrentTime c) (playbackCurrentTime c)
               true (completionModal c) (page c).

Definition pausePlayback (c : Clock) : Clock :=
  if negb (isPlaybackActive c) then c
  else mkClock (currentArtPiece c) false (playbackStartTime c) (playbackCurrentTime c)
               false (completionModal c) (page c).

Definition togglePlayback (now : Z) (c : Clock) : Clock :=
  if isPlaybackActive c then pausePlayback c else startPlayback now c.

Definition showCompletionModal (c : Clock) : Clock :=
  mkClock (currentArtPiece c) (isPlaybackActive c) (playbackStartTime c)
          (playbackCurrentTime c) (playbackInterval c) true (page c).

Definition updatePlaybackTime (clock : nat → Z) (now : Z) (c : Clock) : Clock :=
  if negb (isPlaybackActive c) then c
  else
    let currentTime := now - playbackStartTime c in
    (* stop at 60 seconds and show the completion modal *)
    if bool_decide (compositionDuration ≤ currentTime) then
      showCompletionModal
        (pausePlayback
           (mkClock (currentArtPiece c) (isPlaybackActive c) (playbackStartTime c)
                    compositionDuration (playbackInterval c) (completionModal c) (page c)))
    else
      mkClock (currentArtPiece c) (isPlaybackActive c) (playbackStartTime c) currentTime
              (playbackInterval c) (completionModal c)
              (Playback.outcomeState
                 (Playback.applyRecordedDataAtTime clock (currentArtPiece c) currentTime
                    (page c))).

(** A firing of the timer [startPlayback] sets. *)
Definition tick (clock : nat → Z) (now : Z) (c : Clock) : Clock :=
  if playbackInterval c then updatePlaybackTime clock now c else c.

(** [scrubPlayback(timeMs)]; [newTime] is [parseInt(timeMs)], the value
    of the range input. *)
Definition scrubPlayback (clock : nat → Z) (newTime : Z) (now : Z) (c : Clock) : Clock :=
  mkClock (currentArtPiece c) (isPlaybackActive c)
          (if isPlaybackActive c then now - newTime else playbackStartTime c)
          newTime (playbackInterval c) (completionModal c)
          (Playback.outcomeState
             (Playback.applyRecordedDataAtTime clock (currentArtPiece c) newTime (page c))).

(** [replayArtPiece], up to the timer that calls [startPlayback] half a
    second later. *)
Definition replayArtPiece (c : Clock) : Clock :=
  mkClock (currentArtPiece c) false (playbackStartTime c) 0 false false (page c).

(** The 100 ms timer of a seek fires. *)
Definition seekTimer (slot : nat) (c : Clock) : Clock :=
  mkClock (currentArtPiece c) (isPlaybackActive c) (playbackStartTime c)
          (playbackCurrentTime c) (playbackInterval c) (completionModal c)
          (Playback.seekTimerFires slot (page c)).

(** What happens on the page: the buttons, the scrubber and the timers. *)
Inductive Action :=
| Toggle (now : Z)
| Tick (now : Z)
| Scrub (newTime : Z) (now : Z)
| Replay
| StartAfterReplay (now : Z)
| SeekTimer (slot : nat).

Definition act (clock : nat → Z) (c : Clock) (a : Action) : Clock :=
  match a with
  | Toggle now => togglePlayback now c
  | Tick now => tick clock now c
  | Scrub newTime now => scrubPlayback clock newTime now c
  | Replay => replayArtPiece c
  | StartAfterReplay now => startPlayback now c
  | SeekTimer slot => seekTimer slot c
  end.

(** The scrubber is a range input from 0 to 60000. *)
Definition inRange (a : Action) : Prop :=
  match a with
  | Scrub newTime _ => 0 ≤ newTime ≤ compositionDuration
  | _ => True
  end.

(** The page as [loadArtPieceForPlayback] leaves it: a piece, playback
    not started. *)
Definition loaded (piece : Composition) (p : Playback.PageState) : Clock :=
  mkClock (Some piece) false 0 0 false false p.

End Transport.

(** The playback page with the saved example piece loaded and its one
    player ready. *)
Definition exampleClock : Transport.Clock := Transport.loaded examplePiece examplePage.

(** ** Gallery: the list of cuts ([gallery.js]) *)

Module GalleryList.

(** The truth value of a property that holds a string or is absent. *)
Definition truthy (x : option string) : bool :=
  match x with
  | Some str => negb (bool_decide (str = EmptyString))
  | None => false
  end.

(** [str.includes(searchString)] *)
Fixpoint includes (searchString str : string) : bool :=
  String.prefix searchString str
  || match str with
     | EmptyString => false
     | String _ rest => includes searchString rest
     end.

(** [cut.importedAt || cut.originalName || cut.name.includes('(imported)')] *)
Definition isImported (cut : Composition) : bool :=
  truthy (importedAt cut) || truthy (originalName cut) || includes "(imported)" (artName cut).

(** [!cut.importedAt && !cut.originalName && !cut.name.includes('(imported)')] *)
Definition isMyCut (cut : Composition) : bool :=
  negb (truthy (importedAt cut)) && negb (truthy (originalName cut))
  && negb (includes "(imported)" (artName cut)).

(** The three badges [updateFilterCounts] writes. *)
Record FilterCounts := mkFilterCounts {
  countAll : Z;
  countMyCuts : Z;
  countImported : Z
}.

Definition updateFilterCounts (savedCuts : list Composition) : FilterCounts :=
  let allCount := Z.of_nat (length savedCuts) in
  let importedCount := Z.of_nat (length (List.filter isImported savedCuts)) in
  let myCutsCount := allCount - importedCount in
  mkFilterCounts allCount myCutsCount importedCount.

Section Listing.

(** [piece.id == cutId], and [String.prototype.toLowerCase]. *)
Variable looseEq : Id → string → bool.
Variable toLowerCase : string → string.

Definition actuallyDeleteCut (cutId : string) (savedCuts : list Composition)
    : list Composition :=
  match List.find (λ piece, looseEq (artId piece) cutId) savedCuts with
  | None => savedCuts
  | Some cut => List.filter (λ piece, negb (looseEq (artId piece) cutId)) savedCuts
  end.

Definition getFilteredCuts (currentFilter currentSearchTerm : string)
    (savedCuts : list Composition) : list Composition :=
  (* first the category filter *)
  let filteredCuts :=
    if bool_decide (currentFilter = "my-cuts") then List.filter isMyCut savedCuts
    else if bool_decide (currentFilter = "imported") then List.filter isImported savedCuts
    else savedCuts in
  (* then the search filter, if there is a search term *)
  if negb (bool_decide (currentSearchTerm = EmptyString))
  then List.filter (λ cut, includes currentSearchTerm (toLowerCase (artName cut))) filteredCuts
  else filteredCuts.

End Listing.

End GalleryList.

(** [v'] has the three flags of [v]. *)
Definition sameFlags (v v' : Video) : Prop :=
  linked v' = linked v ∧ volumeOpacityLinked v' = volumeOpacityLinked v ∧
  locked v' = locked v.

(** Every video of [s'] has the flags of the video that sat in its slot
    in [s], or is new with all three flags off. *)
Definition flagsKept (s s' : State) : Prop :=
  ∀ slot v', videoAt s' slot = Some v' →
    (∃ v, videoAt s slot = Some v ∧ sameFlags v v') ∨
    (linked v' = false ∧ volumeOpacityLinked v' = false ∧ locked v' = false).

(** The page after a run of user actions from the initial state. *)
Definition runActions (actions : list UserAction) : State := foldl act initialState actions.



(** The cross-link and lock flags of the video of a slot. *)
Definition linkFlags (s : State) (slot : nat) : option (bool * bool) :=
  (λ v, (linked v, locked v)) <$> videoAt s slot.
(** * Properties *)

(** ** Truncation *)

Section Truncation.

Context (slot : nat) (controlType : ControlType) (t : Z).

Lemma filter_fmap_timestamp {A} (f : A → Sample) (g : A → Z) (l : list A) :
  (∀ a, sampleTimestamp (f a) = g a) →
  f <$> filter (λ a, g a < t) l = filter (λ p, sampleTimestamp p < t) (f <$> l).
Proof.
  intros Hfg. induction l as [|a l IH]; [done|].
  rewrite fmap_cons, !filter_cons, Hfg.
  destruct (decide (g a < t)); [rewrite fmap_cons|]; by rewrite IH.
Qed.

Lemma controlLog_truncate (sd : SlotData) :
  controlLog controlType (truncateSlotData controlType t sd)
  = filter (λ p, sampleTimestamp p < t) (controlLog controlType sd).
Proof. destruct controlType; simpl; by apply filter_fmap_timestamp. Qed.

Lemma controlLog_truncate_other (ct' : ControlType) (sd : SlotData) :
  ct' ≠ controlType →
  controlLog ct' (truncateSlotData controlType t sd) = controlLog ct' sd.
Proof. by destruct controlType, ct'. Qed.

Lemma filter_lt_idemp {A} (g : A → Z) (l : list A) :
  filter (λ a, g a < t) (filter (λ a, g a < t) l) = filter (λ a, g a < t) l.
Proof. by apply list_filter_filter_r. Qed.

Lemma truncateSlotData_idemp (sd : SlotData) :
  truncateSlotData controlType t (truncateSlotData controlType t sd)
  = truncateSlotData controlType t sd.
Proof. destruct controlType; simpl; by rewrite filter_lt_idemp. Qed.

Lemma filter_Forall_id {A} (P : A → Prop) `{∀ a, Decision (P a)} (l : list A) :
  Forall P l → filter P l = l.
Proof.
  induction 1 as [|a l Ha _ IH]; [done|].
  by rewrite filter_cons_True, IH.
Qed.

Lemma Forall_fmap_timestamp {A} (f : A → Sample) (g : A → Z) (l : list A) :
  (∀ a, sampleTimestamp (f a) = g a) →
  Forall (λ p, sampleTimestamp p < t) (f <$> l) → Forall (λ a, g a < t) l.
Proof.
  intros Hfg. rewrite Forall_fmap. intros HF. eapply Forall_impl; [exact HF|].
  intros a; simpl. by rewrite Hfg.
Qed.

Lemma truncateSlotData_noop (sd : SlotData) :
  Forall (λ p, sampleTimestamp p < t) (controlLog controlType sd) →
  truncateSlotData controlType t sd = sd.
Proof.
  destruct sd as [v o k]. destruct controlType; simpl; intros HF;
    eapply Forall_fmap_timestamp in HF; try done;
    by rewrite (filter_Forall_id _ _ HF).
Qed.

Lemma sessionLog_truncate (x : Session) :
  sessionLog (truncateSession slot controlType t x) slot controlType
  = filter (λ p, sampleTimestamp p < t) (sessionLog x slot controlType).
Proof.
  unfold truncateSession, sessionLog.
  destruct (controlData x !! slot) as [sd|] eqn:E; simpl.
  - rewrite lookup_insert_eq. apply controlLog_truncate.
  - by rewrite E.
Qed.

Lemma sessionLog_truncate_other (x : Session) (slot' : nat) (ct' : ControlType) :
  (slot', ct') ≠ (slot, controlType) →
  sessionLog (truncateSession slot controlType t x) slot' ct' = sessionLog x slot' ct'.
Proof.
  intros Hne. unfold truncateSession, sessionLog.
  destruct (controlData x !! slot) as [sd|] eqn:E; simpl; [|done].
  destruct (decide (slot' = slot)) as [->|Hs].
  - rewrite lookup_insert_eq, E. apply controlLog_truncate_other. congruence.
  - by rewrite lookup_insert_ne.
Qed.

Lemma truncateSession_idemp (x : Session) :
  truncateSession slot controlType t (truncateSession slot controlType t x)
  = truncateSession slot controlType t x.
Proof.
  unfold truncateSession.
  destruct (controlData x !! slot) as [sd|] eqn:E; simpl; [|by rewrite E].
  rewrite lookup_insert_eq. by rewrite insert_insert_eq, truncateSlotData_idemp.
Qed.

Lemma truncateSession_noop (x : Session) :
  Forall (λ p, sampleTimestamp p < t) (sessionLog x slot controlType) →
  truncateSession slot controlType t x = x.
Proof.
  unfold truncateSession, sessionLog.
  destruct (controlData x !! slot) as [sd|] eqn:E; [|done].
  intros HF. rewrite truncateSlotData_noop by done.
  rewrite insert_id by done. by destruct x.
Qed.

Lemma truncateSession_dom (x : Session) :
  dom (controlData (truncateSession slot controlType t x)) = dom (controlData x).
Proof.
  unfold truncateSession.
  destruct (controlData x !! slot) as [sd|] eqn:E; simpl; [|done].
  apply dom_insert_lookup_L. by eexists.
Qed.

End Truncation.

(** C1 (truncation monotonicity).  Truncating the finalized sessions from
    time [t] for the key (slot, controlType) keeps every session in its
    place and, in each of them: leaves no sample of that key with
    timestamp >= t; keeps exactly the samples with timestamp < t, in
    their original order; leaves the log of every other key, the slots
    present and the session's header unchanged.  Truncating a second
    time changes nothing, and the truncation is the identity when no
    sample of the key is at or after [t]. *)
Theorem truncation_monotonicity (slot : nat) (controlType : ControlType) (t : Z)
    (recordingSessions : list Session) :
  let after := deleteFutureRecordingData slot controlType t recordingSessions in
  Forall2
    (λ x x',
       Forall (λ p, sampleTimestamp p < t) (sessionLog x' slot controlType) ∧
       sessionLog x' slot controlType
         = filter (λ p, sampleTimestamp p < t) (sessionLog x slot controlType) ∧
       (∀ slot' ct', (slot', ct') ≠ (slot, controlType) →
          sessionLog x' slot' ct' = sessionLog x slot' ct') ∧
       dom (controlData x') = dom (controlData x) ∧
       session x' = session x ∧ startTime x' = startTime x ∧ duration x' = duration x)
    recordingSessions after ∧
  deleteFutureRecordingData slot controlType t after = after ∧
  (Forall (λ x, Forall (λ p, sampleTimestamp p < t) (sessionLog x slot controlType))
          recordingSessions →
   after = recordingSessions).
Proof.
  cbv zeta. unfold deleteFutureRecordingData. split; [|split].
  - apply Forall2_fmap_r, Forall_Forall2_diag, Forall_forall. intros x _.
    unfold compose. rewrite sessionLog_truncate. repeat split.
    + apply Forall_forall. intros p Hp. by apply list_elem_of_filter in Hp as [? _].
    + intros slot' ct' Hne. by apply sessionLog_truncate_other.
    + apply truncateSession_dom.
    + unfold truncateSession. by destruct (controlData x !! slot).
    + unfold truncateSession. by destruct (controlData x !! slot).
    + unfold truncateSession. by destruct (controlData x !! slot).
  - rewrite <- list_fmap_compose. apply list_fmap_ext. intros _ x _. simpl.
    apply truncateSession_idemp.
  - intros HF. induction HF as [|x l Hx _ IH]; [done|].
    rewrite fmap_cons, IH. by rewrite truncateSession_noop.
Qed.

(** On a session whose volume samples are all before 2000 the truncation
    from 2000 is the identity. *)
Lemma truncation_monotonicity_witness :
  deleteFutureRecordingData 0 Volume 2000 [exampleSession] = [exampleSession].
Proof.
  apply (proj2 (proj2 (truncation_monotonicity 0 Volume 2000 [exampleSession]))).
  repeat constructor.
Defined.

(** ** The control-key set *)

Lemma Set_has_true key l : Set_has key l = true ↔ key ∈ l.
Proof. unfold Set_has. apply bool_decide_eq_true. Qed.

Lemma Set_has_false key l : Set_has key l = false ↔ key ∉ l.
Proof. unfold Set_has. apply bool_decide_eq_false. Qed.

Lemma elem_of_Set_add k key l : k ∈ Set_add key l ↔ k = key ∨ k ∈ l.
Proof.
  unfold Set_add. destruct (Set_has key l) eqn:E.
  - apply Set_has_true in E. split; [by right|]. by intros [->|?].
  - rewrite elem_of_app, list_elem_of_singleton. tauto.
Qed.

(** ** Hijack coordinator *)

Lemma hijackKey_isPlaybackMode t s key :
  isPlaybackMode (hijackKey t s key) = isPlaybackMode s.
Proof.
  unfold hijackKey. destruct (Set_has key (hijackedControls s)); [done|].
  by destruct key as [sl []].
Qed.

Lemma hijackKey_videos t s key : videos (hijackKey t s key) = videos s.
Proof.
  unfold hijackKey. destruct (Set_has key (hijackedControls s)); [done|].
  by destruct key as [sl []].
Qed.

Lemma hijackKey_hijackedControls t s key :
  hijackedControls (hijackKey t s key) = Set_add key (hijackedControls s).
Proof.
  unfold hijackKey, Set_add. destruct (Set_has key (hijackedControls s)); [done|].
  by destruct key as [sl []].
Qed.

Lemma foldl_hijackKey_isPlaybackMode t l s :
  isPlaybackMode (foldl (hijackKey t) s l) = isPlaybackMode s.
Proof.
  revert s. induction l as [|k l IH]; intros s; simpl; [done|].
  by rewrite IH, hijackKey_isPlaybackMode.
Qed.

Lemma foldl_hijackKey_videos t l s : videos (foldl (hijackKey t) s l) = videos s.
Proof.
  revert s. induction l as [|k l IH]; intros s; simpl; [done|].
  by rewrite IH, hijackKey_videos.
Qed.

Lemma elem_of_foldl_hijackKey t l s k :
  k ∈ hijackedControls (foldl (hijackKey t) s l) ↔ k ∈ l ∨ k ∈ hijackedControls s.
Proof.
  revert s. induction l as [|k' l IH]; intros s; simpl.
  - rewrite elem_of_nil. tauto.
  - rewrite IH, hijackKey_hijackedControls, elem_of_Set_add, elem_of_cons. tauto.
Qed.

(** What the [forEach] of [collectLinkedControlsToHijack] adds. *)
Lemma elem_of_collect_loop (src : nat) (ct : ControlType) (both : bool)
    (l : list (option Video)) (i0 : nat) (acc : list ControlKey) (k : ControlKey) :
  k ∈ forEachFrom i0
        (λ (video : option Video) slot acc,
           match video with
           | Some video =>
               if negb (bool_decide (slot = src)) && linked video && negb (locked video)
               then
                 let acc1 := Set_add (slot, ct) acc in
                 if both then Set_add (slot, pairedControl ct) acc1 else acc1
               else acc
           | None => acc
           end) l acc
  ↔ k ∈ acc ∨
    ∃ j v, l !! j = Some (Some v) ∧ (i0 + j)%nat ≠ src ∧ linked v = true ∧ locked v = false ∧
           (k = ((i0 + j)%nat, ct) ∨ (both = true ∧ k = ((i0 + j)%nat, pairedControl ct))).
Proof.
  revert i0 acc. induction l as [|x l IH]; intros i0 acc; simpl.
  - split; [by left|]. intros [?|(j & v & Hj & _)]; [done|]. by rewrite lookup_nil in Hj.
  - rewrite IH. clear IH. split.
    + intros [Hk|(j & v & Hj & Hne & Hl & Hu & Hk)].
      * destruct x as [v|]; [|by left].
        destruct (negb (bool_decide (i0 = src)) && linked v && negb (locked v)) eqn:E; [|by left].
        apply andb_true_iff in E as [E Hu]. apply andb_true_iff in E as [Hne Hl].
        apply negb_true_iff, bool_decide_eq_false in Hne. apply negb_true_iff in Hu.
        assert (k ∈ acc ∨ k = (i0, ct) ∨ (both = true ∧ k = (i0, pairedControl ct))) as Hc.
        { destruct both; simpl in Hk; rewrite ?elem_of_Set_add in Hk; naive_solver. }
        destruct Hc as [?|Hc]; [by left|]. right. exists 0%nat, v.
        rewrite Nat.add_0_r. naive_solver.
      * right. exists (S j), v. rewrite <- Nat.add_succ_comm. naive_solver.
    + intros [Hk|(j & v & Hj & Hne & Hl & Hu & Hk)].
      * left. destruct x as [v|]; [|done].
        destruct (negb (bool_decide (i0 = src)) && linked v && negb (locked v)); [|done].
        destruct both; simpl; rewrite ?elem_of_Set_add; tauto.
      * destruct j as [|j]; simpl in Hj.
        -- left. injection Hj as ->. rewrite Nat.add_0_r in *.
           rewrite Hl, Hu. rewrite bool_decide_eq_false_2 by done. simpl.
           destruct both; simpl; rewrite ?elem_of_Set_add; naive_solver.
        -- right. exists j, v. rewrite Nat.add_succ_comm. naive_solver.
Qed.

(** The keys [collectLinkedControlsToHijack] returns, for a loaded source
    slot. *)
Lemma elem_of_collectLinkedControlsToHijack vs src ct init sv k :
  mjoin (vs !! src) = Some sv →
  k ∈ collectLinkedControlsToHijack vs src ct init
  ↔ k ∈ init ∨
    (volumeOpacityLinked sv = true ∧ isVolumeOrOpacity ct = true ∧ k = (src, pairedControl ct)) ∨
    (linked sv = true ∧ ct ≠ Timestamps ∧
     ∃ slot v, mjoin (vs !! slot) = Some v ∧ slot ≠ src ∧ linked v = true ∧ locked v = false ∧
       (k = (slot, ct) ∨
        (volumeOpacityLinked sv = true ∧ isVolumeOrOpacity ct = true ∧
         k = (slot, pairedControl ct)))).
Proof.
  intros Hsv. unfold collectLinkedControlsToHijack. rewrite Hsv.
  set (both := volumeOpacityLinked sv && isVolumeOrOpacity ct).
  assert (both = true ↔ volumeOpacityLinked sv = true ∧ isVolumeOrOpacity ct = true) as Hboth
    by apply andb_true_iff.
  assert (∀ init', k ∈ (if both then Set_add (src, pairedControl ct) init' else init')
                   ↔ k ∈ init' ∨ (both = true ∧ k = (src, pairedControl ct))) as Hc1.
  { intros init'. destruct both; rewrite ?elem_of_Set_add; naive_solver. }
  assert (∀ slot v, mjoin (vs !! slot) = Some v ↔ vs !! slot = Some (Some v)) as Hj.
  { intros slot v. destruct (vs !! slot) as [[?|]|]; simpl; naive_solver. }
  destruct (linked sv && negb (bool_decide (ct = Timestamps))) eqn:E.
  - apply andb_true_iff in E as [Hl Hne].
    apply negb_true_iff, bool_decide_eq_false in Hne.
    rewrite elem_of_collect_loop, Hc1. setoid_rewrite Hj. simpl. naive_solver.
  - rewrite Hc1. apply andb_false_iff in E as [E|E].
    + rewrite E. naive_solver.
    + apply negb_false_iff, bool_decide_eq_true in E. naive_solver.
Qed.

Lemma collectLinkedControlsToHijack_init vs src ct init k :
  k ∈ init → k ∈ collectLinkedControlsToHijack vs src ct init.
Proof.
  intros Hk. destruct (mjoin (vs !! src)) as [sv|] eqn:E.
  - rewrite elem_of_collectLinkedControlsToHijack by done. by left.
  - unfold collectLinkedControlsToHijack. by rewrite E.
Qed.

Lemma hijackControl_isPlaybackMode slot ct now s :
  isPlaybackMode (hijackControl slot ct now s) = isPlaybackMode s.
Proof.
  unfold hijackControl.
  destruct (isPlaybackMode s && negb (Set_has (slot, ct) (hijackedControls s))); [|done].
  apply foldl_hijackKey_isPlaybackMode.
Qed.

Lemma hijackControl_videos slot ct now s : videos (hijackControl slot ct now s) = videos s.
Proof.
  unfold hijackControl.
  destruct (isPlaybackMode s && negb (Set_has (slot, ct) (hijackedControls s))); [|done].
  apply foldl_hijackKey_videos.
Qed.

(** A component of the state that the hijack set, the sessions and the
    two sliders do not enter is left alone by [hijackControl]. *)
Lemma hijackControl_preserves {A} (proj : State → A) :
  (∀ x s, proj (set_hijackedControls x s) = proj s) →
  (∀ x s, proj (set_recordingSessions x s) = proj s) →
  (∀ x s, proj (set_volSlider x s) = proj s) →
  (∀ x s, proj (set_opcSlider x s) = proj s) →
  ∀ slot ct now s, proj (hijackControl slot ct now s) = proj s.
Proof.
  intros H1 H2 H3 H4 slot ct now s. unfold hijackControl.
  destruct (isPlaybackMode s && negb (Set_has (slot, ct) (hijackedControls s))); [|done].
  generalize (now - recordingStartTime s).
  generalize (collectLinkedControlsToHijack (videos s) slot ct [(slot, ct)]).
  intros l t. revert s. induction l as [|k l IH]; intros s; simpl; [done|].
  rewrite IH. unfold hijackKey. destruct (Set_has k (hijackedControls s)); [done|].
  destruct k as [sl []]; simpl; unfold updateControlVisualState;
    by rewrite ?H3, ?H4, H2, H1.
Qed.

(** Outside playback mode the hijack entry point does nothing. *)
Lemma hijackControl_not_playback slot ct now s :
  isPlaybackMode s = false → hijackControl slot ct now s = s.
Proof. intros H. unfold hijackControl. by rewrite H. Qed.

(** A control that is already hijacked is left alone. *)
Lemma hijackControl_already slot ct now s :
  (slot, ct) ∈ hijackedControls s → hijackControl slot ct now s = s.
Proof.
  intros H. unfold hijackControl. apply Set_has_true in H. rewrite H.
  by rewrite andb_false_r.
Qed.

(** In playback mode the touched control ends up in the hijack set. *)
Lemma hijackControl_hijacks slot ct now s :
  isPlaybackMode s = true → (slot, ct) ∈ hijackedControls (hijackControl slot ct now s).
Proof.
  intros Hp. unfold hijackControl. rewrite Hp. simpl.
  destruct (Set_has (slot, ct) (hijackedControls s)) eqn:E; simpl.
  - by apply Set_has_true.
  - apply elem_of_foldl_hijackKey. left.
    apply collectLinkedControlsToHijack_init, list_elem_of_singleton. done.
Qed.

(** The hijack scenario: a touch of the opacity at elapsed = 20000 puts
    the control in the hijack set, marks its slider and leaves session 1
    with the opacity samples before 20000 only. *)
Example hijack_truncation_scenario :
  let s' := hijackControl 0 Opacity (10000 + 20000) hijackScenario in
  hijackedControls s' = [(0%nat, Opacity)] ∧
  (λ x, opacityData <$> controlData x !! 0%nat) <$> recordingSessions s'
    = [Some (everySecond 20)] ∧
  classHijacked <$> opcSlider s' !! 0%nat = Some true.
Proof. by vm_compute. Qed.

(** C4 (hijack idempotence).  A second call of [hijackControl] for the
    same (slot, controlType), at whatever later time, returns the state
    the first call produced: the hijack set, every session's logs and all
    the rest are the same, so nothing more is truncated or hijacked. *)
Theorem hijack_idempotence (slot : nat) (controlType : ControlType) (now1 now2 : Z) (s : State) :
  hijackControl slot controlType now2 (hijackControl slot controlType now1 s)
  = hijackControl slot controlType now1 s.
Proof.
  destruct (isPlaybackMode s) eqn:Hp.
  - apply hijackControl_already. by apply hijackControl_hijacks.
  - rewrite (hijackControl_not_playback slot controlType now1 s Hp).
    by apply hijackControl_not_playback.
Qed.

(** C2, as stated, fails: taking the paired control of another linked
    track to be hijacked exactly when that other track ties its volume
    to its opacity is refuted by a touch of the volume of slot 0 above,
    which hijacks the opacity of slot 1 although slot 1 has no such tie. *)
Lemma cross_module_paired_hijack_counterexample :
  ¬ (∀ (s : State) (src : nat) (ct : ControlType) (now : Z) (sv : Video)
       (other : nat) (v : Video),
       isPlaybackMode s = true →
       videoAt s src = Some sv → linked sv = true → ct ≠ Timestamps →
       (src, ct) ∉ hijackedControls s →
       other ≠ src → videoAt s other = Some v → linked v = true → locked v = false →
       (other, ct) ∈ hijackedControls (hijackControl src ct now s) ∧
       ((other, pairedControl ct) ∈ hijackedControls (hijackControl src ct now s)
        ↔ volumeOpacityLinked v = true)).
Proof.
  intros H.
  destruct (H exampleOverdub 0%nat Volume 15000 exampleVideoTied 1%nat exampleVideoLinked)
    as [_ [Hv _]]; try done.
  { simpl. apply not_elem_of_nil. }
  assert ((1%nat, pairedControl Volume)
          ∈ hijackedControls (hijackControl 0 Volume 15000 exampleOverdub)) as Hin.
  { apply (bool_decide_unpack _). by vm_compute. }
  specialize (Hv Hin). discriminate Hv.
Qed.

(** C2 (cross-module hijack linkage), amended.  In playback mode, when
    [hijackControl] is entered for the volume or opacity of a loaded,
    cross-linked track whose control is not hijacked yet, then for every
    other track that is cross-linked and not locked: the same control
    type is in the hijack set afterwards; and its paired control is in
    the hijack set afterwards exactly when the touched track ties its
    volume to its opacity (whatever the other track's own setting), or
    the paired control was hijacked already. *)
Theorem cross_module_hijack_linkage (s : State) (src : nat) (ct : ControlType) (now : Z)
    (sv : Video) (other : nat) (v : Video) :
  isPlaybackMode s = true →
  videoAt s src = Some sv → linked sv = true → ct ≠ Timestamps →
  (src, ct) ∉ hijackedControls s →
  other ≠ src → videoAt s other = Some v → linked v = true → locked v = false →
  (other, ct) ∈ hijackedControls (hijackControl src ct now s) ∧
  ((other, pairedControl ct) ∈ hijackedControls (hijackControl src ct now s)
   ↔ volumeOpacityLinked sv = true ∨ (other, pairedControl ct) ∈ hijackedControls s).
Proof.
  intros Hp Hsv Hl Hct Hnew Hne Hv Hlv Hu.
  unfold hijackControl. rewrite Hp. apply Set_has_false in Hnew. rewrite Hnew. simpl.
  unfold videoAt in Hsv, Hv.
  assert (isVolumeOrOpacity ct = true) as Hvo by by destruct ct.
  assert (pairedControl ct ≠ ct) as Hpair by by destruct ct.
  split.
  - apply elem_of_foldl_hijackKey. left.
    rewrite (elem_of_collectLinkedControlsToHijack _ _ _ _ sv) by done.
    right; right. repeat split; [done..|]. exists other, v. naive_solver.
  - rewrite elem_of_foldl_hijackKey.
    rewrite (elem_of_collectLinkedControlsToHijack _ _ _ _ sv) by done.
    rewrite list_elem_of_singleton. split.
    + intros [[?|[?|(_ & _ & slot & v' & _ & _ & _ & _ & [?|?])]]|?]; naive_solver.
    + intros [Hsvo|?]; [left|by right]. right; right. repeat split; [done..|].
      exists other, v. naive_solver.
Qed.

(** The linkage on the two modules above, for a touch of the volume of
    slot 0. *)
Lemma cross_module_hijack_linkage_witness :
  (1%nat, Volume) ∈ hijackedControls (hijackControl 0 Volume 15000 exampleOverdub) ∧
  ((1%nat, Opacity) ∈ hijackedControls (hijackControl 0 Volume 15000 exampleOverdub)
   ↔ volumeOpacityLinked exampleVideoTied = true ∨ (1%nat, Opacity) ∈ hijackedControls exampleOverdub).
Proof.
  apply (cross_module_hijack_linkage exampleOverdub 0 Volume 15000 exampleVideoTied
           1 exampleVideoLinked); try reflexivity.
  - discriminate.
  - simpl. apply not_elem_of_nil.
  - discriminate.
Defined.

(** ** Overdub replay of a volume log *)

(** C3, as stated, fails: at elapsed = 500 the replayer does not compute
    a value strictly between 50 and 80. *)
Lemma simple_replay_counterexample :
  ¬ (∃ v, interpolatedVolume scenarioVolume 500 = Some v ∧ 50 < v ∧ v < 80).
Proof.
  intros (v & Hv & Hlo & _). vm_compute in Hv. injection Hv as <-. lia.
Qed.

(** When the next sample is 500 ms or more after the current one, the
    current value is held. *)
Lemma interpolatedVolume_hold (before : list Point) (c n : Point) (rest : list Point) (t : Z) :
  Forall (λ p, timestamp p ≤ t) before → timestamp c ≤ t → t < timestamp n →
  500 ≤ timestamp n - timestamp c →
  interpolatedVolume (before ++ c :: n :: rest) t = Some (value c).
Proof.
  intros Hb Hc Hn Hgap. unfold interpolatedVolume.
  assert (∀ cur, findPoints (before ++ c :: n :: rest) t cur = (Some c, Some n)) as ->.
  { induction Hb as [|p l Hp _ IH]; intros cur; simpl.
    - rewrite bool_decide_eq_true_2 by done. by rewrite bool_decide_eq_false_2 by lia.
    - rewrite bool_decide_eq_true_2 by done. apply IH. }
  by rewrite bool_decide_eq_false_2 by lia.
Qed.

(** After the last sample its value is held. *)
Lemma interpolatedVolume_last (before : list Point) (c : Point) (t : Z) :
  Forall (λ p, timestamp p ≤ t) before → timestamp c ≤ t →
  interpolatedVolume (before ++ [c]) t = Some (value c).
Proof.
  intros Hb Hc. unfold interpolatedVolume.
  assert (∀ cur, findPoints (before ++ [c]) t cur = (Some c, None)) as ->; [|done].
  induction Hb as [|p l Hp _ IH]; intros cur; simpl.
  - by rewrite bool_decide_eq_true_2 by done.
  - rewrite bool_decide_eq_true_2 by done. apply IH.
Qed.

(** C3 (simple record / replay), amended.  In the scenario the computed
    volume at elapsed = 500 is 50: the sample at 0 is held, because the
    next sample is 1000 ms away, outside the 500 ms interpolation
    window.  At elapsed = 2000 it is 80, the last sample's value.  The
    replay tick writes these values to the slider. *)
Theorem simple_replay_scenario :
  interpolatedVolume scenarioVolume 500 = Some 50 ∧
  interpolatedVolume scenarioVolume 2000 = Some 80 ∧
  scenarioSliderAt 500 = Some 50 ∧
  scenarioSliderAt 2000 = Some 80.
Proof.
  split; [|split; [|split]].
  - apply (interpolatedVolume_hold [] (mkPoint 0 50) (mkPoint 1000 80) []); simpl;
      [constructor | lia..].
  - apply (interpolatedVolume_last [mkPoint 0 50] (mkPoint 1000 80)); simpl;
      [repeat constructor; simpl; lia | lia].
  - by vm_compute.
  - by vm_compute.
Qed.

(** Inside the window the replayer does interpolate: half way between
    (0, 50) and (400, 80) it computes 65. *)
Example interpolatedVolume_inside_window :
  interpolatedVolume [mkPoint 0 50; mkPoint 400 80] 200 = Some 65.
Proof. by vm_compute. Qed.

(** ** Volume smoothing *)

Lemma smoothedVolume_law (currentVolume targetVolume : Z) :
  let gap := Z.abs (targetVolume - currentVolume) in
  let r := smoothedVolume currentVolume targetVolume in
  (gap ≤ 2 → r = targetVolume) ∧
  (2 < gap ≤ 20 → r = currentVolume + 2 * Z.sgn (targetVolume - currentVolume)) ∧
  (20 < gap → r = currentVolume + 5 * Z.sgn (targetVolume - currentVolume)) ∧
  Z.min currentVolume targetVolume ≤ r ≤ Z.max currentVolume targetVolume.
Proof.
  cbv zeta. unfold smoothedVolume. repeat case_bool_decide; lia.
Qed.

Lemma Playback_smoothedVolume_law (currentVolume targetVolume : Z) :
  let gap := Z.abs (targetVolume - currentVolume) in
  let r := Playback.smoothedVolume currentVolume targetVolume in
  (gap ≤ 5 → r = targetVolume) ∧
  (5 < gap → r = currentVolume + 3 * Z.sgn (targetVolume - currentVolume)) ∧
  Z.min currentVolume targetVolume ≤ r ≤ Z.max currentVolume targetVolume.
Proof.
  cbv zeta. unfold Playback.smoothedVolume. repeat case_bool_decide; lia.
Qed.

Lemma applyVolumeSmooth_ready (slot : nat) (targetVolume : Z) (s : State) (p : Player) :
  previewPlayers s !! slot = Some p → playerReady p = true →
  let r := smoothedVolume (lastAppliedVolume s slot p) targetVolume in
  let s' := applyVolumeSmooth slot targetVolume s in
  currentPlaybackVolumes s' !! slot = Some r ∧
  previewPlayers s' !! slot = Some (mkPlayer true r) ∧
  (∀ slot', slot' ≠ slot →
     currentPlaybackVolumes s' !! slot' = currentPlaybackVolumes s !! slot' ∧
     previewPlayers s' !! slot' = previewPlayers s !! slot').
Proof.
  intros Hp Hr. cbv zeta. unfold applyVolumeSmooth, lastAppliedVolume, setVolume.
  rewrite Hp, Hr.
  destruct (currentPlaybackVolumes s !! slot) as [c|] eqn:E; simpl.
  - rewrite E. simpl. rewrite !lookup_insert_eq. repeat split; try done.
    all: by rewrite lookup_insert_ne.
  - rewrite !lookup_insert_eq. simpl. repeat split; try done.
    + by rewrite !lookup_insert_ne.
    + by rewrite lookup_insert_ne.
Qed.

Lemma Playback_applyVolumeSmooth_ready (slot : nat) (targetVolume : Z)
    (s : Playback.PageState) (p : Player) :
  Playback.mainPlayers s !! slot = Some p → playerReady p = true →
  slot ∉ Playback.seekingSlots s →
  let r := Playback.smoothedVolume
             (default 50 (Playback.currentPlaybackVolumes s !! slot)) targetVolume in
  let s' := Playback.applyVolumeSmooth slot targetVolume s in
  Playback.currentPlaybackVolumes s' !! slot = Some r ∧
  Playback.mainPlayers s' !! slot = Some (mkPlayer true r).
Proof.
  intros Hp Hr Hseek. cbv zeta. unfold Playback.applyVolumeSmooth, setVolume.
  rewrite Hp, Hr. rewrite bool_decide_eq_false_2 by done.
  destruct (Playback.currentPlaybackVolumes s !! slot) as [c|] eqn:E; simpl.
  - rewrite E. simpl. by rewrite !lookup_insert_eq.
  - by rewrite !lookup_insert_eq.
Qed.

(** C6, as stated, fails for the replayer of the playback page: from a
    last applied volume of 50 and a target of 54 the gap of 4 exceeds 2,
    yet the target is applied at once instead of a step of 2. *)
Lemma volume_smoothing_counterexample :
  ¬ (∀ currentVolume targetVolume : Z,
       let gap := Z.abs (targetVolume - currentVolume) in
       let r := Playback.smoothedVolume currentVolume targetVolume in
       (gap ≤ 2 → r = targetVolume) ∧
       (2 < gap ≤ 20 → r = currentVolume + 2 * Z.sgn (targetVolume - currentVolume)) ∧
       (20 < gap → r = currentVolume + 5 * Z.sgn (targetVolume - currentVolume))).
Proof.
  intros H. destruct (H 50 54) as (_ & H2 & _).
  assert (Playback.smoothedVolume 50 54 = 54) as E by reflexivity.
  rewrite E in H2. simpl in H2. lia.
Qed.

(** C6 (volume smoothing step limiter), amended.  Each replayer keeps a
    last applied volume per slot ([currentPlaybackVolumes]) and, with a
    ready player in the slot, one call of [applyVolumeSmooth] hands the
    player, and stores as the new last applied volume, a value that
    never lies beyond the target.  In the overdub replayer of
    [create.html] that value is the target itself when the gap is at most
    2, and otherwise one step towards the target of 2, or of 5 when the
    gap exceeds 20.  In the replayer of the playback page it is the
    target itself when the gap is at most 5, and otherwise one step of 3
    towards the target (there, only while the slot is not seeking). *)
Theorem volume_smoothing_step_limiter (slot : nat) (targetVolume : Z)
    (s : State) (p : Player) (ps : Playback.PageState) (pp : Player) :
  previewPlayers s !! slot = Some p → playerReady p = true →
  Playback.mainPlayers ps !! slot = Some pp → playerReady pp = true →
  slot ∉ Playback.seekingSlots ps →
  (let last := lastAppliedVolume s slot p in
   let gap := Z.abs (targetVolume - last) in
   let s' := applyVolumeSmooth slot targetVolume s in
   ∃ r, currentPlaybackVolumes s' !! slot = Some r ∧
        previewPlayers s' !! slot = Some (mkPlayer true r) ∧
        (gap ≤ 2 → r = targetVolume) ∧
        (2 < gap ≤ 20 → r = last + 2 * Z.sgn (targetVolume - last)) ∧
        (20 < gap → r = last + 5 * Z.sgn (targetVolume - last)) ∧
        Z.min last targetVolume ≤ r ≤ Z.max last targetVolume) ∧
  (let last := default 50 (Playback.currentPlaybackVolumes ps !! slot) in
   let gap := Z.abs (targetVolume - last) in
   let ps' := Playback.applyVolumeSmooth slot targetVolume ps in
   ∃ r, Playback.currentPlaybackVolumes ps' !! slot = Some r ∧
        Playback.mainPlayers ps' !! slot = Some (mkPlayer true r) ∧
        (gap ≤ 5 → r = targetVolume) ∧
        (5 < gap → r = last + 3 * Z.sgn (targetVolume - last)) ∧
        Z.min last targetVolume ≤ r ≤ Z.max last targetVolume).
Proof.
  intros Hp Hr Hpp Hrp Hseek. split; cbv zeta.
  - destruct (applyVolumeSmooth_ready slot targetVolume s p Hp Hr) as (H1 & H2 & _).
    eexists. split; [exact H1|]. split; [exact H2|].
    apply smoothedVolume_law.
  - destruct (Playback_applyVolumeSmooth_ready slot targetVolume ps pp Hpp Hrp Hseek)
      as (H1 & H2).
    eexists. split; [exact H1|]. split; [exact H2|].
    apply Playback_smoothedVolume_law.
Qed.

(** From a last applied volume of 50 and a target of 80 the overdub
    replayer applies 55 and the playback page 53. *)
Lemma volume_smoothing_step_limiter_witness :
  (∃ r, currentPlaybackVolumes (applyVolumeSmooth 0 80 scenarioState) !! 0%nat = Some r ∧
        previewPlayers (applyVolumeSmooth 0 80 scenarioState) !! 0%nat = Some (mkPlayer true r) ∧
        r = 55) ∧
  (∃ r, Playback.currentPlaybackVolumes (Playback.applyVolumeSmooth 0 80 examplePage) !! 0%nat
        = Some r ∧ r = 53).
Proof.
  destruct (volume_smoothing_step_limiter 0 80 scenarioState (mkPlayer true 50)
              examplePage (mkPlayer true 50))
    as [(r & H1 & H2 & _ & _ & H5 & _) (r' & H1' & _ & _ & H4' & _)];
    try reflexivity.
  - apply not_elem_of_nil.
  - split.
    + exists r. split; [exact H1|]. split; [exact H2|]. apply H5. reflexivity.
    + exists r'. split; [exact H1'|]. apply H4'. reflexivity.
Defined.

(** ** Recorder *)

Lemma spacedBy_snoc (gap : Z) (l : list Point) (q : Point) :
  spacedBy gap (l ++ [q])
  ↔ spacedBy gap l ∧ ∀ p, last l = Some p → timestamp p + gap ≤ timestamp q.
Proof.
  induction l as [|p [|p' l] IH].
  - simpl. naive_solver.
  - simpl. split; [naive_solver|]. intros [_ H]. split; [|done]. by apply H.
  - change (spacedBy gap ((p :: p' :: l) ++ [q]))
      with (timestamp p + gap ≤ timestamp p' ∧ spacedBy gap ((p' :: l) ++ [q])).
    change (spacedBy gap (p :: p' :: l))
      with (timestamp p + gap ≤ timestamp p' ∧ spacedBy gap (p' :: l)).
    change (last (p :: p' :: l)) with (last (p' :: l)).
    rewrite IH. tauto.
Qed.

Lemma spacedBy_25 (l : list Point) : spacedBy 25 l ↔ spaced l.
Proof.
  induction l as [|p [|p' l] IH]; [done..|].
  change (spacedBy 25 (p :: p' :: l))
    with (timestamp p + 25 ≤ timestamp p' ∧ spacedBy 25 (p' :: l)).
  change (spaced (p :: p' :: l)) with (timestamp p + 25 ≤ timestamp p' ∧ spaced (p' :: l)).
  by rewrite IH.
Qed.

Lemma pointsOf_pushPoint ct ct' (p : Point) (sd : SlotData) :
  pointsOf ct' (pushPoint ct p sd)
  = if decide (ct' = ct) then pointsOf ct' sd ++ (if decide (ct = Timestamps) then [] else [p])
    else pointsOf ct' sd.
Proof. destruct ct, ct'; simpl; try done; by rewrite ?app_nil_r. Qed.

Lemma recordedPoints_recordControlChange slot ct v now s slot' ct' :
  isRecording s = true →
  recordedPoints (recordControlChange slot ct v now s) slot' ct'
  = if decide ((slot', ct') = (slot, ct) ∧ ct ≠ Timestamps)
    then recordedPoints s slot ct ++ [mkPoint (now - recordingStartTime s) v]
    else recordedPoints s slot' ct'.
Proof.
  intros Hr. unfold recordControlChange, recordedPoints, slotDataOrInit. rewrite Hr. simpl.
  destruct (decide (slot' = slot)) as [->|Hs].
  - rewrite lookup_insert_eq. simpl. rewrite pointsOf_pushPoint.
    destruct (decide (ct' = ct)) as [->|Hc].
    + destruct (decide (ct = Timestamps)) as [->|Ht].
      * rewrite decide_False by naive_solver. by rewrite app_nil_r.
      * by rewrite decide_True.
    + rewrite decide_False by naive_solver. done.
  - rewrite lookup_insert_ne by done. rewrite decide_False by naive_solver. done.
Qed.

Lemma recordedPoints_recordTimestampChange slot idx t a now s slot' ct' :
  recordedPoints (recordTimestampChange slot idx t a now s) slot' ct' = recordedPoints s slot' ct'.
Proof.
  unfold recordTimestampChange, recordedPoints, slotDataOrInit.
  destruct (isRecording s); simpl; [|done].
  destruct (decide (slot' = slot)) as [->|Hs].
  - rewrite lookup_insert_eq. by destruct ct'.
  - by rewrite lookup_insert_ne.
Qed.

(** One throttled call, while recording, for a volume or opacity key:
    what it does to the key's persisted samples and throttle clock. *)
Lemma recordControlChangeThrottled_step slot ct v now stampNow s :
  isRecording s = true → ct ≠ Timestamps →
  let last := default 0 (lastRecordingTime s !! (slot, ct)) in
  let s' := recordControlChangeThrottled slot ct v now stampNow s in
  (25 ≤ now - last →
     recordedPoints s' slot ct
       = recordedPoints s slot ct ++ [mkPoint (stampNow - recordingStartTime s) v] ∧
     lastRecordingTime s' !! (slot, ct) = Some now) ∧
  (now - last < 25 →
     currentRecordingData s' = currentRecordingData s ∧
     lastRecordingTime s' !! (slot, ct) = Some last).
Proof.
  intros Hr Hct. cbv zeta. unfold recordControlChangeThrottled. rewrite Hr. cbn [negb].
  set (s1 := set_lastRecordingTime _ s).
  assert (isRecording s1 = true) as Hr1 by done.
  split; intros Hgap.
  - rewrite bool_decide_eq_true_2 by done. split.
    + change (recordedPoints (recordControlChange slot ct v stampNow s1) slot ct
              = recordedPoints s1 slot ct ++ [mkPoint (stampNow - recordingStartTime s1) v]).
      rewrite recordedPoints_recordControlChange by done.
      by rewrite decide_True.
    + cbn [lastRecordingTime set_lastRecordingTime]. by rewrite lookup_insert_eq.
  - rewrite bool_decide_eq_false_2 by lia. split; [done|].
    unfold s1. cbn [lastRecordingTime set_lastRecordingTime]. by rewrite lookup_insert_eq.
Qed.

(** The full effect of a throttled call on the recorder's state. *)
Lemma recordControlChangeThrottled_effect slot ct v now stampNow s :
  isRecording s = true →
  let last := default 0 (lastRecordingTime s !! (slot, ct)) in
  let s' := recordControlChangeThrottled slot ct v now stampNow s in
  isRecording s' = true ∧ recordingStartTime s' = recordingStartTime s ∧
  (∀ slot' ct',
     recordedPoints s' slot' ct'
     = if decide (((slot', ct') = (slot, ct) ∧ ct ≠ Timestamps) ∧ 25 ≤ now - last)
       then recordedPoints s slot ct ++ [mkPoint (stampNow - recordingStartTime s) v]
       else recordedPoints s slot' ct') ∧
  (∀ key',
     lastRecordingTime s' !! key'
     = if decide (key' = (slot, ct))
       then Some (if decide (25 ≤ now - last) then now else last)
       else lastRecordingTime s !! key').
Proof.
  intros Hr. cbv zeta. unfold recordControlChangeThrottled. rewrite Hr. cbn [negb].
  set (last := default 0 (lastRecordingTime s !! (slot, ct))).
  set (s1 := set_lastRecordingTime _ s).
  assert (isRecording s1 = true) as Hr1 by done.
  destruct (decide (25 ≤ now - last)) as [Hgap|Hgap].
  - rewrite bool_decide_eq_true_2 by done.
    repeat split.
    + unfold recordControlChange. by rewrite Hr1.
    + unfold recordControlChange. by rewrite Hr1.
    + intros slot' ct'.
      change (recordedPoints (recordControlChange slot ct v stampNow s1) slot' ct' =
              if decide (((slot', ct') = (slot, ct) ∧ ct ≠ Timestamps) ∧ 25 ≤ now - last)
              then recordedPoints s1 slot ct ++ [mkPoint (stampNow - recordingStartTime s1) v]
              else recordedPoints s1 slot' ct').
      rewrite recordedPoints_recordControlChange by done.
      destruct (decide ((slot', ct') = (slot, ct) ∧ ct ≠ Timestamps)).
      * by rewrite decide_True.
      * by rewrite decide_False by tauto.
    + intros key'. cbn [lastRecordingTime set_lastRecordingTime].
      unfold recordControlChange. rewrite Hr1. cbn.
      destruct (decide (key' = (slot, ct))) as [->|Hk].
      * by rewrite lookup_insert_eq.
      * by rewrite !lookup_insert_ne.
  - rewrite bool_decide_eq_false_2 by done.
    split; [done|]. split; [done|]. split.
    + intros slot' ct'. by rewrite decide_False by tauto.
    + intros key'. unfold s1. cbn [lastRecordingTime set_lastRecordingTime].
      destruct (decide (key' = (slot, ct))) as [->|Hk].
      * by rewrite lookup_insert_eq.
      * by rewrite lookup_insert_ne.
Qed.

Lemma recordedPoints_Timestamps s slot : recordedPoints s slot Timestamps = [].
Proof. done. Qed.

Lemma recorderInvariant_step now0 lag calls s c :
  lagWithin lag c →
  recorderInvariant now0 lag calls s →
  recorderInvariant now0 lag (calls ++ [c]) (recorderCall s c).
Proof.
  intros Hlag (Hr & Hstart & Hinv).
  destruct c as [slot ct v now stampNow|slot idx t a now]; simpl in *.
  - destruct (recordControlChangeThrottled_effect slot ct v now stampNow s Hr)
      as (Hr' & Hstart' & Hpts & Hlast).
    split; [done|]. split; [congruence|]. intros slot' ct'.
    destruct (Hinv slot' ct') as (Hsp & Hl & Hprov).
    rewrite Hpts. clear Hpts.
    destruct (decide (((slot', ct') = (slot, ct) ∧ ct ≠ Timestamps) ∧ 25 ≤ now - _))
      as [[[Heq Hct] Hgap]|Hno].
    + injection Heq as -> ->. split; [|split].
      * apply spacedBy_snoc. split; [done|]. intros p Hp. simpl.
        destruct (Hl p Hp) as (t & Ht & Hb). rewrite Ht in Hgap. simpl in Hgap. lia.
      * intros p. rewrite last_snoc. intros [= <-]. exists now. simpl.
        rewrite Hlast, decide_True by done. rewrite decide_True by done.
        split; [done|]. lia.
      * intros p. rewrite elem_of_app, list_elem_of_singleton. intros [Hp| ->].
        -- destruct (Hprov p Hp) as (now' & stamp' & Hin & Hts). exists now', stamp'.
           split; [|done]. apply elem_of_app. by left.
        -- exists now, stampNow. simpl. split; [|lia]. apply elem_of_app. right.
           by apply list_elem_of_singleton.
    + split; [done|]. split.
      * intros p Hp. rewrite Hlast.
        destruct (decide ((slot', ct') = (slot, ct))) as [Heq|Hne]; [|by apply Hl].
        injection Heq as -> ->. destruct (Hl p Hp) as (t & Ht & Hb).
        destruct (decide (ct = Timestamps)) as [->|Hct];
          [by rewrite recordedPoints_Timestamps in Hp|].
        rewrite Ht. simpl. rewrite decide_False.
        -- by exists t.
        -- intros ?. apply Hno. rewrite Ht. done.
      * intros p Hp. destruct (Hprov p Hp) as (now' & stamp' & Hin & Hts). exists now', stamp'.
        split; [|done]. apply elem_of_app. by left.
  - split; [|split].
    + unfold recordTimestampChange. by rewrite Hr.
    + unfold recordTimestampChange. by rewrite Hr.
    + intros slot' ct'. rewrite recordedPoints_recordTimestampChange.
      destruct (Hinv slot' ct') as (Hsp & Hl & Hprov).
      split; [done|]. split.
      * intros p Hp. unfold recordTimestampChange. rewrite Hr. simpl. by apply Hl.
      * intros p Hp. destruct (Hprov p Hp) as (now' & stamp' & Hin & Hts). exists now', stamp'.
        split; [|done]. apply elem_of_app. by left.
Qed.

Lemma recorderInvariant_run now0 lag calls0 s calls :
  Forall (lagWithin lag) calls →
  recorderInvariant now0 lag calls0 s →
  recorderInvariant now0 lag (calls0 ++ calls) (foldl recorderCall s calls).
Proof.
  revert calls0 s. induction calls as [|c calls IH]; intros calls0 s Hlag Hinv; simpl.
  - by rewrite app_nil_r.
  - apply Forall_cons in Hlag as [Hc Hlag].
    rewrite (cons_middle c calls0 calls), app_assoc. apply IH; [done|].
    by apply recorderInvariant_step.
Qed.

(** Loops over the loaded videos that leave a component of the state
    alone at every turn leave it alone altogether. *)
Lemma forEachVideo_preserves {A} (proj : State → A) (f : Video → nat → State → State) (s : State) :
  (∀ v slot acc, proj (f v slot acc) = proj acc) → proj (forEachVideo f s) = proj s.
Proof.
  intros Hf. unfold forEachVideo. generalize (seq 0 (length (videos s))). intros l.
  revert s. induction l as [|i l IH]; intros s; simpl; [done|].
  rewrite IH. destruct (videoAt s i); [apply Hf|done].
Qed.

Lemma freshControlData_lookup vs slot sd :
  freshControlData vs !! slot = Some sd → sd = emptySlotData.
Proof.
  unfold freshControlData.
  assert (∀ i0 (acc : gmap nat SlotData),
            (∀ sd', acc !! slot = Some sd' → sd' = emptySlotData) →
            forEachFrom i0
              (λ (v : option Video) slot acc,
                 match v with Some _ => <[slot := emptySlotData]> acc | None => acc end)
              vs acc !! slot = Some sd → sd = emptySlotData) as H.
  { induction vs as [|v vs IH]; intros i0 acc Hacc; simpl; [apply Hacc|].
    apply IH. destruct v; [|done]. intros sd'.
    destruct (decide (i0 = slot)) as [->|Hne].
    - rewrite lookup_insert_eq. congruence.
    - rewrite lookup_insert_ne by done. apply Hacc. }
  apply H. intros sd'. by rewrite lookup_empty.
Qed.

(** What [startActualRecording] has done when it returns, and what it
    has done when the seek loop threw. *)
Lemma startActualRecording_Done now s s' :
  startActualRecording now s = Done s' →
  isRecording s' = true ∧ isCountdown s' = false ∧ recordingStartTime s' = now ∧
  lastRecordingTime s' = ∅ ∧
  currentRecordingData s' = mkSession (currentSession s) now 60000 (freshControlData (videos s)) ∧
  hijackedControls s' = (if bool_decide (1 < currentSession s) then [] else hijackedControls s) ∧
  videos s' = videos s ∧ recordingSessions s' = recordingSessions s ∧
  currentSession s' = currentSession s ∧ isPlaybackMode s' = isPlaybackMode s ∧
  playbackInterval s' = playbackInterval s ∧ previewPlayers s' = previewPlayers s.
Proof.
  unfold startActualRecording.
  set (s1 := set_lastRecordingTime ∅ _).
  set (s2 := if bool_decide (1 < currentSession s1) then _ else s1).
  change (currentSession s1) with (currentSession s) in *.
  assert (isRecording s2 = true ∧ isCountdown s2 = false ∧ recordingStartTime s2 = now ∧
          lastRecordingTime s2 = ∅ ∧
          hijackedControls s2
          = (if bool_decide (1 < currentSession s) then [] else hijackedControls s) ∧
          videos s2 = videos s ∧ recordingSessions s2 = recordingSessions s ∧
          currentSession s2 = currentSession s ∧ isPlaybackMode s2 = isPlaybackMode s ∧
          playbackInterval s2 = playbackInterval s ∧ previewPlayers s2 = previewPlayers s)
    as (H1 & H2 & H3 & H4 & H5 & H6 & H7 & H8 & H9 & H10 & H11).
  { unfold s2. destruct (bool_decide (1 < currentSession s)); [|done].
    unfold onLoadedSliders.
    rewrite (forEachVideo_preserves isRecording), (forEachVideo_preserves isCountdown),
      (forEachVideo_preserves recordingStartTime), (forEachVideo_preserves lastRecordingTime),
      (forEachVideo_preserves hijackedControls), (forEachVideo_preserves videos),
      (forEachVideo_preserves recordingSessions), (forEachVideo_preserves currentSession),
      (forEachVideo_preserves isPlaybackMode), (forEachVideo_preserves playbackInterval),
      (forEachVideo_preserves previewPlayers) by done.
    done. }
  destruct (seekToLeftmostThrows s2); [done|]. intros [= <-].
  rewrite H6, H8.
  destruct (bool_decide (1 < currentSession s)).
  - unfold onLoadedSliders.
    rewrite (forEachVideo_preserves isRecording), (forEachVideo_preserves isCountdown),
      (forEachVideo_preserves recordingStartTime), (forEachVideo_preserves lastRecordingTime),
      (forEachVideo_preserves hijackedControls), (forEachVideo_preserves videos),
      (forEachVideo_preserves recordingSessions), (forEachVideo_preserves currentSession),
      (forEachVideo_preserves isPlaybackMode), (forEachVideo_preserves playbackInterval),
      (forEachVideo_preserves previewPlayers), (forEachVideo_preserves currentRecordingData)
      by done.
    done.
  - done.
Qed.

Lemma startActualRecording_Thrown now s s' :
  startActualRecording now s = Thrown s' →
  isRecording s' = true ∧ isCountdown s' = false ∧ recordingStartTime s' = now ∧
  lastRecordingTime s' = ∅ ∧ currentRecordingData s' = currentRecordingData s ∧
  hijackedControls s' = (if bool_decide (1 < currentSession s) then [] else hijackedControls s) ∧
  videos s' = videos s ∧ recordingSessions s' = recordingSessions s ∧
  currentSession s' = currentSession s ∧ isPlaybackMode s' = isPlaybackMode s ∧
  playbackInterval s' = playbackInterval s ∧ previewPlayers s' = previewPlayers s.
Proof.
  unfold startActualRecording.
  set (s1 := set_lastRecordingTime ∅ _).
  set (s2 := if bool_decide (1 < currentSession s1) then _ else s1).
  change (currentSession s1) with (currentSession s) in *.
  destruct (seekToLeftmostThrows s2); [|done]. intros [= <-].
  unfold s2. destruct (bool_decide (1 < currentSession s)); [|done].
  unfold onLoadedSliders.
  rewrite (forEachVideo_preserves isRecording), (forEachVideo_preserves isCountdown),
    (forEachVideo_preserves recordingStartTime), (forEachVideo_preserves lastRecordingTime),
    (forEachVideo_preserves hijackedControls), (forEachVideo_preserves videos),
    (forEachVideo_preserves recordingSessions), (forEachVideo_preserves currentSession),
    (forEachVideo_preserves isPlaybackMode), (forEachVideo_preserves playbackInterval),
    (forEachVideo_preserves previewPlayers), (forEachVideo_preserves currentRecordingData)
    by done.
  done.
Qed.

Lemma recorderInvariant_start now0 lag s0 s1 :
  startActualRecording now0 s0 = Done s1 → recorderInvariant now0 lag [] s1.
Proof.
  intros H. apply startActualRecording_Done in H
    as (Hr & _ & Hst & Hl & Hcur & _).
  split; [done|]. split; [done|]. intros slot ct.
  assert (recordedPoints s1 slot ct = []) as ->.
  { unfold recordedPoints, slotDataOrInit. rewrite Hcur. simpl.
    destruct (freshControlData (videos s0) !! slot) as [sd|] eqn:E; simpl.
    - apply freshControlData_lookup in E as ->. by destruct ct.
    - by destruct ct. }
  split; [done|]. split; [done|]. intros p Hp. by apply elem_of_nil in Hp.
Qed.

(** C7, as stated, fails: of two values arriving within one 25 ms window
    it is not the last one that is persisted.  In a fresh recording the
    calls (10 at clock 1000) and (20 at clock 1010) persist the 10. *)
Lemma recorder_throttle_counterexample :
  ¬ (∀ (s : State) (slot : nat) (ct : ControlType) (v1 v2 now1 now2 : Z),
       isRecording s = true → ct ≠ Timestamps →
       lastRecordingTime s !! (slot, ct) = None → recordedPoints s slot ct = [] →
       25 ≤ now1 → now1 ≤ now2 < now1 + 25 →
       ∃ ts, recordedPoints
               (recordControlChangeThrottled slot ct v2 now2 now2
                  (recordControlChangeThrottled slot ct v1 now1 now1 s)) slot ct
             = [mkPoint ts v2]).
Proof.
  intros H.
  assert (∃ ts, [mkPoint 0 10] = [mkPoint ts 20]) as [ts Hts].
  { apply (H exampleRecording 0%nat Volume 10 20 1000 1010); try done; lia. }
  discriminate Hts.
Qed.

(** C7 (recorder throttle), amended.  The recorder reads the clock twice
    in a call: [now] for the throttle, [stampNow] after it for the
    timestamp.  While a session is being recorded, for every volume or
    opacity key:
    - a call is persisted exactly when its throttle reading is at least
      25 ms past the one the key's throttle clock holds (that of the last
      persisted call, 0 before the first); the persisted sample carries
      the call's value and its timestamp reading minus the session start,
      and the throttle clock moves to the call's throttle reading;
    - a call inside the 25 ms after a persisted one is dropped: the
      session being recorded is unchanged, so values are not coalesced
      and the first value of the window is the one kept;
    - hence, over any run of recorder calls after a start of the
      recording that did not throw, if in every call the timestamp
      reading is not before the throttle reading and at most [lag] ms
      after it, neighbouring persisted samples of a key are at least
      [25 - lag] ms apart (25 ms when the two readings agree), and each
      carries the value and the timestamp reading (minus the session
      start) of one of the calls made for that key. *)
Theorem recorder_throttle :
  (∀ (s : State) (slot : nat) (ct : ControlType) (v now stampNow : Z),
     isRecording s = true → ct ≠ Timestamps →
     let last := default 0 (lastRecordingTime s !! (slot, ct)) in
     let s' := recordControlChangeThrottled slot ct v now stampNow s in
     (25 ≤ now - last →
        recordedPoints s' slot ct
          = recordedPoints s slot ct ++ [mkPoint (stampNow - recordingStartTime s) v] ∧
        lastRecordingTime s' !! (slot, ct) = Some now) ∧
     (now - last < 25 →
        currentRecordingData s' = currentRecordingData s ∧
        lastRecordingTime s' !! (slot, ct) = Some last)) ∧
  (∀ (s : State) (slot : nat) (ct : ControlType) (v1 v2 now1 stampNow1 now2 stampNow2 : Z),
     isRecording s = true → ct ≠ Timestamps →
     25 ≤ now1 - default 0 (lastRecordingTime s !! (slot, ct)) → now2 - now1 < 25 →
     recordedPoints
       (recordControlChangeThrottled slot ct v2 now2 stampNow2
          (recordControlChangeThrottled slot ct v1 now1 stampNow1 s)) slot ct
     = recordedPoints s slot ct ++ [mkPoint (stampNow1 - recordingStartTime s) v1]) ∧
  (∀ (now0 lag : Z) (s0 s1 : State) (calls : list RecorderCall) (slot : nat)
     (ct : ControlType),
     startActualRecording now0 s0 = Done s1 →
     Forall (lagWithin lag) calls →
     let s := foldl recorderCall s1 calls in
     spacedBy (25 - lag) (recordedPoints s slot ct) ∧
     (lag = 0 → spaced (recordedPoints s slot ct)) ∧
     ∀ p, p ∈ recordedPoints s slot ct →
          ∃ now stampNow, CallControl slot ct (value p) now stampNow ∈ calls ∧
                          timestamp p = stampNow - now0).
Proof.
  split; [|split].
  - intros s slot ct v now stampNow Hr Hct. by apply recordControlChangeThrottled_step.
  - intros s slot ct v1 v2 now1 stampNow1 now2 stampNow2 Hr Hct Hgap1 Hgap2.
    destruct (recordControlChangeThrottled_effect slot ct v1 now1 stampNow1 s Hr)
      as (Hr1 & _ & Hpts1 & Hlast1).
    set (s1 := recordControlChangeThrottled slot ct v1 now1 stampNow1 s) in *.
    destruct (recordControlChangeThrottled_effect slot ct v2 now2 stampNow2 s1 Hr1)
      as (_ & _ & Hpts2 & _).
    rewrite Hpts2, Hlast1. rewrite (decide_True (P := (slot, ct) = (slot, ct))) by done.
    rewrite (decide_True (P := 25 ≤ now1 - _)) by done.
    rewrite decide_False by (simpl; intros [_ ?]; lia).
    rewrite Hpts1. by rewrite decide_True.
  - intros now0 lag s0 s1 calls slot ct Hstart Hlag. cbv zeta.
    pose proof (recorderInvariant_run now0 lag [] _ calls Hlag
                  (recorderInvariant_start now0 lag s0 s1 Hstart))
      as (_ & _ & Hinv).
    destruct (Hinv slot ct) as (Hsp & _ & Hprov). split; [done|]. split; [|apply Hprov].
    intros ->. by apply spacedBy_25.
Qed.

(** Two calls 10 ms apart in a fresh recording persist the first value,
    with the timestamp the first call read 1 ms after its throttle
    reading; and in a recording started at clock 4000, two calls whose
    throttle readings are 25 ms apart, the first one stamped 1 ms late,
    leave samples [25 - 1] ms apart. *)
Lemma recorder_throttle_witness :
  recordedPoints
    (recordControlChangeThrottled 0 Volume 20 1010 1010
       (recordControlChangeThrottled 0 Volume 10 1000 1001 exampleRecording)) 0 Volume
  = recordedPoints exampleRecording 0 Volume ++ [mkPoint (1001 - 1000) 10] ∧
  spacedBy (25 - 1)
    (recordedPoints
       (foldl recorderCall (outcomeState (startActualRecording 4000 exampleLinked))
          [CallControl 0 Volume 10 5000 5001; CallControl 0 Volume 20 5025 5025]) 0 Volume).
Proof.
  split.
  - apply (proj1 (proj2 recorder_throttle)
             exampleRecording 0%nat Volume 10 20 1000 1001 1010 1010).
    + reflexivity.
    + discriminate.
    + vm_compute. discriminate.
    + reflexivity.
  - refine (proj1 (proj2 (proj2 recorder_throttle) 4000 1 exampleLinked
                     (outcomeState (startActualRecording 4000 exampleLinked))
                     [CallControl 0 Volume 10 5000 5001; CallControl 0 Volume 20 5025 5025]
                     0%nat Volume _ _)).
    + vm_compute. reflexivity.
    + repeat (apply Forall_cons; split); try apply Forall_nil; unfold lagWithin; lia.
Defined.

(** The samples of that run: 24 ms apart, where the throttle saw 25. *)
Example recorder_samples_24ms_apart :
  recordedPoints
    (foldl recorderCall (outcomeState (startActualRecording 4000 exampleLinked))
       [CallControl 0 Volume 10 5000 5001; CallControl 0 Volume 20 5025 5025]) 0 Volume
  = [mkPoint 1001 10; mkPoint 1025 20].
Proof. vm_compute. reflexivity. Qed.

(** ** Starting a session *)

Lemma hasKeyframe_false (video : Video) :
  hasKeyframe video = false ↔ Forall (λ k, k = None) (keyframes video).
Proof.
  unfold hasKeyframe. induction (keyframes video) as [|k l IH]; simpl.
  - split; [constructor|done].
  - rewrite Forall_cons, <- IH. destruct k; simpl; naive_solver.
Qed.

Lemma elem_of_videosWithoutKeyframes_loop (vs : list (option Video)) (i0 : nat)
    (acc : list nat) (n : nat) :
  n ∈ forEachFrom i0
        (λ (v : option Video) actualSlot acc,
           match v with
           | Some video => if hasKeyframe video then acc else acc ++ [(actualSlot + 1)%nat]
           | None => acc
           end) vs acc
  ↔ n ∈ acc ∨ ∃ j video, vs !! j = Some (Some video) ∧ hasKeyframe video = false ∧
                         n = (i0 + j + 1)%nat.
Proof.
  revert i0 acc. induction vs as [|x vs IH]; intros i0 acc; simpl.
  - split; [by left|]. intros [?|(j & v & Hj & _)]; [done|]. by rewrite lookup_nil in Hj.
  - rewrite IH. clear IH. split.
    + intros [Hn|(j & v & Hj & Hk & ->)].
      * destruct x as [v|]; [|by left]. destruct (hasKeyframe v) eqn:E; [by left|].
        apply elem_of_app in Hn as [?|Hn]; [by left|]. apply list_elem_of_singleton in Hn.
        right. exists 0%nat, v. rewrite Nat.add_0_r. done.
      * right. exists (S j), v. repeat split; [done..|lia].
    + intros [Hn|(j & v & Hj & Hk & ->)].
      * left. destruct x as [v|]; [|done]. destruct (hasKeyframe v); [done|].
        apply elem_of_app. by left.
      * destruct j as [|j]; simpl in Hj.
        -- left. injection Hj as ->. rewrite Hk, Nat.add_0_r. apply elem_of_app. right.
           by apply list_elem_of_singleton.
        -- right. exists j, v. repeat split; [done..|lia].
Qed.

Lemma elem_of_videosWithoutKeyframes (s : State) (n : nat) :
  n ∈ videosWithoutKeyframes (videos s)
  ↔ ∃ slot video, videoAt s slot = Some video ∧ hasKeyframe video = false ∧ n = (slot + 1)%nat.
Proof.
  unfold videosWithoutKeyframes. rewrite elem_of_videosWithoutKeyframes_loop.
  unfold videoAt. split.
  - intros [Hn|(j & v & Hj & Hk & ->)]; [by apply elem_of_nil in Hn|].
    exists j, v. by rewrite Hj.
  - intros (slot & v & Hv & Hk & ->). right. exists slot, v.
    destruct (videos s !! slot) as [[?|]|]; naive_solver.
Qed.

Lemma existsb_isSomeb_videos (s : State) (slot : nat) (video : Video) :
  videoAt s slot = Some video → existsb isSomeb (videos s) = true.
Proof.
  unfold videoAt. intros Hv. apply existsb_exists. exists (Some video). split; [|done].
  apply list_elem_of_In, list_elem_of_lookup. exists slot.
  destruct (videos s !! slot) as [[?|]|]; naive_solver.
Qed.

(** C8 (a missing keyframe blocks the start).  If some loaded track has
    every keyframe unset, [startRecordingSession] returns with the alert
    that asks for a timestamp button and lists the (user-facing, slot + 1)
    number of exactly the loaded tracks without a keyframe, the offending
    one among them; the page state it returns is the state it was given,
    so no session is created or appended and [recordingSessions],
    [isRecording] and [currentRecordingData] are as before. *)
Theorem missing_keyframe_blocks_start (now : Z) (s : State) (slot : nat) (video : Video) :
  videoAt s slot = Some video →
  Forall (λ k, k = None) (keyframes video) →
  ∃ videoList,
    startRecordingSession now s = (s, Some (AlertMissingKeyframes videoList)) ∧
    (slot + 1)%nat ∈ videoList ∧
    (∀ n, n ∈ videoList
          ↔ ∃ slot' video', videoAt s slot' = Some video' ∧
                            Forall (λ k, k = None) (keyframes video') ∧ n = (slot' + 1)%nat) ∧
    recordingSessions (startRecordingSession now s).1 = recordingSessions s ∧
    isRecording (startRecordingSession now s).1 = isRecording s ∧
    currentRecordingData (startRecordingSession now s).1 = currentRecordingData s.
Proof.
  intros Hv Hk. apply hasKeyframe_false in Hk.
  assert ((slot + 1)%nat ∈ videosWithoutKeyframes (videos s)) as Hin.
  { apply elem_of_videosWithoutKeyframes. by exists slot, video. }
  unfold startRecordingSession.
  rewrite (existsb_isSomeb_videos s slot video Hv). simpl.
  destruct (videosWithoutKeyframes (videos s)) as [|n l] eqn:E.
  { by apply elem_of_nil in Hin. }
  exists (n :: l). simpl. split; [done|]. split; [done|]. split; [|done].
  intros m. rewrite <- E, elem_of_videosWithoutKeyframes.
  by setoid_rewrite hasKeyframe_false.
Qed.

(** With the second module lacking every keyframe the session does not
    start and the alert lists module 2. *)
Lemma missing_keyframe_blocks_start_witness :
  ∃ videoList,
    startRecordingSession 1000 exampleNoKeyframe
      = (exampleNoKeyframe, Some (AlertMissingKeyframes videoList)) ∧
    2%nat ∈ videoList.
Proof.
  destruct (missing_keyframe_blocks_start 1000 exampleNoKeyframe 1
              (mkVideo "https://youtu.be/c" "c" "Video 2" 50 100 false false false
                       [None; None; None]))
    as (l & H1 & H2 & _).
  - reflexivity.
  - repeat constructor.
  - exists l. split; [exact H1|exact H2].
Defined.

(** ** Linked-control propagation *)



Lemma mjoin_arraySet {A} (slot j : nat) (x : option A) (l : list (option A)) :
  mjoin (arraySet slot x l !! j) = if decide (j = slot) then x else mjoin (l !! j).
Proof.
  unfold arraySet. destruct (decide (slot < length l)%nat) as [Hlt|Hge].
  - destruct (decide (j = slot)) as [->|Hne].
    + by rewrite list_lookup_insert_eq.
    + by rewrite list_lookup_insert_ne.
  - destruct (decide (j < length l)%nat) as [Hj|Hj].
    + rewrite lookup_app_l by done. rewrite decide_False by lia. done.
    + rewrite lookup_app_r by lia.
      rewrite (lookup_ge_None_2 l j) by lia. simpl.
      destruct (decide (j - length l < slot - length l)%nat) as [Hr|Hr].
      * rewrite lookup_app_l by (rewrite length_replicate; lia).
        rewrite lookup_replicate_2 by done. rewrite decide_False by lia. done.
      * rewrite lookup_app_r by (rewrite length_replicate; lia).
        rewrite length_replicate.
        destruct (decide (j = slot)) as [->|Hne].
        -- by replace (slot - length l - (slot - length l))%nat with 0%nat by lia.
        -- replace (j - length l - (slot - length l))%nat with (S (j - slot - 1)) by lia.
           done.
Qed.

Lemma videoAt_setVideo (slot j : nat) (v : Video) (s : State) :
  videoAt (setVideo slot v s) j = if decide (j = slot) then Some v else videoAt s j.
Proof. unfold videoAt, setVideo. simpl. apply mjoin_arraySet. Qed.

Lemma hijackControl_videoAt slot ct now s j :
  videoAt (hijackControl slot ct now s) j = videoAt s j.
Proof. unfold videoAt. by rewrite hijackControl_videos. Qed.

(** One turn of the loop of [updateLinkedControls], seen on the videos. *)
Lemma linkedControlStep_videoAt src type change now video slot s j :
  videoAt s slot = Some video →
  videoAt (linkedControlStep src type change now video slot s) j
  = if decide (j = slot) then Some (linkedVideo src type change slot video) else videoAt s j.
Proof.
  intros Hv. unfold linkedControlStep, linkedVideo.
  destruct (negb (bool_decide (slot = src)) && linked video && negb (locked video)).
  - destruct type; simpl.
    + match goal with |- context [if ?b then _ else _] => destruct b end;
        rewrite ?hijackControl_videoAt; apply videoAt_setVideo.
    + match goal with |- context [if ?b then _ else _] => destruct b end;
        rewrite ?hijackControl_videoAt; apply videoAt_setVideo.
    + case_decide; congruence.
  - case_decide; congruence.
Qed.



Lemma linkedVideo_flags src type change slot v :
  linked (linkedVideo src type change slot v) = linked v ∧
  locked (linkedVideo src type change slot v) = locked v ∧
  volumeOpacityLinked (linkedVideo src type change slot v) = volumeOpacityLinked v.
Proof.
  unfold linkedVideo.
  destruct (negb (bool_decide (slot = src)) && linked v && negb (locked v)); [|done].
  by destruct type.
Qed.







Lemma updateLinkedControls_isReceivingLink src type oldValue newValue now s :
  isReceivingLink (updateLinkedControls src type oldValue newValue now s) = isReceivingLink s.
Proof.
  unfold updateLinkedControls. destruct (videoAt s src); [|done].
  destruct (negb (linked v)); [done|].
  apply (forEachVideo_preserves isReceivingLink). intros video slot acc.
  unfold linkedControlStep.
  destruct (negb (bool_decide (slot = src)) && linked video && negb (locked video)); [|done].
  assert (∀ sl ct nw st, isReceivingLink (hijackControl sl ct nw st) = isReceivingLink st) as Hh
    by by apply hijackControl_preserves.
  destruct type; [| |done].
  - cbv zeta. destruct (isPlaybackMode _); by rewrite ?Hh.
  - cbv zeta. destruct (isPlaybackMode _); by rewrite ?Hh.
Qed.











(** ** Playback mode and the first session *)

Lemma touchRel_refl s : touchRel s s.
Proof. by repeat split. Qed.

Lemma touchRel_trans s1 s2 s3 : touchRel s1 s2 → touchRel s2 s3 → touchRel s1 s3.
Proof.
  intros (Hm1 & Hl1 & Hq1) (Hm2 & Hl2 & Hq2). split; [congruence|]. split; [congruence|].
  intros Hf. destruct (Hq1 Hf) as [Ha Hb].
  destruct Hq2 as [Hc Hd]; [congruence|]. split; congruence.
Qed.

Lemma touchRel_simple s s' :
  isPlaybackMode s' = isPlaybackMode s → hijackedControls s' = hijackedControls s →
  recordingSessions s' = recordingSessions s → touchRel s s'.
Proof. intros H1 H2 H3. split; [done|]. split; [by rewrite H3|done]. Qed.

Ltac touch_simple :=
  apply touchRel_simple; simpl; repeat (case_match; simpl); try done.

Lemma hijackKey_sessions_length t s key :
  length (recordingSessions (hijackKey t s key)) = length (recordingSessions s).
Proof.
  unfold hijackKey. destruct (Set_has key (hijackedControls s)); [done|].
  destruct key as [sl []]; simpl; unfold deleteFutureRecordingData; by rewrite length_fmap.
Qed.

Lemma touchRel_hijackControl slot ct now s : touchRel s (hijackControl slot ct now s).
Proof.
  split; [apply hijackControl_isPlaybackMode|]. split.
  - unfold hijackControl.
    destruct (isPlaybackMode s && negb (Set_has (slot, ct) (hijackedControls s))); [|done].
    generalize (now - recordingStartTime s).
    generalize (collectLinkedControlsToHijack (videos s) slot ct [(slot, ct)]).
    intros l t. revert s. induction l as [|k l IH]; intros s; simpl; [done|].
    by rewrite IH, hijackKey_sessions_length.
  - intros Hf. by rewrite hijackControl_not_playback.
Qed.

Lemma touchRel_foldl {A} (f : State → A → State) (l : list A) (s : State) :
  (∀ acc x, touchRel acc (f acc x)) → touchRel s (foldl f s l).
Proof.
  intros Hf. revert s. induction l as [|x l IH]; intros s; simpl; [apply touchRel_refl|].
  eapply touchRel_trans; [apply Hf|apply IH].
Qed.

Lemma touchRel_forEachVideo (f : Video → nat → State → State) (s : State) :
  (∀ v slot acc, touchRel acc (f v slot acc)) → touchRel s (forEachVideo f s).
Proof.
  intros Hf. unfold forEachVideo. apply touchRel_foldl. intros acc slot.
  destruct (videoAt acc slot); [apply Hf|apply touchRel_refl].
Qed.

Lemma touchRel_if (b : bool) s s1 s2 :
  touchRel s s1 → touchRel s s2 → touchRel s (if b then s1 else s2).
Proof. by destruct b. Qed.

Lemma touchRel_linkedControlStep src type change now video slot s :
  touchRel s (linkedControlStep src type change now video slot s).
Proof.
  unfold linkedControlStep.
  destruct (negb (bool_decide (slot = src)) && linked video && negb (locked video));
    [|apply touchRel_refl].
  destruct type; cbv zeta; [| |apply touchRel_refl].
  - eapply touchRel_trans; [|apply touchRel_if; [apply touchRel_hijackControl|apply touchRel_refl]].
    by apply touchRel_simple.
  - eapply touchRel_trans; [|apply touchRel_if; [apply touchRel_hijackControl|apply touchRel_refl]].
    by apply touchRel_simple.
Qed.

Lemma touchRel_updateLinkedControls src type oldValue newValue now s :
  touchRel s (updateLinkedControls src type oldValue newValue now s).
Proof.
  unfold updateLinkedControls. destruct (videoAt s src); [|apply touchRel_refl].
  destruct (negb (linked v)); [apply touchRel_refl|].
  apply touchRel_forEachVideo. intros. apply touchRel_linkedControlStep.
Qed.

Lemma touchRel_propagateToLinked slot type oldValue newValue now s :
  touchRel s (propagateToLinked slot type oldValue newValue now s).
Proof.
  unfold propagateToLinked. destruct (videoAt s slot); [|apply touchRel_refl].
  destruct (linked v && negb (isReceivingLink s)); [|apply touchRel_refl].
  apply (touchRel_trans _ (set_isReceivingLink true s)); [by apply touchRel_simple|].
  eapply touchRel_trans; [apply touchRel_updateLinkedControls|]. by apply touchRel_simple.
Qed.

Lemma touchRel_updateOpacityImmediate_skip slot x now s :
  touchRel s (updateOpacityImmediate_skip slot x now s).
Proof.
  unfold updateOpacityImmediate_skip. destruct (videoAt s slot); [|apply touchRel_refl].
  destruct (isReceivingLink s); [apply touchRel_refl|].
  eapply touchRel_trans; [|apply touchRel_propagateToLinked]. by apply touchRel_simple.
Qed.

Lemma touchRel_updateVolumeImmediate_skip slot x now s :
  touchRel s (updateVolumeImmediate_skip slot x now s).
Proof.
  unfold updateVolumeImmediate_skip. destruct (videoAt s slot); [|apply touchRel_refl].
  destruct (isReceivingLink s); [apply touchRel_refl|].
  eapply touchRel_trans; [|apply touchRel_propagateToLinked]. by apply touchRel_simple.
Qed.

Lemma touchRel_updateVolumeImmediate slot x skip now s :
  touchRel s (outcomeState (updateVolumeImmediate slot x skip now s)).
Proof.
  unfold updateVolumeImmediate. destruct skip; [apply touchRel_updateVolumeImmediate_skip|].
  destruct (videoAt s slot); [|apply touchRel_refl].
  destruct (isReceivingLink s); [apply touchRel_refl|].
  destruct (volumeOpacityLinked v).
  - destruct (opcSlider _ !! slot); simpl; [|by apply touchRel_simple].
    eapply touchRel_trans; [|apply touchRel_propagateToLinked].
    eapply touchRel_trans; [|apply touchRel_updateOpacityImmediate_skip].
    by apply touchRel_simple.
  - simpl. eapply touchRel_trans; [|apply touchRel_propagateToLinked]. by apply touchRel_simple.
Qed.

Lemma touchRel_updateOpacityImmediate slot x skip now s :
  touchRel s (outcomeState (updateOpacityImmediate slot x skip now s)).
Proof.
  unfold updateOpacityImmediate. destruct skip; [apply touchRel_updateOpacityImmediate_skip|].
  destruct (videoAt s slot); [|apply touchRel_refl].
  destruct (isReceivingLink s); [apply touchRel_refl|].
  destruct (volumeOpacityLinked v).
  - destruct (volSlider _ !! slot); simpl; [|by apply touchRel_simple].
    eapply touchRel_trans; [|apply touchRel_propagateToLinked].
    eapply touchRel_trans; [|apply touchRel_updateVolumeImmediate_skip].
    by apply touchRel_simple.
  - simpl. eapply touchRel_trans; [|apply touchRel_propagateToLinked]. by apply touchRel_simple.
Qed.

Lemma touchRel_recordControlChangeThrottled slot ct x now stampNow s :
  touchRel s (recordControlChangeThrottled slot ct x now stampNow s).
Proof.
  unfold recordControlChangeThrottled, recordControlChange. touch_simple.
Qed.

Lemma touchRel_recordTimestampChange slot idx t a now s :
  touchRel s (recordTimestampChange slot idx t a now s).
Proof. unfold recordTimestampChange. touch_simple. Qed.

Lemma touchRel_updateVolume slot x now stampNow s :
  touchRel s (updateVolume slot x now stampNow s).
Proof.
  unfold updateVolume. pose proof (touchRel_updateVolumeImmediate slot x false now s) as H.
  destruct (updateVolumeImmediate slot x false now s) as [s1|s1]; simpl in H; [|done].
  destruct (isRecording s1); [|done].
  eapply touchRel_trans; [exact H|apply touchRel_recordControlChangeThrottled].
Qed.

Lemma touchRel_updateOpacity slot x now stampNow s :
  touchRel s (updateOpacity slot x now stampNow s).
Proof.
  unfold updateOpacity. pose proof (touchRel_updateOpacityImmediate slot x false now s) as H.
  destruct (updateOpacityImmediate slot x false now s) as [s1|s1]; simpl in H; [|done].
  destruct (isRecording s1); [|done].
  eapply touchRel_trans; [exact H|apply touchRel_recordControlChangeThrottled].
Qed.

Lemma touchRel_setKeyframe slot idx t now s : touchRel s (setKeyframe slot idx t now s).
Proof.
  unfold setKeyframe. destruct (videoAt s slot); [|apply touchRel_refl].
  destruct (previewPlayers s !! slot); [|apply touchRel_refl].
  destruct (locked v); [apply touchRel_refl|].
  set (s1 := if isPlaybackMode s then _ else s).
  assert (touchRel s s1) as H1
    by (apply touchRel_if; [apply touchRel_hijackControl|apply touchRel_refl]).
  destruct t as [t|]; [|done].
  eapply touchRel_trans; [exact H1|]. cbv zeta.
  set (s2 := setVideo slot _ s1).
  apply (touchRel_trans _ s2); [by apply touchRel_simple|].
  apply touchRel_if; [apply touchRel_recordTimestampChange|apply touchRel_refl].
Qed.

Lemma touchRel_jumpToKeyframe slot idx now s : touchRel s (jumpToKeyframe slot idx now s).
Proof.
  unfold jumpToKeyframe. destruct (videoAt s slot); [|apply touchRel_refl].
  destruct (keyframes v !! idx) as [[t|]|]; try apply touchRel_refl.
  destruct (locked v); [apply touchRel_refl|].
  set (s1 := if isPlaybackMode s && isRecording s then _ else s).
  assert (touchRel s s1) as H1
    by (apply touchRel_if; [apply touchRel_hijackControl|apply touchRel_refl]).
  destruct (previewPlayers s1 !! slot); [|done].
  destruct (isSyncLocked s1 slot); [done|].
  eapply touchRel_trans; [exact H1|]. cbv zeta.
  set (s2 := set_syncLocks _ s1).
  apply (touchRel_trans _ s2); [by apply touchRel_simple|].
  apply touchRel_if; [|apply touchRel_refl].
  apply touchRel_if; [apply touchRel_recordTimestampChange|apply touchRel_refl].
Qed.

Lemma touchRel_deleteKeyframe slot idx now s : touchRel s (deleteKeyframe slot idx now s).
Proof.
  unfold deleteKeyframe. destruct (videoAt s slot); [|apply touchRel_refl].
  destruct (locked v); [apply touchRel_refl|].
  set (s1 := if isPlaybackMode s then _ else s).
  assert (touchRel s s1) as H1
    by (apply touchRel_if; [apply touchRel_hijackControl|apply touchRel_refl]).
  eapply touchRel_trans; [exact H1|]. cbv zeta.
  set (s2 := setVideo slot _ s1).
  apply (touchRel_trans _ s2); [by apply touchRel_simple|].
  apply touchRel_if; [apply touchRel_recordTimestampChange|apply touchRel_refl].
Qed.

Lemma touchRel_debounced slot ct now s (v : option Video) :
  touchRel s match v with
             | Some video =>
                 if negb (locked video) && isPlaybackMode s then hijackControl slot ct now s else s
             | None => s
             end.
Proof.
  destruct v; [|apply touchRel_refl].
  apply touchRel_if; [apply touchRel_hijackControl|apply touchRel_refl].
Qed.

(** Every control touch keeps the mode and the number of sessions, and
    outside playback mode hijacks and truncates nothing. *)
Lemma touchRel_handle e s : isControlTouch e = true → touchRel s (handle e s).
Proof.
  destruct e; try discriminate; intros _; simpl.
  - apply touchRel_updateVolume.
  - apply touchRel_debounced.
  - apply touchRel_updateOpacity.
  - apply touchRel_debounced.
  - apply touchRel_setKeyframe.
  - apply touchRel_jumpToKeyframe.
  - apply touchRel_deleteKeyframe.
Qed.

Lemma touchRel_needsSession s s' :
  touchRel s s' → playbackNeedsSession s → playbackNeedsSession s'.
Proof.
  intros (Hm & Hl & _) Hinv Hp. rewrite Hm in Hp. specialize (Hinv Hp).
  destruct (recordingSessions s'); [|done]. by destruct (recordingSessions s).
Qed.

Lemma touchRel_applyVolumeSmooth slot x s : touchRel s (applyVolumeSmooth slot x s).
Proof. unfold applyVolumeSmooth, setVolume. touch_simple. Qed.

Lemma touchRel_playbackVolumeData slot data t s : touchRel s (playbackVolumeData slot data t s).
Proof.
  unfold playbackVolumeData. destruct (interpolatedVolume data t); [|apply touchRel_refl].
  destruct (volSlider s !! slot) as [sl|]; [|apply touchRel_refl].
  destruct (classHijacked sl); [apply touchRel_refl|].
  eapply touchRel_trans; [|apply touchRel_applyVolumeSmooth]. by apply touchRel_simple.
Qed.

Lemma touchRel_playbackOpacityData slot data t s : touchRel s (playbackOpacityData slot data t s).
Proof. unfold playbackOpacityData. touch_simple. Qed.

(** A relation between states that every step of a loop keeps, and
    that is reflexive and transitive, holds between the start of the
    loop and the state it ends in, whether it ends by a throw or not. *)
Lemma outcome_foldl_rel {A} (R : State → State → Prop) (f : A → State → Outcome)
    (l : list A) (s : State) :
  (∀ a, R a a) → (∀ a b c, R a b → R b c → R a c) →
  (∀ x acc, R acc (outcomeState (f x acc))) →
  R s (outcomeState (foldl (λ o x, andThen o (f x)) (Done s) l)).
Proof.
  intros Hrefl Htrans Hf.
  assert (∀ o, R s (outcomeState o) →
               R s (outcomeState (foldl (λ o x, andThen o (f x)) o l))) as H.
  { induction l as [|x l IH]; intros o Ho; simpl; [done|].
    apply IH. destruct o as [acc|acc]; simpl in *; [|done].
    eapply Htrans; [exact Ho|apply Hf]. }
  apply H. apply Hrefl.
Qed.

Lemma touchRel_playbackTimestampData slot data t s :
  touchRel s (outcomeState (playbackTimestampData slot data t s)).
Proof. unfold playbackTimestampData. touch_simple. Qed.

Lemma touchRel_playbackSlot x t s slot : touchRel s (outcomeState (playbackSlot x t s slot)).
Proof.
  unfold playbackSlot.
  destruct (controlData x !! slot) as [sd|]; [|apply touchRel_refl]. cbv zeta.
  set (s1 := if _ && _ then playbackVolumeData _ _ _ s else s).
  assert (touchRel s s1) as H1
    by (apply touchRel_if; [apply touchRel_playbackVolumeData|apply touchRel_refl]).
  set (s2 := if _ && _ then playbackOpacityData _ _ _ s1 else s1).
  assert (touchRel s1 s2) as H2
    by (apply touchRel_if; [apply touchRel_playbackOpacityData|apply touchRel_refl]).
  eapply touchRel_trans; [exact H1|]. eapply touchRel_trans; [exact H2|].
  destruct (bool_decide (is_Some (videoAt s2 slot)) && _);
    [apply touchRel_playbackTimestampData|apply touchRel_refl].
Qed.

Lemma touchRel_playbackSessionData x t s :
  touchRel s (outcomeState (playbackSessionData x t s)).
Proof.
  unfold playbackSessionData.
  apply (outcome_foldl_rel touchRel (λ slot acc, playbackSlot x t acc slot));
    [apply touchRel_refl|apply touchRel_trans|].
  intros slot acc. apply touchRel_playbackSlot.
Qed.

Lemma touchRel_playbackAllSessions ss t s :
  touchRel s (outcomeState (playbackAllSessions ss t s)).
Proof.
  unfold playbackAllSessions.
  apply (outcome_foldl_rel touchRel (λ x acc, playbackSessionData x t acc));
    [apply touchRel_refl|apply touchRel_trans|].
  intros x acc. apply touchRel_playbackSessionData.
Qed.

Lemma touchRel_playbackTick now s : touchRel s (playbackTick now s).
Proof.
  unfold playbackTick. destruct (playbackInterval s) as [start|]; [|apply touchRel_refl].
  cbv zeta. pose proof (touchRel_playbackAllSessions (recordingSessions s) (now - start) s) as H1.
  destruct (playbackAllSessions _ _ s) as [s1|s1]; simpl in H1; [|done].
  apply touchRel_if; [|done]. eapply touchRel_trans; [exact H1|]. by apply touchRel_simple.
Qed.

Lemma touchRel_loadVideoInSlot slot u vid s : touchRel s (loadVideoInSlot slot u vid s).
Proof. by apply touchRel_simple. Qed.

Lemma touchRel_actuallyRemoveVideo slot s : touchRel s (actuallyRemoveVideo slot s).
Proof. unfold actuallyRemoveVideo. touch_simple. Qed.

Lemma onLoadedSliders_frame (f : Slider → Slider) (s : State) :
  isPlaybackMode (onLoadedSliders f s) = isPlaybackMode s ∧
  recordingSessions (onLoadedSliders f s) = recordingSessions s ∧
  hijackedControls (onLoadedSliders f s) = hijackedControls s.
Proof.
  unfold onLoadedSliders.
  rewrite (forEachVideo_preserves isPlaybackMode) by done.
  rewrite (forEachVideo_preserves recordingSessions) by done.
  by rewrite (forEachVideo_preserves hijackedControls) by done.
Qed.

(** Starting a session turns playback mode on only over a finalized
    session, and changes neither the sessions nor the hijack set. *)
Lemma toggleRecording_frame now s :
  let s' := (toggleRecording now s).1 in
  recordingSessions s' = recordingSessions s ∧
  hijackedControls s' = hijackedControls s ∧
  (isPlaybackMode s' = isPlaybackMode s ∨
   (isPlaybackMode s' = true ∧ recordingSessions s ≠ [])).
Proof.
  cbv zeta. unfold toggleRecording.
  destruct (isRecording s || isCountdown s); [by repeat split; try left|].
  unfold startRecordingSession.
  destruct (negb (existsb isSomeb (videos s))); [by repeat split; try left|].
  destruct (videosWithoutKeyframes (videos s)); [|by repeat split; try left].
  simpl. unfold startPlaybackMode. simpl.
  destruct (recordingSessions s) as [|x l] eqn:E; simpl.
  - rewrite E. by repeat split; try left.
  - rewrite E. repeat split; try done. by right.
Qed.

Lemma startActualRecording_frame now s :
  isPlaybackMode (outcomeState (startActualRecording now s)) = isPlaybackMode s ∧
  recordingSessions (outcomeState (startActualRecording now s)) = recordingSessions s.
Proof.
  destruct (startActualRecording now s) as [s'|s'] eqn:E; simpl.
  - apply startActualRecording_Done in E. naive_solver.
  - apply startActualRecording_Thrown in E. naive_solver.
Qed.

Lemma stopRecording_isPlaybackMode now s : isPlaybackMode (stopRecording now s) = false.
Proof.
  unfold stopRecording. cbv zeta. by rewrite (proj1 (onLoadedSliders_frame _ _)).
Qed.

Lemma loadAndPlayArtPiece_isPlaybackMode vs ss s :
  isPlaybackMode (loadAndPlayArtPiece vs ss s) = false.
Proof.
  unfold loadAndPlayArtPiece. cbv zeta.
  change (isPlaybackMode (set_recordingSessions ss ?x)) with (isPlaybackMode x).
  assert (∀ i0 s0, isPlaybackMode s0 = false →
            isPlaybackMode
              (forEachFrom i0
                 (λ (videoData : string * string) index acc,
                    if decide (index < 6)%nat
                    then loadVideoInSlot index videoData.1 videoData.2 acc else acc)
                 vs s0) = false) as H.
  { induction vs as [|v vs IH]; intros i0 s0 Hs0; simpl; [done|].
    apply IH. by destruct (decide (i0 < 6)%nat). }
  by apply H.
Qed.

Lemma playbackNeedsSession_handle e s :
  playbackNeedsSession s → playbackNeedsSession (handle e s).
Proof.
  intros Hinv.
  destruct (isControlTouch e) eqn:Ht.
  { eapply touchRel_needsSession; [by apply touchRel_handle|done]. }
  destruct e; try discriminate Ht; simpl.
  - destruct (toggleRecording_frame now s) as (Hs & _ & [Hm|[_ Hne]]); intros Hp.
    + rewrite Hs. apply Hinv. by rewrite <- Hm.
    + by rewrite Hs.
  - destruct (isCountdown s); [|done].
    destruct (startActualRecording_frame now s) as [Hm Hs]. intros Hp.
    rewrite Hs. apply Hinv. by rewrite <- Hm.
  - destruct (isRecording s); [|done]. intros Hp.
    by rewrite stopRecording_isPlaybackMode in Hp.
  - eapply touchRel_needsSession; [apply touchRel_playbackTick|done].
  - eapply touchRel_needsSession; [apply touchRel_loadVideoInSlot|done].
  - eapply touchRel_needsSession; [apply touchRel_actuallyRemoveVideo|done].
  - intros Hp. change (false = true) in Hp. discriminate Hp.
  - intros Hp. by rewrite loadAndPlayArtPiece_isPlaybackMode in Hp.
Qed.

Lemma reachable_playbackNeedsSession s : reachable s → playbackNeedsSession s.
Proof.
  induction 1 as [|s s' _ IH Hstep]; [done|].
  destruct Hstep as [e s|s s' Hs Hm].
  - by apply playbackNeedsSession_handle.
  - intros Hp. rewrite Hs. apply IH. by rewrite <- Hm.
Qed.

(** C10 (first-session safety).  In every state the page can reach,
    playback mode is on only while a finalized session exists:
    [startPlaybackMode] does nothing without one, and [hijackControl]
    does nothing outside playback mode.  Hence while no finalized
    session exists no control touch adds a control to the hijack set or
    changes (truncates) any session log; more generally a control touch
    outside playback mode leaves the hijack set and the sessions as they
    were, so truncation happens only in overdub playback mode. *)
Theorem first_session_safety :
  (∀ s, reachable s → isPlaybackMode s = true → recordingSessions s ≠ []) ∧
  (∀ s now, recordingSessions s = [] → startPlaybackMode now s = s) ∧
  (∀ s slot ct now, isPlaybackMode s = false → hijackControl slot ct now s = s) ∧
  (∀ s slot ct now, reachable s → recordingSessions s = [] →
     hijackControl slot ct now s = s) ∧
  (∀ s e, reachable s → recordingSessions s = [] → isControlTouch e = true →
     hijackedControls (handle e s) = hijackedControls s ∧
     recordingSessions (handle e s) = []) ∧
  (∀ s e, isControlTouch e = true → isPlaybackMode s = false →
     hijackedControls (handle e s) = hijackedControls s ∧
     recordingSessions (handle e s) = recordingSessions s).
Proof.
  assert (∀ s, reachable s → recordingSessions s = [] → isPlaybackMode s = false) as Hoff.
  { intros s Hr He. destruct (isPlaybackMode s) eqn:Hp; [|done].
    by destruct (reachable_playbackNeedsSession s Hr Hp). }
  split; [exact reachable_playbackNeedsSession|].
  split; [intros s now He; unfold startPlaybackMode; by rewrite He|].
  split; [intros s slot ct now; apply hijackControl_not_playback|].
  split; [intros s slot ct now Hr He; apply hijackControl_not_playback; by apply Hoff|].
  split.
  - intros s e Hr He Ht. destruct (touchRel_handle e s Ht) as (_ & _ & Hq).
    destruct (Hq (Hoff s Hr He)) as [Hh Hs]. split; [done|]. by rewrite Hs.
  - intros s e Ht Hp. destruct (touchRel_handle e s Ht) as (_ & _ & Hq). by apply Hq.
Qed.

(** Before any session exists, the debounced volume touch on a freshly
    loaded video hijacks and truncates nothing. *)
Lemma first_session_safety_witness :
  hijackedControls
    (handle (EvVolumeDebounced 0 2000) (handle (EvLoadVideo 0 "https://youtu.be/a" "a") initialState))
  = hijackedControls (handle (EvLoadVideo 0 "https://youtu.be/a" "a") initialState) ∧
  recordingSessions
    (handle (EvVolumeDebounced 0 2000) (handle (EvLoadVideo 0 "https://youtu.be/a" "a") initialState))
  = [].
Proof.
  apply (proj1 (proj2 (proj2 (proj2 (proj2 first_session_safety))))).
  - apply (reachable_step initialState); [apply reachable_init|apply step_event].
  - reflexivity.
  - reflexivity.
Defined.

(** ** Replay after export and import *)

Lemma elem_of_sampleInstants (k : nat) : (k ≤ 600)%nat → 100 * Z.of_nat k ∈ sampleInstants.
Proof.
  intros Hk. unfold sampleInstants. apply list_elem_of_fmap. exists k. split; [done|].
  apply elem_of_seq. lia.
Qed.

(** C5, as stated, fails: the overdub replayer and the replayer of the
    playback page do not compute the same values from the same session
    data.  On the piece above, at the sampled instant 200 ms, the first
    interpolates the volume to 65 and the second holds 50. *)
Lemma replay_equivalence_counterexample :
  ¬ (∀ (piece : Composition) (t : Z),
       t ∈ sampleInstants → replayTargets (sessions piece) t = Playback.replayTargets piece t).
Proof.
  intros H. specialize (H examplePiece 200 (elem_of_sampleInstants 2 ltac:(lia))).
  vm_compute in H. discriminate H.
Qed.

(** The same difference on the pages themselves: after the tick at
    200 ms the volume slider of the overdub page shows 65 and the one of
    the playback page shows 50. *)
Example replayers_differ_on_sliders :
  sliderValue <$> volSlider (playbackTick (6000 + 200) exampleReplayState) !! 0%nat = Some 65 ∧
  Playback.volumeSlider
    (Playback.outcomeState
       (Playback.applyRecordedDataAtTime (λ _, 7200) (Some examplePiece) 200 examplePageSliders))
    !! 0%nat
  = Some 50.
Proof. by vm_compute. Qed.

Lemma Playback_replayRun_sessions (clock : nat → Z) (p p' : Composition)
    (steps : list Playback.ReplayStep) (s : Playback.PageState) :
  sessions p' = sessions p →
  Playback.replayRun clock p' steps s = Playback.replayRun clock p steps s.
Proof.
  intros Hs. revert s. induction steps as [|step steps IH]; intros s; simpl; [done|].
  assert (Playback.replayStep clock p' s step = Playback.replayStep clock p s step) as ->
    by (destruct step; simpl; by rewrite ?Hs).
  by rewrite IH.
Qed.

(** *** Slot numbers as property names *)

Lemma digitValue_pretty_N_char (d : N) :
  (d < 10)%N → digitValue (pretty_N_char d) = Some (Z.of_N d).
Proof.
  intros Hd.
  assert (d = 0 ∨ d = 1 ∨ d = 2 ∨ d = 3 ∨ d = 4 ∨ d = 5 ∨ d = 6 ∨ d = 7 ∨ d = 8 ∨ d = 9)%N
    as H by lia.
  by repeat destruct H as [->|H]; [..|subst d].
Qed.

Lemma parseInt_go_pretty_N_go (x : N) (str : string) (acc : option Z) :
  default 0 acc = 0 → (0 < x)%N →
  parseInt_go (pretty_N_go x str) acc = parseInt_go str (Some (Z.of_N x)).
Proof.
  intros Hacc. revert str. induction (N.lt_wf_0 x) as [x _ IH]; intros str Hx.
  rewrite pretty_N_go_step by done.
  destruct (N.eq_0_gt_0_cases (x `div` 10)) as [E|Hpos].
  - rewrite E, pretty_N_go_0. simpl.
    rewrite digitValue_pretty_N_char by (apply N.mod_lt; lia).
    rewrite Hacc. do 2 f_equal.
    assert (x < 10)%N as Hlt by (by apply N.div_small_iff).
    rewrite N.mod_small by done. lia.
  - rewrite IH; [|apply N.div_lt; lia|done]. simpl.
    rewrite digitValue_pretty_N_char by (apply N.mod_lt; lia). simpl. do 2 f_equal.
    pose proof (N.div_mod x 10 ltac:(done)) as H.
    apply (f_equal Z.of_N) in H. rewrite N2Z.inj_add, N2Z.inj_mul in H. lia.
Qed.

Lemma parseInt_pretty (n : nat) : parseInt (pretty n) = Some (Z.of_nat n).
Proof.
  unfold pretty, pretty_nat, pretty, pretty_N, parseInt.
  destruct (decide (N.of_nat n = 0%N)) as [E|E].
  - assert (n = 0%nat) as -> by lia. done.
  - rewrite parseInt_go_pretty_N_go by (done || lia). simpl. f_equal. lia.
Qed.

(** *** What JSON does to the engine's objects: nothing *)

Lemma JSON_array (f : JSValue → JSValue) (l : list JSValue) :
  Forall (λ x, x ≠ JSUndefined ∧ JSON_parse_stringify x = x) l →
  JSON_parse_stringify (JSArray l) = JSArray l.
Proof.
  intros H. simpl. f_equal. induction H as [|x l [Hx Hx'] _ IH]; simpl; [done|].
  rewrite IH. f_equal. destruct x; done.
Qed.

Lemma JSON_object (props : list (string * JSValue)) :
  Forall (λ kv, kv.2 ≠ JSUndefined ∧ JSON_parse_stringify kv.2 = kv.2) props →
  JSON_parse_stringify (JSObject props) = JSObject props.
Proof.
  intros H. simpl. f_equal. induction H as [|[k x] l [Hx Hx'] _ IH]; simpl in *; [done|].
  rewrite IH. destruct x; simpl in *; try done; by rewrite ?Hx'.
Qed.

Ltac json_fields :=
  repeat (apply Forall_cons; split); try apply Forall_nil; simpl; try done.

Lemma JSON_jsTime t : jsTime t ≠ JSUndefined ∧ JSON_parse_stringify (jsTime t) = jsTime t.
Proof. by destruct t. Qed.

Lemma JSON_fmap {A} (f : A → JSValue) (l : list A) :
  (∀ x, f x ≠ JSUndefined ∧ JSON_parse_stringify (f x) = f x) →
  JSON_parse_stringify (JSArray (f <$> l)) = JSArray (f <$> l).
Proof.
  intros H. apply (JSON_array id). apply Forall_fmap, Forall_forall. intros x _. apply H.
Qed.

Lemma JSON_jsPoint p : jsPoint p ≠ JSUndefined ∧ JSON_parse_stringify (jsPoint p) = jsPoint p.
Proof. done. Qed.

Lemma JSON_jsKeyframeEvent e :
  jsKeyframeEvent e ≠ JSUndefined ∧ JSON_parse_stringify (jsKeyframeEvent e) = jsKeyframeEvent e.
Proof.
  split; [done|]. apply JSON_object. json_fields. apply JSON_jsTime.
Qed.

Lemma JSON_jsSlotData sd :
  jsSlotData sd ≠ JSUndefined ∧ JSON_parse_stringify (jsSlotData sd) = jsSlotData sd.
Proof.
  split; [done|]. apply JSON_object. json_fields.
  - split; [done|]. apply JSON_fmap, JSON_jsPoint.
  - split; [done|]. apply JSON_fmap, JSON_jsPoint.
  - split; [done|]. apply JSON_fmap, JSON_jsKeyframeEvent.
Qed.

Lemma JSON_jsControlData cd :
  jsControlData cd ≠ JSUndefined ∧ JSON_parse_stringify (jsControlData cd) = jsControlData cd.
Proof.
  split; [done|]. apply JSON_object. apply Forall_fmap, Forall_forall. intros slot _.
  apply JSON_jsSlotData.
Qed.

Lemma JSON_jsSession x :
  jsSession x ≠ JSUndefined ∧ JSON_parse_stringify (jsSession x) = jsSession x.
Proof.
  split; [done|]. apply JSON_object. json_fields. apply JSON_jsControlData.
Qed.

Lemma JSON_jsSavedVideo v :
  jsSavedVideo v ≠ JSUndefined ∧ JSON_parse_stringify (jsSavedVideo v) = jsSavedVideo v.
Proof.
  split; [done|]. apply JSON_object. json_fields. split; [done|]. apply JSON_fmap, JSON_jsTime.
Qed.

Lemma JSON_jsComposition c :
  jsComposition c ≠ JSUndefined ∧ JSON_parse_stringify (jsComposition c) = jsComposition c.
Proof.
  split; [done|]. apply JSON_object. unfold jsOptional.
  destruct (importedAt c), (originalName c), (compositionHash c); simpl; json_fields;
    try (by destruct (artId c));
    (split; [done|]); (apply JSON_fmap, JSON_jsSavedVideo || apply JSON_fmap, JSON_jsSession).
Qed.

Lemma JSON_jsExportData e :
  JSON_parse_stringify (Gallery.jsExportData e) = Gallery.jsExportData e.
Proof. apply JSON_object. json_fields. apply JSON_jsComposition. Qed.

(** *** Reading back what was written *)

Lemma integerOf_jsInteger z : integerOf (jsInteger z) = Some z.
Proof. done. Qed.

Lemma timeOf_jsTime t : timeOf (jsTime t) = Some t.
Proof. by destruct t. Qed.

Lemma pointOf_jsPoint p : pointOf (jsPoint p) = Some p.
Proof. by destruct p. Qed.

Lemma keyframeEventOf_jsKeyframeEvent e : keyframeEventOf (jsKeyframeEvent e) = Some e.
Proof.
  destruct e as [ts idx t a]. unfold keyframeEventOf, jsKeyframeEvent. simpl.
  rewrite timeOf_jsTime. simpl. destruct a; simpl; by rewrite Nat2Z.id.
Qed.

Lemma slotDataOf_jsSlotData sd : slotDataOf (jsSlotData sd) = Some sd.
Proof.
  destruct sd as [vol opc tss]. unfold slotDataOf, jsSlotData. simpl.
  rewrite !(mapM_fmap_Some _ _ _ pointOf_jsPoint). simpl.
  by rewrite (mapM_fmap_Some _ _ _ keyframeEventOf_jsKeyframeEvent).
Qed.

Lemma elem_of_Object_keys {A} (o : gmap nat A) (slot : nat) :
  slot ∈ Object_keys o ↔ is_Some (o !! slot).
Proof.
  unfold Object_keys. rewrite merge_sort_Permutation, list_elem_of_fmap. split.
  - intros ([k x] & -> & Hin). apply elem_of_map_to_list in Hin. by exists x.
  - intros [x Hx]. exists (slot, x). split; [done|]. by apply elem_of_map_to_list.
Qed.

Lemma NoDup_Object_keys {A} (o : gmap nat A) : NoDup (Object_keys o).
Proof. unfold Object_keys. rewrite merge_sort_Permutation. apply NoDup_fst_map_to_list. Qed.

Lemma list_to_map_Object_keys (cd : gmap nat SlotData) :
  list_to_map ((λ slot, (slot, default emptySlotData (cd !! slot))) <$> Object_keys cd)
  =@{gmap nat SlotData} cd.
Proof.
  set (g := λ slot : nat, (slot, default emptySlotData (cd !! slot))).
  assert ((g <$> Object_keys cd).*1 = Object_keys cd) as Hfst.
  { rewrite <- list_fmap_compose. apply list_fmap_id. }
  apply map_eq. intros i. destruct (cd !! i) as [x|] eqn:E.
  - apply elem_of_list_to_map_1.
    + rewrite Hfst. apply NoDup_Object_keys.
    + apply list_elem_of_fmap. exists i. split.
      * unfold g. by rewrite E.
      * apply elem_of_Object_keys. by exists x.
  - apply not_elem_of_list_to_map_1. rewrite Hfst, elem_of_Object_keys, E.
    by intros [? ?].
Qed.

Lemma controlDataOf_jsControlData cd : controlDataOf (jsControlData cd) = Some cd.
Proof.
  unfold controlDataOf, jsControlData.
  rewrite <- (list_to_map_Object_keys cd) at 2.
  set (g := λ slot : nat, (slot, default emptySlotData (cd !! slot))).
  assert (mapM (λ kv : string * JSValue,
                  slot ← parseInt kv.1; sd ← slotDataOf kv.2; Some (Z.to_nat slot, sd))
               ((λ slot, (pretty slot, jsSlotData (default emptySlotData (cd !! slot))))
                <$> Object_keys cd)
          = Some (g <$> Object_keys cd)) as ->; [|done].
  apply mapM_Some. apply Forall2_fmap. apply Forall_Forall2_diag, Forall_forall.
  intros slot _. simpl. rewrite parseInt_pretty. simpl. rewrite slotDataOf_jsSlotData. simpl.
  unfold g. by rewrite Nat2Z.id.
Qed.

Lemma sessionOf_jsSession x : sessionOf (jsSession x) = Some x.
Proof.
  destruct x as [n t0 d cd]. unfold sessionOf, jsSession.
  cbn -[controlDataOf jsControlData]. by rewrite controlDataOf_jsControlData.
Qed.

Lemma savedVideoOf_jsSavedVideo v : savedVideoOf (jsSavedVideo v) = Some v.
Proof.
  destruct v as [u vid ttl kfs]. unfold savedVideoOf, jsSavedVideo. simpl.
  by rewrite (mapM_fmap_Some _ _ _ timeOf_jsTime).
Qed.

Lemma idOf_jsId i : idOf (jsId i) = Some i.
Proof. by destruct i. Qed.

Lemma compositionOf_jsComposition c : compositionOf (jsComposition c) = Some c.
Proof.
  destruct c as [i nm created vs ss d thumb imported original hash].
  unfold compositionOf, jsComposition. simpl.
  rewrite idOf_jsId. simpl.
  rewrite (mapM_fmap_Some _ _ _ savedVideoOf_jsSavedVideo). simpl.
  rewrite (mapM_fmap_Some _ _ _ sessionOf_jsSession). simpl.
  by destruct imported, original, hash.
Qed.

(** A [.splice] file read back gives the importer the exported data. *)
Lemma readBack_exportData e : Gallery.readBack e = Gallery.ImportWithMetadata e.
Proof.
  unfold Gallery.readBack. rewrite JSON_jsExportData.
  destruct e as [ver date by_ piece].
  unfold Gallery.importDataOf, Gallery.exportDataOf, Gallery.jsExportData.
  cbn -[compositionOf jsComposition]. by rewrite compositionOf_jsComposition.
Qed.

Lemma playCut_piece cut : Gallery.playCut cut = Some cut.
Proof.
  unfold Gallery.playCut. rewrite (proj2 (JSON_jsComposition cut)).
  apply compositionOf_jsComposition.
Qed.

Section RoundTrip.

Context (looseEq : Id → string → bool) (hashString : Composition → list Z).

Lemma exportCut_artPiece savedCuts cutId isoNow e :
  Gallery.exportCut looseEq savedCuts cutId isoNow = Some e →
  Gallery.artPiece e ∈ savedCuts.
Proof.
  unfold Gallery.exportCut.
  destruct (List.find _ savedCuts) as [cut|] eqn:E; [|done].
  intros [= <-]. simpl. apply find_some in E as [Hin _]. by apply list_elem_of_In.
Qed.

Lemma processImportedData_sessions e env gallery gallery' piece' :
  Gallery.processImportedData hashString (Gallery.readBack e) env gallery
    = Gallery.Imported gallery' piece' →
  sessions piece' = sessions (Gallery.artPiece e) ∧
  artVideos piece' = artVideos (Gallery.artPiece e) ∧
  artDuration piece' = artDuration (Gallery.artPiece e) ∧
  gallery' = gallery ++ [piece'].
Proof.
  rewrite readBack_exportData. unfold Gallery.processImportedData.
  destruct (_ || _); [done|].
  destruct (List.find _ gallery); [done|].
  by intros [= <- <-].
Qed.

Lemma processImportedData_succeeds e env gallery :
  Gallery.idFalsy (artId (Gallery.artPiece e)) = false →
  artName (Gallery.artPiece e) ≠ EmptyString →
  (∀ cut, cut ∈ gallery →
     compositionHash cut
     ≠ Some (Gallery.generateCompositionHash hashString (Gallery.artPiece e))) →
  ∃ piece', Gallery.processImportedData hashString (Gallery.readBack e) env gallery
            = Gallery.Imported (gallery ++ [piece']) piece'.
Proof.
  intros Hid Hname Hfresh. rewrite readBack_exportData. unfold Gallery.processImportedData.
  rewrite Hid. rewrite bool_decide_eq_false_2 by done. simpl.
  destruct (List.find _ gallery) as [cut|] eqn:E; [|by eexists].
  apply find_some in E as [Hin Hh]. apply bool_decide_eq_true in Hh.
  apply list_elem_of_In in Hin. by destruct (Hfresh cut Hin).
Qed.

End RoundTrip.

(** C5 (replay after a round trip), amended.  The object that
    [exportCut] writes comes back from [JSON.stringify] and [JSON.parse]
    as it was, so importing the file yields a composition with the same
    sessions, videos and duration as the exported one, and [playCut]
    hands that composition unchanged to the playback page.  Hence each
    replayer, run on the imported composition, produces at every sampled
    instant (every 100 ms over the 60 s) the same volume, opacity and
    keyframe jump for every session and slot as the same replayer on the
    original; and the whole run gives the same page states: on the
    playback page for any instants at which the data is applied (the
    sampled ones among them), seek timers firing in between and any clock
    readings, on the overdub page over the sampled instants, from any
    starting state.  The import succeeds
    whenever the piece has an id and a name and no stored cut carries its
    hash.  That the two replayers compute the same values from the same
    session data is not part of the amended claim: they do not. *)
Theorem replay_round_trip (looseEq : Id → string → bool) (hashString : Composition → list Z)
    (savedCuts : list Composition) (cutId isoNow : string) (e : Gallery.ExportData)
    (env : Gallery.ImportEnv) (gallery gallery' : list Composition) (piece' : Composition) :
  Gallery.exportCut looseEq savedCuts cutId isoNow = Some e →
  Gallery.processImportedData hashString (Gallery.readBack e) env gallery
    = Gallery.Imported gallery' piece' →
  let original := Gallery.artPiece e in
  original ∈ savedCuts ∧
  Gallery.readBack e = Gallery.ImportWithMetadata e ∧
  sessions piece' = sessions original ∧
  artVideos piece' = artVideos original ∧
  artDuration piece' = artDuration original ∧
  Gallery.playCut piece' = Some piece' ∧
  (∀ t, t ∈ sampleInstants →
     Playback.replayTargets piece' t = Playback.replayTargets original t ∧
     Playback.jumpTargets piece' t = Playback.jumpTargets original t ∧
     replayTargets (sessions piece') t = replayTargets (sessions original) t ∧
     jumpTargets (sessions piece') t = jumpTargets (sessions original) t) ∧
  (∀ clock steps ps, Playback.replayRun clock piece' steps ps
                     = Playback.replayRun clock original steps ps) ∧
  (∀ s, replayRun (sessions piece') sampleInstants s
        = replayRun (sessions original) sampleInstants s) ∧
  (Gallery.idFalsy (artId original) = false → artName original ≠ EmptyString →
   (∀ cut, cut ∈ gallery →
      compositionHash cut ≠ Some (Gallery.generateCompositionHash hashString original)) →
   ∃ p, Gallery.processImportedData hashString (Gallery.readBack e) env gallery
        = Gallery.Imported (gallery ++ [p]) p).
Proof.
  intros Hexp Himp. cbv zeta.
  destruct (processImportedData_sessions hashString e env gallery gallery' piece' Himp)
    as (Hs & Hv & Hd & _).
  split; [by eapply exportCut_artPiece|].
  split; [apply readBack_exportData|].
  split; [done|]. split; [done|]. split; [done|].
  split; [apply playCut_piece|].
  split.
  { intros t _. unfold Playback.replayTargets, Playback.jumpTargets. by rewrite Hs. }
  split; [intros clock steps ps; by apply Playback_replayRun_sessions|].
  split; [intros s; by rewrite Hs|].
  apply processImportedData_succeeds.
Qed.

(** The playback page replays the imported second cut, jump included, as
    it replays the saved one: here at the sampled instants with the seek
    timer firing after the jump, the clock advancing by 100 ms from one
    reading to the next. *)
Lemma replay_round_trip_witness :
  Playback.replayRun (λ n, 7000 + 100 * Z.of_nat n) exampleJumpImported
    ((Playback.ApplyAt <$> take 5 sampleInstants) ++ [Playback.SeekTimerFires 0]
     ++ (Playback.ApplyAt <$> drop 5 sampleInstants)) examplePage
  = Playback.replayRun (λ n, 7000 + 100 * Z.of_nat n) exampleJumpPiece
      ((Playback.ApplyAt <$> take 5 sampleInstants) ++ [Playback.SeekTimerFires 0]
       ++ (Playback.ApplyAt <$> drop 5 sampleInstants)) examplePage.
Proof.
  refine (proj1 (proj2 (proj2 (proj2 (proj2 (proj2 (proj2 (proj2
    (replay_round_trip (λ _ _, true) (λ _, []) [exampleJumpPiece] "1700000000500"
           "2024-01-02T00:00:00.000Z"
           (Gallery.mkExportData "1.0" "2024-01-02T00:00:00.000Z" "Splice" exampleJumpPiece)
           exampleImportEnv [] [exampleJumpImported] exampleJumpImported _ _))))))))
    (λ n, 7000 + 100 * Z.of_nat n)
    ((Playback.ApplyAt <$> take 5 sampleInstants) ++ [Playback.SeekTimerFires 0]
     ++ (Playback.ApplyAt <$> drop 5 sampleInstants)) examplePage).
  - reflexivity.
  - vm_compute. reflexivity.
Defined.

(** In that run the jump comes up at the instants 200, 300 and 400 and
    is taken once, the debounce reading the clock at the other two; the
    slot is marked as seeking until the timer fires, and the volume
    stays where it was meanwhile. *)
Example replay_jump_run :
  (λ s, (Playback.seekingSlots s, Playback.lastSeekTime s, Playback.clockReads s,
         Playback.currentPlaybackVolumes s !! 0%nat))
  <$> Playback.replayRun (λ n, 7000 + 100 * Z.of_nat n) exampleJumpPiece
        ((Playback.ApplyAt <$> take 5 sampleInstants) ++ [Playback.SeekTimerFires 0]
         ++ (Playback.ApplyAt <$> take 1 (drop 5 sampleInstants))) examplePage
  = [([], [], 0%nat, Some 50);
     ([], [], 0%nat, Some 50);
     ([0%nat], [(0%nat, 5%Q, 7000)], 1%nat, Some 50);
     ([0%nat], [(0%nat, 5%Q, 7000)], 2%nat, Some 50);
     ([0%nat], [(0%nat, 5%Q, 7000)], 3%nat, Some 50);
     ([], [(0%nat, 5%Q, 7000)], 3%nat, Some 50);
     ([], [(0%nat, 5%Q, 7000)], 3%nat, Some 53)].
Proof. vm_compute. reflexivity. Qed.


(** * Further properties of the engine *)

(** ** Hijack coordinator: the set and the truncation *)

Lemma hijackKey_recordingSessions t s key :
  recordingSessions (hijackKey t s key)
  = if Set_has key (hijackedControls s) then recordingSessions s
    else deleteFutureRecordingData key.1 key.2 t (recordingSessions s).
Proof.
  unfold hijackKey. destruct (Set_has key (hijackedControls s)); [done|].
  by destruct key as [sl []].
Qed.

Lemma if_decide_iff {A} (P Q : Prop) `{Decision P, Decision Q} (x y : A) :
  (P ↔ Q) → (if decide P then x else y) = (if decide Q then x else y).
Proof. intros HPQ. destruct (decide P), (decide Q); tauto. Qed.

(** The logs after a run of the hijack loop: a key is cut at [t] exactly
    when the loop adds it to the hijack set. *)
Lemma foldl_hijackKey_logs t l s (k : ControlKey) :
  (λ x, sessionLog x k.1 k.2) <$> recordingSessions (foldl (hijackKey t) s l)
  = (λ x, if decide (k ∈ l ∧ k ∉ hijackedControls s)
          then filter (λ p, sampleTimestamp p < t) (sessionLog x k.1 k.2)
          else sessionLog x k.1 k.2) <$> recordingSessions s.
Proof.
  revert s. induction l as [|key l IH]; intros s; simpl.
  - apply list_fmap_ext. by intros i x _.
  - rewrite IH. rewrite hijackKey_recordingSessions, hijackKey_hijackedControls.
    destruct (Set_has key (hijackedControls s)) eqn:E.
    + apply Set_has_true in E.
      apply list_fmap_ext. intros i x _. simpl. apply if_decide_iff.
      rewrite elem_of_Set_add, elem_of_cons. split.
      * intros [H1 H2]. split; [by right|]. tauto.
      * intros [[->|H1] H2]; [done|]. split; [done|]. by intros [->|?].
    + apply Set_has_false in E. unfold deleteFutureRecordingData.
      rewrite <- list_fmap_compose. apply list_fmap_ext. intros i x _. simpl. simpl.
      destruct (decide (k = key)) as [->|Hne].
      * rewrite sessionLog_truncate.
        destruct (decide (key ∈ l ∧ key ∉ Set_add key (hijackedControls s))) as [[_ H]|_].
        { exfalso. apply H, elem_of_Set_add. by left. }
        rewrite decide_True; [done|]. split; [apply elem_of_cons; by left|done].
      * rewrite sessionLog_truncate_other by (destruct k, key; simpl; congruence).
        apply if_decide_iff. rewrite elem_of_Set_add, elem_of_cons. tauto.
Qed.

(** X1.  Which controls a touch hijacks.  In playback mode, a touch of a
    control that is not yet hijacked leaves in the hijack set: the keys
    that were there, the touched key, the other control of the same slot
    when the slot ties its volume to its opacity, and, when the slot is
    cross-linked, the same control (and with the tie also the other
    control) of every other cross-linked slot that is not locked.
    Keyframe touches add the touched key only. *)
Theorem hijack_set_characterization (s : State) (src : nat) (ct : ControlType) (now : Z)
    (k : ControlKey) :
  isPlaybackMode s = true → (src, ct) ∉ hijackedControls s →
  k ∈ hijackedControls (hijackControl src ct now s)
  ↔ k ∈ hijackedControls s ∨ k = (src, ct) ∨
    ∃ sv, videoAt s src = Some sv ∧ ct ≠ Timestamps ∧
      ((volumeOpacityLinked sv = true ∧ k = (src, pairedControl ct)) ∨
       (linked sv = true ∧
        ∃ slot v, videoAt s slot = Some v ∧ slot ≠ src ∧ linked v = true ∧ locked v = false ∧
          (k = (slot, ct) ∨ (volumeOpacityLinked sv = true ∧ k = (slot, pairedControl ct))))).
Proof.
  intros Hp Hnot. unfold hijackControl. rewrite Hp.
  apply Set_has_false in Hnot. rewrite Hnot. simpl.
  rewrite elem_of_foldl_hijackKey.
  assert (isVolumeOrOpacity ct = true ↔ ct ≠ Timestamps) as Hvo by (by destruct ct).
  destruct (videoAt s src) as [sv|] eqn:Hsv; unfold videoAt in Hsv.
  - rewrite (elem_of_collectLinkedControlsToHijack _ _ _ _ sv) by done.
    rewrite list_elem_of_singleton. unfold videoAt. split.
    + intros [[->|[(Hv & Ht & ->)|(Hl & Ht & slot & v & Hs & Hne & Hlv & Hlk & Hk)]]|H].
      * by right; left.
      * right; right. exists sv. apply Hvo in Ht. naive_solver.
      * right; right. exists sv. split; [done|]. split; [done|]. right. split; [done|].
        exists slot, v. naive_solver.
      * by left.
    + intros [H|[->|(sv' & Hsv' & Ht & H)]].
      * by right.
      * by left; left.
      * assert (sv' = sv) as -> by congruence. apply Hvo in Ht. left. right.
        destruct H as [[Hv ->]|(Hl & slot & v & Hs & Hne & Hlv & Hlk & Hk)].
        -- by left.
        -- right. apply Hvo in Ht. split; [done|]. split; [done|].
           exists slot, v. naive_solver.
  - unfold collectLinkedControlsToHijack. rewrite Hsv, list_elem_of_singleton.
    split; [tauto|]. intros [?|[?|(sv & ? & _)]]; [tauto|tauto|done].
Qed.

Lemma hijack_set_characterization_witness :
  (1%nat, Opacity) ∈ hijackedControls (hijackControl 0 Volume 15000 exampleOverdub).
Proof.
  apply (hijack_set_characterization exampleOverdub 0 Volume 15000 (1%nat, Opacity)).
  - reflexivity.
  - apply (bool_decide_unpack _). by vm_compute.
  - right; right. exists exampleVideoTied. split; [reflexivity|]. split; [done|].
    right. split; [reflexivity|]. exists 1%nat, exampleVideoLinked.
    split; [reflexivity|]. split; [done|]. split; [reflexivity|]. split; [reflexivity|].
    right. by split.
Defined.

(** X2.  What a hijack deletes.  In every finalized session, the log of
    a key is cut at [now - recordingStartTime] exactly when the touch
    adds that key to the hijack set; the log of every other key, a key
    that was hijacked before included, is left as it was. *)
Theorem hijack_truncates_new_keys_only (s : State) (src : nat) (ct : ControlType) (now : Z)
    (k : ControlKey) :
  let s' := hijackControl src ct now s in
  (λ x, sessionLog x k.1 k.2) <$> recordingSessions s'
  = (λ x, if decide (k ∈ hijackedControls s' ∧ k ∉ hijackedControls s)
          then filter (λ p, sampleTimestamp p < now - recordingStartTime s)
                      (sessionLog x k.1 k.2)
          else sessionLog x k.1 k.2) <$> recordingSessions s.
Proof.
  simpl. unfold hijackControl.
  destruct (isPlaybackMode s && negb (Set_has (src, ct) (hijackedControls s))).
  - rewrite foldl_hijackKey_logs. apply list_fmap_ext. intros i x _. simpl.
    apply if_decide_iff. rewrite elem_of_foldl_hijackKey. tauto.
  - apply list_fmap_ext. intros i x _. simpl. rewrite decide_False; [done|]. tauto.
Qed.

(** ** Keyframe touches during an overdub *)

Lemma hijackControl_Timestamps slot now s :
  hijackControl slot Timestamps now s
  = if isPlaybackMode s && negb (Set_has (slot, Timestamps) (hijackedControls s))
    then hijackKey (now - recordingStartTime s) s (slot, Timestamps)
    else s.
Proof.
  unfold hijackControl, collectLinkedControlsToHijack.
  destruct (isPlaybackMode s && negb (Set_has (slot, Timestamps) (hijackedControls s))); [|done].
  destruct (mjoin (videos s !! slot)) as [sv|]; [|done].
  simpl. by rewrite !andb_false_r.
Qed.

Lemma keyframeHijackOnly_refl slot s : keyframeHijackOnly slot s s.
Proof. by repeat split. Qed.

Lemma keyframeHijackOnly_hijackControl slot now s :
  keyframeHijackOnly slot s (hijackControl slot Timestamps now s).
Proof.
  rewrite hijackControl_Timestamps.
  destruct (isPlaybackMode s && negb (Set_has (slot, Timestamps) (hijackedControls s)));
    [|apply keyframeHijackOnly_refl].
  split; [|split].
  - unfold hijackKey. by destruct (Set_has _ _).
  - unfold hijackKey. by destruct (Set_has _ _).
  - intros k Hk. split.
    + rewrite hijackKey_hijackedControls, elem_of_Set_add. tauto.
    + change (hijackKey (now - recordingStartTime s) s (slot, Timestamps))
        with (foldl (hijackKey (now - recordingStartTime s)) s [(slot, Timestamps)]).
      rewrite foldl_hijackKey_logs.
      apply list_fmap_ext. intros i x _. simpl. rewrite decide_False; [done|].
      rewrite list_elem_of_singleton. tauto.
Qed.

Lemma keyframeHijackOnly_view slot s s1 s2 :
  keyframeHijackOnly slot s s1 → overdubView s2 = overdubView s1 →
  keyframeHijackOnly slot s s2.
Proof.
  unfold overdubView, keyframeHijackOnly. intros H E. injection E as -> -> -> ->. done.
Qed.

Lemma overdubView_recordTimestampChange slot idx t a now s :
  overdubView (recordTimestampChange slot idx t a now s) = overdubView s.
Proof. unfold recordTimestampChange. by destruct (isRecording s). Qed.

(** X3.  Keyframe touches stay on the keyframes.  Setting, jumping to
    or deleting a keyframe of a slot, in any state, leaves both sliders
    of every slot as they are, hijacks no control but (at most) the
    keyframes of that slot, and deletes nothing from the log of any
    other key, however the slot is linked. *)
Theorem keyframe_touch_spares_sliders (e : Event) (slot : nat) (s : State) :
  keyframeEventSlot e = Some slot →
  volSlider (handle e s) = volSlider s ∧ opcSlider (handle e s) = opcSlider s ∧
  ∀ k : ControlKey, k ≠ (slot, Timestamps) →
    (k ∈ hijackedControls (handle e s) ↔ k ∈ hijackedControls s) ∧
    (λ x, sessionLog x k.1 k.2) <$> recordingSessions (handle e s)
    = (λ x, sessionLog x k.1 k.2) <$> recordingSessions s.
Proof.
  intros He. change (keyframeHijackOnly slot s (handle e s)).
  assert (∀ (b : bool) now, keyframeHijackOnly slot s
            (if b then hijackControl slot Timestamps now s else s)) as Hh.
  { intros [] now; [apply keyframeHijackOnly_hijackControl|apply keyframeHijackOnly_refl]. }
  destruct e; try discriminate He; injection He as ->; simpl.
  - unfold setKeyframe.
    destruct (videoAt s slot) as [video|]; [|apply keyframeHijackOnly_refl].
    destruct (previewPlayers s !! slot); [|apply keyframeHijackOnly_refl].
    destruct (locked video); [apply keyframeHijackOnly_refl|].
    destruct playerTime as [t|]; [|apply Hh].
    eapply keyframeHijackOnly_view; [apply (Hh (isPlaybackMode s) now)|].
    match goal with |- context [if ?b then recordTimestampChange _ _ _ _ _ ?x else _] =>
      destruct b; [rewrite overdubView_recordTimestampChange|] end; done.
  - unfold jumpToKeyframe.
    destruct (videoAt s slot) as [video|]; [|apply keyframeHijackOnly_refl].
    destruct (keyframes video !! idx) as [[targetTime|]|]; try apply keyframeHijackOnly_refl.
    destruct (locked video); [apply keyframeHijackOnly_refl|].
    set (s1 := if isPlaybackMode s && isRecording s
               then hijackControl slot Timestamps now s else s).
    assert (keyframeHijackOnly slot s s1) as H1 by apply Hh.
    destruct (previewPlayers s1 !! slot) as [p|]; [|done].
    destruct (isSyncLocked s1 slot); [done|].
    eapply keyframeHijackOnly_view; [exact H1|].
    destruct (playerReady p); [|done].
    match goal with |- context [if ?b then recordTimestampChange _ _ _ _ _ ?x else _] =>
      destruct b; [rewrite overdubView_recordTimestampChange|] end; done.
  - unfold deleteKeyframe.
    destruct (videoAt s slot) as [video|]; [|apply keyframeHijackOnly_refl].
    destruct (locked video); [apply keyframeHijackOnly_refl|].
    eapply keyframeHijackOnly_view; [apply (Hh (isPlaybackMode s) now)|].
    match goal with |- context [if ?b then recordTimestampChange _ _ _ _ _ ?x else _] =>
      destruct b; [rewrite overdubView_recordTimestampChange|] end; done.
Qed.

Lemma keyframe_touch_spares_sliders_witness :
  volSlider (handle (EvSetKeyframe 0 1 (Some 7%Q) 15000) exampleOverdub)
  = volSlider exampleOverdub.
Proof.
  apply (keyframe_touch_spares_sliders (EvSetKeyframe 0 1 (Some 7%Q) 15000) 0 exampleOverdub).
  reflexivity.
Defined.

(** ** The overdub replayer and the hijack set *)

Lemma timelineView_hijackedControls_eq s s' :
  timelineView s' = timelineView s → hijackedControls s' = hijackedControls s.
Proof. unfold timelineView. intros E. by injection E. Qed.

Lemma timelineView_applyVolumeSmooth slot x s :
  timelineView (applyVolumeSmooth slot x s) = timelineView s.
Proof. unfold applyVolumeSmooth. by repeat case_match. Qed.

Lemma timelineView_playbackVolumeData slot data t s :
  timelineView (playbackVolumeData slot data t s) = timelineView s.
Proof.
  unfold playbackVolumeData. repeat case_match; try done.
  by rewrite timelineView_applyVolumeSmooth.
Qed.

Lemma timelineView_playbackOpacityData slot data t s :
  timelineView (playbackOpacityData slot data t s) = timelineView s.
Proof. unfold playbackOpacityData. by repeat case_match. Qed.

Lemma timelineView_playbackTimestampData slot data t s :
  timelineView (outcomeState (playbackTimestampData slot data t s)) = timelineView s.
Proof. unfold playbackTimestampData. by repeat case_match. Qed.

Lemma timelineView_playbackSlot x t s slot :
  timelineView (outcomeState (playbackSlot x t s slot)) = timelineView s.
Proof.
  unfold playbackSlot. destruct (controlData x !! slot) as [sd|]; [|done].
  repeat match goal with
         | |- context [if ?b then _ else _] => destruct b
         end;
    cbn [outcomeState];
    by rewrite ?timelineView_playbackTimestampData, ?timelineView_playbackOpacityData,
               ?timelineView_playbackVolumeData.
Qed.

(** A run of the replayer over sessions, for a property of the state that
    each slot step keeps as long as the hijack set is the one of the
    start; it holds at the end of the run, thrown or not. *)
Lemma replay_invariant (P : State → Prop) ss t s :
  (∀ x acc slot', hijackedControls acc = hijackedControls s → P acc →
                  P (outcomeState (playbackSlot x t acc slot'))) →
  P s → P (outcomeState (playbackAllSessions ss t s)).
Proof.
  intros Hstep HP.
  set (R := λ a b : State,
         hijackedControls a = hijackedControls s ∧ P a →
         hijackedControls b = hijackedControls s ∧ P b).
  assert (∀ a, R a a) as Hrefl by (intros a Ha; exact Ha).
  assert (∀ a b c, R a b → R b c → R a c) as Htrans
    by (intros a b c Hab Hbc Ha; exact (Hbc (Hab Ha))).
  assert (R s (outcomeState (playbackAllSessions ss t s))) as H; [|by apply H].
  unfold playbackAllSessions.
  apply (outcome_foldl_rel R (λ x acc, playbackSessionData x t acc)); [done..|].
  intros x acc. unfold playbackSessionData.
  apply (outcome_foldl_rel R (λ slot acc, playbackSlot x t acc slot)); [done..|].
  clear acc. intros slot acc [Ha Hacc]. split; [|by apply Hstep].
  rewrite <- Ha. apply timelineView_hijackedControls_eq, timelineView_playbackSlot.
Qed.

Lemma timelineView_replay ss t s :
  timelineView (outcomeState (playbackAllSessions ss t s)) = timelineView s.
Proof.
  apply (replay_invariant (λ acc, timelineView acc = timelineView s)); [|done].
  intros x acc slot' _ <-. apply timelineView_playbackSlot.
Qed.

(** X4.  The replayer only writes sliders, players and layers.  A tick
    of the overdub replay leaves the videos, the finalized sessions, the
    session being recorded, the throttle clocks, the hijack set and the
    recording flags exactly as they were. *)
Theorem replay_leaves_timeline (now : Z) (s : State) :
  timelineView (playbackTick now s) = timelineView s.
Proof.
  unfold playbackTick. destruct (playbackInterval s) as [t0|]; [|done].
  pose proof (timelineView_replay (recordingSessions s) (now - t0) s) as H.
  destruct (playbackAllSessions _ _ s) as [s1|s1]; simpl in H; [|done].
  by destruct (bool_decide (60000 ≤ now - t0)).
Qed.

Lemma timelineView_hijackedControls s s' :
  timelineView s' = timelineView s → hijackedControls s' = hijackedControls s.
Proof. unfold timelineView. intros E. by injection E. Qed.

Lemma timelineView_videoAt s s' slot :
  timelineView s' = timelineView s → videoAt s' slot = videoAt s slot.
Proof. unfold timelineView, videoAt. intros E. injection E as -> _. done. Qed.

Lemma volumeView_playbackVolumeData slot' data t s slot :
  slot ≠ slot' → volumeView (playbackVolumeData slot' data t s) slot = volumeView s slot.
Proof.
  intros Hne. unfold playbackVolumeData, applyVolumeSmooth, volumeView.
  repeat case_match; simpl; by rewrite ?lookup_insert_ne by done.
Qed.

Lemma volumeView_playbackOpacityData slot' data t s slot :
  volumeView (playbackOpacityData slot' data t s) slot = volumeView s slot.
Proof. unfold playbackOpacityData, volumeView. by repeat case_match. Qed.

Lemma volumeView_playbackTimestampData slot' data t s slot :
  volumeView (outcomeState (playbackTimestampData slot' data t s)) slot = volumeView s slot.
Proof. unfold playbackTimestampData, volumeView. by repeat case_match. Qed.

Lemma opacityView_playbackVolumeData slot' data t s slot :
  opacityView (playbackVolumeData slot' data t s) slot = opacityView s slot.
Proof.
  unfold playbackVolumeData, applyVolumeSmooth, opacityView. by repeat case_match.
Qed.

Lemma opacityView_playbackOpacityData slot' data t s slot :
  slot ≠ slot' → opacityView (playbackOpacityData slot' data t s) slot = opacityView s slot.
Proof.
  intros Hne. unfold playbackOpacityData, updateAllLayersOpacity, opacityView.
  repeat case_match; simpl; by rewrite ?lookup_alter_ne, ?lookup_insert_ne by done.
Qed.

Lemma opacityView_playbackTimestampData slot' data t s slot :
  opacityView (outcomeState (playbackTimestampData slot' data t s)) slot = opacityView s slot.
Proof. unfold playbackTimestampData, opacityView. by repeat case_match. Qed.

Lemma volumeView_playbackSlot x t s slot' slot :
  (slot, Volume) ∈ hijackedControls s →
  volumeView (outcomeState (playbackSlot x t s slot')) slot = volumeView s slot.
Proof.
  intros Hh. unfold playbackSlot. destruct (controlData x !! slot') as [sd|]; [|done].
  set (s1 := if bool_decide (is_Some (videoAt s slot'))
                && negb (Set_has (slot', Volume) (hijackedControls s))
             then playbackVolumeData slot' (volumeData sd) t s else s).
  assert (volumeView s1 slot = volumeView s slot) as E1.
  { subst s1. destruct (decide (slot = slot')) as [<-|Hne].
    - apply Set_has_true in Hh. rewrite Hh. by rewrite andb_false_r.
    - destruct (_ && _); [|done]. by apply volumeView_playbackVolumeData. }
  clearbody s1.
  set (s2 := if bool_decide (is_Some (videoAt s1 slot'))
                && negb (Set_has (slot', Opacity) (hijackedControls s1))
             then playbackOpacityData slot' (opacityData sd) t s1 else s1).
  assert (volumeView s2 slot = volumeView s1 slot) as E2.
  { subst s2. destruct (_ && _); [|done]. apply volumeView_playbackOpacityData. }
  clearbody s2.
  destruct (_ && _); [|simpl; congruence].
  rewrite volumeView_playbackTimestampData. congruence.
Qed.

Lemma opacityView_playbackSlot x t s slot' slot :
  (slot, Opacity) ∈ hijackedControls s →
  opacityView (outcomeState (playbackSlot x t s slot')) slot = opacityView s slot.
Proof.
  intros Hh. unfold playbackSlot. destruct (controlData x !! slot') as [sd|]; [|done].
  set (s1 := if bool_decide (is_Some (videoAt s slot'))
                && negb (Set_has (slot', Volume) (hijackedControls s))
             then playbackVolumeData slot' (volumeData sd) t s else s).
  assert (opacityView s1 slot = opacityView s slot ∧ hijackedControls s1 = hijackedControls s)
    as [E1 H1].
  { subst s1. destruct (_ && _); [|done]. split; [apply opacityView_playbackVolumeData|].
    apply timelineView_hijackedControls, timelineView_playbackVolumeData. }
  clearbody s1.
  set (s2 := if bool_decide (is_Some (videoAt s1 slot'))
                && negb (Set_has (slot', Opacity) (hijackedControls s1))
             then playbackOpacityData slot' (opacityData sd) t s1 else s1).
  assert (opacityView s2 slot = opacityView s1 slot) as E2.
  { subst s2. destruct (decide (slot = slot')) as [<-|Hne].
    - rewrite H1. apply Set_has_true in Hh. rewrite Hh. by rewrite andb_false_r.
    - destruct (_ && _); [|done]. by apply opacityView_playbackOpacityData. }
  clearbody s2.
  destruct (_ && _); [|simpl; congruence].
  rewrite opacityView_playbackTimestampData. congruence.
Qed.

(** X5.  The replayer gives way to the live user.  While the volume of a
    slot is in the hijack set, a replay tick writes neither its slider
    nor its player nor its last applied volume, whatever the sessions
    hold for it; while its opacity is hijacked, a tick writes neither its
    opacity slider nor its layer. *)
Theorem replay_skips_hijacked (now : Z) (s : State) (slot : nat) :
  ((slot, Volume) ∈ hijackedControls s →
   volSlider (playbackTick now s) !! slot = volSlider s !! slot ∧
   previewPlayers (playbackTick now s) !! slot = previewPlayers s !! slot ∧
   currentPlaybackVolumes (playbackTick now s) !! slot = currentPlaybackVolumes s !! slot) ∧
  ((slot, Opacity) ∈ hijackedControls s →
   opcSlider (playbackTick now s) !! slot = opcSlider s !! slot ∧
   mainLayerOpacity (playbackTick now s) !! slot = mainLayerOpacity s !! slot).
Proof.
  split; intros Hh.
  - assert (volumeView (playbackTick now s) slot = volumeView s slot) as E.
    { unfold playbackTick. destruct (playbackInterval s) as [t0|]; [|done].
      assert (volumeView (outcomeState (playbackAllSessions (recordingSessions s) (now - t0) s))
                         slot = volumeView s slot) as E.
      { apply (replay_invariant (λ acc, volumeView acc slot = volumeView s slot)); [|done].
        intros x acc slot' Ha HP. rewrite <- HP. apply volumeView_playbackSlot.
        by rewrite Ha. }
      destruct (playbackAllSessions _ _ s) as [s1|s1]; simpl in E; [|done].
      by destruct (bool_decide _). }
    unfold volumeView in E. by injection E.
  - assert (opacityView (playbackTick now s) slot = opacityView s slot) as E.
    { unfold playbackTick. destruct (playbackInterval s) as [t0|]; [|done].
      assert (opacityView (outcomeState (playbackAllSessions (recordingSessions s) (now - t0) s))
                          slot = opacityView s slot) as E.
      { apply (replay_invariant (λ acc, opacityView acc slot = opacityView s slot)); [|done].
        intros x acc slot' Ha HP. rewrite <- HP. apply opacityView_playbackSlot.
        by rewrite Ha. }
      destruct (playbackAllSessions _ _ s) as [s1|s1]; simpl in E; [|done].
      by destruct (bool_decide _). }
    unfold opacityView in E. by injection E.
Qed.

Lemma replay_skips_hijacked_witness :
  opcSlider (playbackTick 7000 exampleHijacked) !! 0%nat = opcSlider exampleHijacked !! 0%nat.
Proof.
  destruct (replay_skips_hijacked 7000 exampleHijacked 0) as [_ H].
  apply H. apply (bool_decide_unpack _). by vm_compute.
Defined.

(** ** Interpolated volume *)




(** ** Volume smoothing over several ticks *)

Lemma smoothedVolume_gap (currentVolume targetVolume : Z) :
  Z.abs (targetVolume - smoothedVolume currentVolume targetVolume)
  ≤ Z.max 0 (Z.abs (targetVolume - currentVolume) - 2).
Proof.
  destruct (smoothedVolume_law currentVolume targetVolume) as (H1 & H2 & H3 & _).
  simpl in *. lia.
Qed.

Lemma Playback_smoothedVolume_gap (currentVolume targetVolume : Z) :
  Z.abs (targetVolume - Playback.smoothedVolume currentVolume targetVolume)
  ≤ Z.max 0 (Z.abs (targetVolume - currentVolume) - 3).
Proof.
  destruct (Playback_smoothedVolume_law currentVolume targetVolume) as (H1 & H2 & _).
  simpl in *. lia.
Qed.

(** X7.  Smoothing reaches its target.  With a ready player in the slot,
    [n >= 1] successive calls of [applyVolumeSmooth] towards the same
    target leave the player within [gap - 2 n] of the target, where
    [gap] is the distance of the last applied volume at the start; once
    [2 n >= gap] the player is at the target and stays there. *)
Theorem volume_smoothing_converges (slot : nat) (targetVolume : Z) (s : State) (p : Player)
    (n : nat) :
  previewPlayers s !! slot = Some p → playerReady p = true →
  let gap := Z.abs (targetVolume - lastAppliedVolume s slot p) in
  let s' := Nat.iter (S n) (applyVolumeSmooth slot targetVolume) s in
  ∃ r, currentPlaybackVolumes s' !! slot = Some r ∧
       previewPlayers s' !! slot = Some (mkPlayer true r) ∧
       Z.abs (targetVolume - r) ≤ Z.max 0 (gap - 2 * Z.of_nat (S n)) ∧
       (gap ≤ 2 * Z.of_nat (S n) → r = targetVolume).
Proof.
  intros Hp Hr gap.
  assert (∃ r, currentPlaybackVolumes (Nat.iter (S n) (applyVolumeSmooth slot targetVolume) s)
                 !! slot = Some r ∧
               previewPlayers (Nat.iter (S n) (applyVolumeSmooth slot targetVolume) s)
                 !! slot = Some (mkPlayer true r) ∧
               Z.abs (targetVolume - r) ≤ Z.max 0 (gap - 2 * Z.of_nat (S n))) as (r & H1 & H2 & H3).
  { induction n as [|n IH].
    - destruct (applyVolumeSmooth_ready slot targetVolume s p Hp Hr) as (H1 & H2 & _).
      eexists. split; [exact H1|]. split; [exact H2|].
      pose proof (smoothedVolume_gap (lastAppliedVolume s slot p) targetVolume) as Hg.
      subst gap. change (Z.of_nat 1) with 1. clear -Hg. lia.
    - destruct IH as (r & H1 & H2 & H3).
      set (sn := Nat.iter (S n) (applyVolumeSmooth slot targetVolume) s) in *.
      change (Nat.iter (S (S n)) (applyVolumeSmooth slot targetVolume) s)
        with (applyVolumeSmooth slot targetVolume sn).
      destruct (applyVolumeSmooth_ready slot targetVolume sn (mkPlayer true r) H2 eq_refl)
        as (H1' & H2' & _).
      assert (lastAppliedVolume sn slot (mkPlayer true r) = r) as El
        by (unfold lastAppliedVolume; by rewrite H1).
      rewrite El in H1', H2'.
      eexists. split; [exact H1'|]. split; [exact H2'|].
      pose proof (smoothedVolume_gap r targetVolume) as Hg.
      rewrite (Nat2Z.inj_succ (S n)). clear -Hg H3. lia. }
  exists r. split; [done|]. split; [done|]. split; [done|]. clear -H3. lia.
Qed.

Lemma volume_smoothing_converges_witness :
  ∃ r, currentPlaybackVolumes (Nat.iter 15 (applyVolumeSmooth 0 80) scenarioState) !! 0%nat
       = Some r ∧ r = 80.
Proof.
  destruct (volume_smoothing_converges 0 80 scenarioState (mkPlayer true 50) 14 eq_refl eq_refl)
    as (r & H1 & _ & _ & H4).
  exists r. split; [exact H1|]. apply H4. vm_compute. discriminate.
Defined.

Lemma Playback_applyVolumeSmooth_seekingSlots slot targetVolume ps :
  Playback.seekingSlots (Playback.applyVolumeSmooth slot targetVolume ps)
  = Playback.seekingSlots ps.
Proof. unfold Playback.applyVolumeSmooth. by repeat case_match. Qed.

(** X8.  The same on the playback page, whose limiter steps by 3 and
    snaps within 5: with a ready player in a slot that is not seeking,
    [n >= 1] successive calls leave the player within [gap - 3 n] of the
    target, and at the target once [3 n >= gap]. *)
Theorem playback_page_smoothing_converges (slot : nat) (targetVolume : Z)
    (ps : Playback.PageState) (p : Player) (n : nat) :
  Playback.mainPlayers ps !! slot = Some p → playerReady p = true →
  slot ∉ Playback.seekingSlots ps →
  let gap := Z.abs (targetVolume - default 50 (Playback.currentPlaybackVolumes ps !! slot)) in
  let ps' := Nat.iter (S n) (Playback.applyVolumeSmooth slot targetVolume) ps in
  ∃ r, Playback.currentPlaybackVolumes ps' !! slot = Some r ∧
       Playback.mainPlayers ps' !! slot = Some (mkPlayer true r) ∧
       Z.abs (targetVolume - r) ≤ Z.max 0 (gap - 3 * Z.of_nat (S n)) ∧
       (gap ≤ 3 * Z.of_nat (S n) → r = targetVolume).
Proof.
  intros Hp Hr Hseek gap.
  assert (∃ r, Playback.currentPlaybackVolumes
                 (Nat.iter (S n) (Playback.applyVolumeSmooth slot targetVolume) ps)
                 !! slot = Some r ∧
               Playback.mainPlayers
                 (Nat.iter (S n) (Playback.applyVolumeSmooth slot targetVolume) ps)
                 !! slot = Some (mkPlayer true r) ∧
               Playback.seekingSlots
                 (Nat.iter (S n) (Playback.applyVolumeSmooth slot targetVolume) ps)
               = Playback.seekingSlots ps ∧
               Z.abs (targetVolume - r) ≤ Z.max 0 (gap - 3 * Z.of_nat (S n)))
    as (r & H1 & H2 & _ & H3).
  { induction n as [|n IH].
    - destruct (Playback_applyVolumeSmooth_ready slot targetVolume ps p Hp Hr Hseek) as (H1 & H2).
      eexists. split; [exact H1|]. split; [exact H2|].
      split; [apply Playback_applyVolumeSmooth_seekingSlots|].
      pose proof (Playback_smoothedVolume_gap
                    (default 50 (Playback.currentPlaybackVolumes ps !! slot)) targetVolume)
        as Hg.
      subst gap. change (3 * Z.of_nat 1) with 3. exact Hg.
    - destruct IH as (r & H1 & H2 & Hs & H3).
      set (sn := Nat.iter (S n) (Playback.applyVolumeSmooth slot targetVolume) ps) in *.
      change (Nat.iter (S (S n)) (Playback.applyVolumeSmooth slot targetVolume) ps)
        with (Playback.applyVolumeSmooth slot targetVolume sn).
      assert (slot ∉ Playback.seekingSlots sn) as Hseek' by (by rewrite Hs).
      destruct (Playback_applyVolumeSmooth_ready slot targetVolume sn (mkPlayer true r)
                  H2 eq_refl Hseek') as (H1' & H2').
      rewrite H1 in H1', H2'. simpl in H1', H2'.
      eexists. split; [exact H1'|]. split; [exact H2'|].
      split; [by rewrite Playback_applyVolumeSmooth_seekingSlots|].
      pose proof (Playback_smoothedVolume_gap r targetVolume) as Hg.
      rewrite (Nat2Z.inj_succ (S n)). clear -Hg H3. lia. }
  exists r. split; [done|]. split; [done|]. split; [done|]. clear -H3. lia.
Qed.

Lemma playback_page_smoothing_converges_witness :
  ∃ r, Playback.currentPlaybackVolumes
         (Nat.iter 10 (Playback.applyVolumeSmooth 0 80) examplePage) !! 0%nat = Some r ∧
       r = 80.
Proof.
  destruct (playback_page_smoothing_converges 0 80 examplePage (mkPlayer true 50) 9
              eq_refl eq_refl) as (r & H1 & _ & _ & H4).
  { apply not_elem_of_nil. }
  exists r. split; [exact H1|]. apply H4. vm_compute. discriminate.
Defined.

(** ** What the handlers write to the session being recorded *)

Lemma recorderView_hijackControl slot ct now s :
  recorderView (hijackControl slot ct now s) = recorderView s.
Proof. by apply (hijackControl_preserves recorderView). Qed.

Lemma recorderView_linkedControlStep src type change now video slot s :
  recorderView (linkedControlStep src type change now video slot s) = recorderView s.
Proof.
  unfold linkedControlStep.
  destruct (negb (bool_decide (slot = src)) && linked video && negb (locked video)); [|done].
  destruct type; cbv zeta; [| |done];
    (match goal with |- context [if ?b then _ else _] => destruct b end;
     [by rewrite recorderView_hijackControl|done]).
Qed.

Lemma recorderView_updateLinkedControls src type oldValue newValue now s :
  recorderView (updateLinkedControls src type oldValue newValue now s) = recorderView s.
Proof.
  unfold updateLinkedControls. destruct (videoAt s src) as [v|]; [|done].
  destruct (negb (linked v)); [done|].
  apply forEachVideo_preserves. intros. apply recorderView_linkedControlStep.
Qed.

Lemma recorderView_propagateToLinked slot type oldValue newValue now s :
  recorderView (propagateToLinked slot type oldValue newValue now s) = recorderView s.
Proof.
  unfold propagateToLinked. destruct (videoAt s slot) as [v|]; [|done].
  destruct (linked v && negb (isReceivingLink s)); [|done].
  change (recorderView (set_isReceivingLink false ?x)) with (recorderView x).
  by rewrite recorderView_updateLinkedControls.
Qed.

Lemma recorderView_updateOpacityImmediate_skip slot x now s :
  recorderView (updateOpacityImmediate_skip slot x now s) = recorderView s.
Proof.
  unfold updateOpacityImmediate_skip. destruct (videoAt s slot); [|done].
  destruct (isReceivingLink s); [done|]. by rewrite recorderView_propagateToLinked.
Qed.

Lemma recorderView_updateVolumeImmediate_skip slot x now s :
  recorderView (updateVolumeImmediate_skip slot x now s) = recorderView s.
Proof.
  unfold updateVolumeImmediate_skip. destruct (videoAt s slot); [|done].
  destruct (isReceivingLink s); [done|]. by rewrite recorderView_propagateToLinked.
Qed.

Lemma recorderView_updateVolumeImmediate slot x skip now s :
  recorderView (outcomeState (updateVolumeImmediate slot x skip now s)) = recorderView s.
Proof.
  unfold updateVolumeImmediate. destruct skip; [apply recorderView_updateVolumeImmediate_skip|].
  destruct (videoAt s slot) as [v|]; [|done].
  destruct (isReceivingLink s); [done|].
  destruct (volumeOpacityLinked v).
  - destruct (opcSlider _ !! slot); simpl; [|done].
    by rewrite recorderView_propagateToLinked, recorderView_updateOpacityImmediate_skip.
  - simpl. by rewrite recorderView_propagateToLinked.
Qed.

Lemma recorderView_updateOpacityImmediate slot x skip now s :
  recorderView (outcomeState (updateOpacityImmediate slot x skip now s)) = recorderView s.
Proof.
  unfold updateOpacityImmediate. destruct skip; [apply recorderView_updateOpacityImmediate_skip|].
  destruct (videoAt s slot) as [v|]; [|done].
  destruct (isReceivingLink s); [done|].
  destruct (volumeOpacityLinked v).
  - destruct (volSlider _ !! slot); simpl; [|done].
    by rewrite recorderView_propagateToLinked, recorderView_updateVolumeImmediate_skip.
  - simpl. by rewrite recorderView_propagateToLinked.
Qed.







Lemma recorderView_isRecording s s' :
  recorderView s' = recorderView s → isRecording s' = isRecording s.
Proof. unfold recorderView. intros E. injection E as _ _ -> _. done. Qed.


Lemma recordTimestampChange_off slot idx t a now s :
  isRecording s = false → recordTimestampChange slot idx t a now s = s.
Proof. intros H. unfold recordTimestampChange. by rewrite H. Qed.

Lemma recordControlChangeThrottled_off slot ct v now stampNow s :
  isRecording s = false → recordControlChangeThrottled slot ct v now stampNow s = s.
Proof. intros H. unfold recordControlChangeThrottled. by rewrite H. Qed.

Lemma recorderView_off_step (s s1 : State) (f : State → State) :
  isRecording s = false → recorderView s1 = recorderView s →
  recorderView (if isRecording s1 then f s1 else s1) = recorderView s.
Proof.
  intros Hr Hv. by rewrite (recorderView_isRecording _ _ Hv), Hr.
Qed.

(** X10.  Nothing is recorded outside a recording.  While [isRecording]
    is off (before the first session, in a countdown, between sessions),
    no slider input, debounced slider event or keyframe touch changes
    the session data, the throttle clocks or the recording clock. *)
Theorem touches_outside_recording_record_nothing (e : Event) (s : State) :
  isControlTouch e = true → isRecording s = false →
  currentRecordingData (handle e s) = currentRecordingData s ∧
  lastRecordingTime (handle e s) = lastRecordingTime s ∧
  isRecording (handle e s) = false ∧
  recordingStartTime (handle e s) = recordingStartTime s.
Proof.
  intros He Hr.
  assert (recorderView (handle e s) = recorderView s) as Hv.
  { destruct e; try discriminate He; simpl.
    - unfold updateVolume.
      pose proof (recorderView_updateVolumeImmediate slot v false now s) as Hv.
      destruct (updateVolumeImmediate slot v false now s) as [s1|s1]; simpl in Hv; [|done].
      by rewrite (recorderView_isRecording _ _ Hv), Hr.
    - unfold updateVolumeDebounced. repeat case_match; try done.
      apply recorderView_hijackControl.
    - unfold updateOpacity.
      pose proof (recorderView_updateOpacityImmediate slot v false now s) as Hv.
      destruct (updateOpacityImmediate slot v false now s) as [s1|s1]; simpl in Hv; [|done].
      by rewrite (recorderView_isRecording _ _ Hv), Hr.
    - unfold updateOpacityDebounced. repeat case_match; try done.
      apply recorderView_hijackControl.
    - unfold setKeyframe.
      destruct (videoAt s slot) as [video|]; [|done].
      destruct (previewPlayers s !! slot); [|done].
      destruct (locked video); [done|].
      assert (recorderView (if isPlaybackMode s then hijackControl slot Timestamps now s else s)
              = recorderView s) as H1.
      { destruct (isPlaybackMode s); [apply recorderView_hijackControl|done]. }
      destruct playerTime as [t|]; [|done].
      by apply recorderView_off_step.
    - unfold jumpToKeyframe.
      destruct (videoAt s slot) as [video|]; [|done].
      destruct (keyframes video !! idx) as [[targetTime|]|]; try done.
      destruct (locked video); [done|].
      set (s1 := if isPlaybackMode s && isRecording s
                 then hijackControl slot Timestamps now s else s).
      assert (recorderView s1 = recorderView s) as H1.
      { subst s1. destruct (_ && _); [apply recorderView_hijackControl|done]. }
      clearbody s1.
      destruct (previewPlayers s1 !! slot) as [p|]; [|done].
      destruct (isSyncLocked s1 slot); [done|].
      destruct (playerReady p); [|done].
      by apply recorderView_off_step.
    - unfold deleteKeyframe.
      destruct (videoAt s slot) as [video|]; [|done].
      destruct (locked video); [done|].
      assert (recorderView (if isPlaybackMode s then hijackControl slot Timestamps now s else s)
              = recorderView s) as H1.
      { destruct (isPlaybackMode s); [apply recorderView_hijackControl|done]. }
      by apply recorderView_off_step. }
  unfold recorderView in Hv. injection Hv as -> -> -> ->. done.
Qed.

Lemma touches_outside_recording_record_nothing_witness :
  currentRecordingData (handle (EvUpdateVolume 0 70 2000 2001) exampleLinked)
  = currentRecordingData exampleLinked.
Proof.
  apply (touches_outside_recording_record_nothing (EvUpdateVolume 0 70 2000 2001) exampleLinked);
    reflexivity.
Defined.

(** ** Keyframe events in the session being recorded *)


Lemma videoAt_recordTimestampChange slot idx t a now s j :
  videoAt (recordTimestampChange slot idx t a now s) j = videoAt s j.
Proof. unfold recordTimestampChange. by destruct (isRecording s). Qed.




(** ** Session life cycle *)

Lemma videoAt_lookup (s : State) (slot : nat) (video : Video) :
  videoAt s slot = Some video ↔ videos s !! slot = Some (Some video).
Proof. unfold videoAt. destruct (videos s !! slot) as [[?|]|]; simpl; naive_solver. Qed.

Lemma existsb_isSomeb_videos_iff (s : State) :
  existsb isSomeb (videos s) = true ↔ ∃ slot video, videoAt s slot = Some video.
Proof.
  split.
  - intros H. apply existsb_exists in H as ([video|] & Hin & Hs); [|done].
    apply list_elem_of_In, list_elem_of_lookup in Hin as [slot Hslot].
    exists slot, video. by apply videoAt_lookup.
  - intros (slot & video & Hv). by eapply existsb_isSomeb_videos.
Qed.

Lemma videosWithoutKeyframes_nil (s : State) :
  videosWithoutKeyframes (videos s) = []
  ↔ ∀ slot video, videoAt s slot = Some video → hasKeyframe video = true.
Proof.
  split.
  - intros E slot video Hv. destruct (hasKeyframe video) eqn:Hk; [done|]. exfalso.
    assert ((slot + 1)%nat ∈ videosWithoutKeyframes (videos s)) as Hin.
    { apply elem_of_videosWithoutKeyframes. by exists slot, video. }
    rewrite E in Hin. by apply elem_of_nil in Hin.
  - intros Hall. destruct (videosWithoutKeyframes (videos s)) as [|n l] eqn:E; [done|]. exfalso.
    assert (n ∈ videosWithoutKeyframes (videos s)) as Hin by (rewrite E; by left).
    apply elem_of_videosWithoutKeyframes in Hin as (slot & video & Hv & Hk & _).
    rewrite (Hall slot video Hv) in Hk. done.
Qed.

Lemma startRecordingSession_success (now : Z) (s : State) :
  (startRecordingSession now s).2 = None →
  currentSession (startRecordingSession now s).1
  = Z.of_nat (length (recordingSessions s)) + 1 ∧
  recordingSessions (startRecordingSession now s).1 = recordingSessions s.
Proof.
  unfold startRecordingSession, startPlaybackMode.
  destruct (negb (existsb isSomeb (videos s))); [done|].
  destruct (videosWithoutKeyframes (videos s)); [|done].
  intros _. simpl. destruct (recordingSessions s) eqn:E; simpl; by rewrite ?E.
Qed.

(** X12.  When a session starts.  [startRecordingSession] goes on to the
    countdown, with no alert, exactly when some slot is loaded and every
    loaded video has a keyframe set.  It then numbers the session one
    past the finalized ones and leaves sessions and videos alone; over
    an empty session list it touches neither playback mode nor the
    replay timer, otherwise it turns playback mode on and starts the
    replay timer at [now] with the applied volumes forgotten. *)
Theorem start_succeeds_iff (now : Z) (s : State) :
  ((startRecordingSession now s).2 = None
   ↔ (∃ slot video, videoAt s slot = Some video) ∧
     (∀ slot video, videoAt s slot = Some video → hasKeyframe video = true)) ∧
  ((startRecordingSession now s).2 = None →
   let s' := (startRecordingSession now s).1 in
   isCountdown s' = true ∧
   currentSession s' = Z.of_nat (length (recordingSessions s)) + 1 ∧
   recordingSessions s' = recordingSessions s ∧ videos s' = videos s ∧
   hijackedControls s' = hijackedControls s ∧
   (recordingSessions s = [] →
    isPlaybackMode s' = isPlaybackMode s ∧ playbackInterval s' = playbackInterval s) ∧
   (recordingSessions s ≠ [] →
    isPlaybackMode s' = true ∧ playbackInterval s' = Some now ∧
    currentPlaybackVolumes s' = ∅)).
Proof.
  unfold startRecordingSession.
  rewrite <- existsb_isSomeb_videos_iff, <- videosWithoutKeyframes_nil.
  destruct (existsb isSomeb (videos s)); simpl; [|split; [split; [done|by intros [? _]]|done]].
  destruct (videosWithoutKeyframes (videos s)) as [|n l]; simpl;
    [|split; [split; [done|by intros [_ ?]]|done]].
  split; [done|]. intros _. unfold startPlaybackMode.
  destruct (recordingSessions s) as [|x ss] eqn:E; simpl; rewrite ?E; simpl.
  - repeat split; done.
  - repeat split; done.
Qed.


Lemma start_succeeds_iff_witness :
  (startRecordingSession 1000 exampleLinked).2 = None ∧
  isCountdown (startRecordingSession 1000 exampleLinked).1 = true.
Proof.
  split; [reflexivity|].
  apply (start_succeeds_iff 1000 exampleLinked). reflexivity.
Defined.

Lemma freshControlData_spec (vs : list (option Video)) (slot : nat) :
  freshControlData vs !! slot = (λ _, emptySlotData) <$> mjoin (vs !! slot).
Proof.
  unfold freshControlData.
  assert (∀ i0 (acc : gmap nat SlotData),
            forEachFrom i0
              (λ (v : option Video) slot acc,
                 match v with Some _ => <[slot := emptySlotData]> acc | None => acc end)
              vs acc !! slot
            = if decide (i0 ≤ slot)%nat
              then match mjoin (vs !! (slot - i0)%nat) with
                   | Some _ => Some emptySlotData
                   | None => acc !! slot
                   end
              else acc !! slot) as H.
  { induction vs as [|v vs IH]; intros i0 acc; simpl.
    - by destruct (decide _).
    - rewrite IH. destruct (decide (i0 ≤ slot)%nat) as [Hle|Hgt].
      + destruct (decide (i0 = slot)) as [->|Hne].
        * rewrite decide_False by lia. rewrite Nat.sub_diag. simpl.
          destruct v; simpl; [by rewrite lookup_insert_eq|done].
        * rewrite decide_True by lia.
          replace (slot - i0)%nat with (S (slot - S i0)) by lia. simpl.
          destruct (mjoin (vs !! (slot - S i0)%nat)); [done|].
          destruct v; [by rewrite lookup_insert_ne|done].
      + rewrite decide_False by lia.
        destruct v; [by rewrite lookup_insert_ne by lia|done]. }
  rewrite H. rewrite decide_True by lia. rewrite Nat.sub_0_r, lookup_empty.
  by destruct (mjoin (vs !! slot)).
Qed.

Lemma leftmostKeyframe_hasKeyframe (video : Video) :
  isSomeb (leftmostKeyframe video) = hasKeyframe video.
Proof.
  unfold leftmostKeyframe, hasKeyframe.
  induction (keyframes video) as [|k l IH]; simpl; [done|].
  destruct k as [q|]; simpl; [done|]. exact IH.
Qed.

Lemma seekToLeftmostThrows_ext (s s' : State) :
  videos s' = videos s → previewPlayers s' = previewPlayers s →
  seekToLeftmostThrows s' = seekToLeftmostThrows s.
Proof. unfold seekToLeftmostThrows, videoAt. by intros -> ->. Qed.

Lemma seekToLeftmostThrows_false (s : State) :
  seekToLeftmostThrows s = false ↔ readyToSeek s.
Proof.
  unfold seekToLeftmostThrows, readyToSeek. split.
  - intros H slot video p Hv Hp Hk.
    destruct (playerReady p) eqn:E; [done|]. exfalso.
    apply not_true_iff_false in H. apply H.
    apply existsb_exists. exists slot. split.
    + apply in_seq. split; [lia|]. simpl.
      unfold videoAt in Hv. destruct (videos s !! slot) eqn:El; [|done].
      by apply lookup_lt_Some in El.
    + by rewrite Hv, Hp, leftmostKeyframe_hasKeyframe, Hk, E.
  - intros H. apply not_true_iff_false. intros Ht.
    apply existsb_exists in Ht as (slot & _ & Hf).
    destruct (videoAt s slot) as [video|] eqn:Ev; [|done].
    destruct (previewPlayers s !! slot) as [p|] eqn:Ep; [|done].
    apply andb_true_iff in Hf as [Hk Hr].
    rewrite leftmostKeyframe_hasKeyframe in Hk.
    rewrite (H slot video p Ev Ep Hk) in Hr. done.
Qed.

Lemma startActualRecording_seek (now : Z) (s : State) :
  (readyToSeek s → ∃ s', startActualRecording now s = Done s') ∧
  (¬ readyToSeek s → ∃ s', startActualRecording now s = Thrown s').
Proof.
  unfold startActualRecording.
  set (s1 := set_lastRecordingTime ∅ _).
  set (s2 := if bool_decide (1 < currentSession s1) then _ else s1).
  assert (seekToLeftmostThrows s2 = seekToLeftmostThrows s) as ->.
  { apply seekToLeftmostThrows_ext; unfold s2;
      (destruct (bool_decide (1 < currentSession s1)); [|done]);
      unfold onLoadedSliders.
    - by rewrite (forEachVideo_preserves videos) by done.
    - by rewrite (forEachVideo_preserves previewPlayers) by done. }
  destruct (seekToLeftmostThrows s) eqn:E; split; intros H.
  - apply seekToLeftmostThrows_false in H. congruence.
  - by eexists.
  - by eexists.
  - destruct H. by apply seekToLeftmostThrows_false.
Qed.

(** X13.  What a recording starts from.  When the countdown ends,
    [startActualRecording] turns recording on with the clock at [now]
    and the throttle clocks forgotten; in an overdub (session number
    above 1) it also empties the hijack set, in a first session it
    leaves it.  When every loaded video that has a keyframe and a player
    has a ready player, it then opens a session with the current number,
    start time [now] and one empty entry for each loaded slot and no
    other.  Otherwise the seek to the leftmost keyframe throws, and the
    page is left recording into the session data it had before. *)
Theorem recording_starts_fresh (now : Z) (s : State) :
  (readyToSeek s →
   ∃ s', startActualRecording now s = Done s' ∧
         isRecording s' = true ∧ isCountdown s' = false ∧ recordingStartTime s' = now ∧
         lastRecordingTime s' = ∅ ∧
         session (currentRecordingData s') = currentSession s ∧
         startTime (currentRecordingData s') = now ∧
         (∀ slot, controlData (currentRecordingData s') !! slot
                  = (λ _, emptySlotData) <$> videoAt s slot) ∧
         hijackedControls s'
         = (if bool_decide (1 < currentSession s) then [] else hijackedControls s) ∧
         videos s' = videos s ∧ recordingSessions s' = recordingSessions s) ∧
  (¬ readyToSeek s →
   ∃ s', startActualRecording now s = Thrown s' ∧
         isRecording s' = true ∧ isCountdown s' = false ∧ recordingStartTime s' = now ∧
         lastRecordingTime s' = ∅ ∧
         currentRecordingData s' = currentRecordingData s ∧
         hijackedControls s'
         = (if bool_decide (1 < currentSession s) then [] else hijackedControls s) ∧
         videos s' = videos s ∧ recordingSessions s' = recordingSessions s).
Proof.
  split; intros H.
  - destruct (proj1 (startActualRecording_seek now s) H) as [s' E].
    exists s'. split; [done|].
    apply startActualRecording_Done in E
      as (H1 & H2 & H3 & H4 & H5 & H6 & H7 & H8 & _).
    rewrite H5. simpl. repeat (split; [done|]).
    split; [intros slot; apply freshControlData_spec|done].
  - destruct (proj2 (startActualRecording_seek now s) H) as [s' E].
    exists s'. split; [done|].
    apply startActualRecording_Thrown in E
      as (H1 & H2 & H3 & H4 & H5 & H6 & H7 & H8 & _).
    done.
Qed.

Lemma recording_starts_fresh_witness :
  (∃ s', startActualRecording 4000 (set_isCountdown true exampleLinked) = Done s' ∧
         isRecording s' = true ∧
         controlData (currentRecordingData s') !! 3%nat = None) ∧
  (∃ s', startActualRecording 4000 exampleNotReady = Thrown s' ∧
         isRecording s' = true ∧
         currentRecordingData s' = currentRecordingData exampleNotReady).
Proof.
  split.
  - destruct (proj1 (recording_starts_fresh 4000 (set_isCountdown true exampleLinked)))
      as (s' & E & Hr & _ & _ & _ & _ & _ & Hcd & _).
    + intros slot video p _ Hp. simpl in Hp. by rewrite lookup_empty in Hp.
    + exists s'. split; [exact E|]. split; [exact Hr|]. exact (Hcd 3%nat).
  - destruct (proj2 (recording_starts_fresh 4000 exampleNotReady))
      as (s' & E & Hr & _ & _ & _ & Hcd & _).
    + intros H. by specialize (H 0%nat _ _ eq_refl eq_refl eq_refl).
    + exists s'. split; [exact E|]. split; [exact Hr|exact Hcd].
Defined.

Lemma sessionHeader_recorderCall s c : sessionHeader (recorderCall s c) = sessionHeader s.
Proof.
  destruct c; simpl.
  - unfold recordControlChangeThrottled, recordControlChange.
    destruct (isRecording s) eqn:E; simpl; [|done].
    case_bool_decide; simpl; [|done]. by rewrite E.
  - unfold recordTimestampChange. by destruct (isRecording s).
Qed.

Lemma sessionHeader_run s calls :
  sessionHeader (foldl recorderCall s calls) = sessionHeader s.
Proof.
  revert s. induction calls as [|c calls IH]; intros s; simpl; [done|].
  by rewrite IH, sessionHeader_recorderCall.
Qed.

Lemma stopRecording_sessions now s :
  recordingSessions (stopRecording now s)
  = recordingSessions s ++ [set_duration (now - recordingStartTime s) (currentRecordingData s)] ∧
  isRecording (stopRecording now s) = false ∧
  hijackedControls (stopRecording now s) = [] ∧
  playbackInterval (stopRecording now s) = None.
Proof.
  unfold stopRecording, onLoadedSliders.
  rewrite (forEachVideo_preserves recordingSessions) by done.
  rewrite (forEachVideo_preserves isRecording) by done.
  rewrite (forEachVideo_preserves hijackedControls) by done.
  rewrite (forEachVideo_preserves playbackInterval) by done. done.
Qed.

Lemma startRecordingSession_players (now : Z) (s : State) :
  videos (startRecordingSession now s).1 = videos s ∧
  previewPlayers (startRecordingSession now s).1 = previewPlayers s.
Proof.
  unfold startRecordingSession, startPlaybackMode.
  repeat case_match; simpl; done.
Qed.

(** X14.  One recording, one session.  From a page that is neither
    recording nor counting down and on which every loaded video that has
    a keyframe and a player has a ready player: a start that raises no
    alert, the end of the countdown at clock [now1], any run of recorder
    calls whose two clock readings are at most [lag] ms apart, and the
    stop at clock [now2] leave the finalized sessions as they were with
    one session appended.  That session carries the next number, start
    time [now1] and duration [now2 - now1], and in each of its volume and
    opacity arrays neighbouring samples are at least [25 - lag] ms apart.
    After the stop the page is not recording, not in playback mode, and
    the hijack set is empty. *)
Theorem recording_cycle_appends_one_session (now0 now1 now2 lag : Z) (s : State)
    (calls : list RecorderCall) :
  isRecording s = false → isCountdown s = false →
  (toggleRecording now0 s).2 = None →
  readyToSeek s →
  Forall (lagWithin lag) calls →
  let s1 := (toggleRecording now0 s).1 in
  ∃ s2, startActualRecording now1 s1 = Done s2 ∧
  let s3 := foldl recorderCall s2 calls in
  let s4 := stopRecording now2 s3 in
  ∃ x, recordingSessions s4 = recordingSessions s ++ [x] ∧
       session x = Z.of_nat (length (recordingSessions s)) + 1 ∧
       startTime x = now1 ∧ duration x = now2 - now1 ∧
       (∀ slot ct,
          spacedBy (25 - lag) (pointsOf ct (default emptySlotData (controlData x !! slot)))) ∧
       isRecording s4 = false ∧ isPlaybackMode s4 = false ∧ hijackedControls s4 = [].
Proof.
  intros Hr Hc Halert Hready Hlag. cbv zeta.
  unfold toggleRecording in *. rewrite Hr, Hc in *. simpl in *.
  destruct (startRecordingSession_success now0 s Halert) as [Hnum Hss].
  destruct (startRecordingSession_players now0 s) as [Hvs Hps].
  set (s1 := (startRecordingSession now0 s).1) in *.
  assert (readyToSeek s1) as Hready1.
  { intros slot video p Hv Hp. unfold videoAt in Hv. rewrite Hvs in Hv. rewrite Hps in Hp.
    by apply (Hready slot video p). }
  destruct (proj1 (startActualRecording_seek now1 s1) Hready1) as [s2 E].
  exists s2. split; [done|].
  pose proof (startActualRecording_Done _ _ _ E)
    as (_ & _ & _ & _ & Hcur & _ & _ & Hss2 & _).
  pose proof (recorderInvariant_run now1 lag [] s2 calls Hlag
                (recorderInvariant_start now1 lag s1 s2 E))
    as (_ & Hclock & Hinv).
  pose proof (sessionHeader_run s2 calls) as Hhdr.
  set (s3 := foldl recorderCall s2 calls) in *.
  unfold sessionHeader in Hhdr.
  assert (recordingSessions s3 = recordingSessions s2) as Hss3 by (by injection Hhdr).
  assert (session (currentRecordingData s3) = session (currentRecordingData s2)) as Hsn3
    by (by injection Hhdr).
  assert (startTime (currentRecordingData s3) = startTime (currentRecordingData s2)) as Hst3
    by (by injection Hhdr).
  destruct (stopRecording_sessions now2 s3) as (Hstop & Hr4 & Hh4 & _).
  exists (set_duration (now2 - recordingStartTime s3) (currentRecordingData s3)).
  split; [by rewrite Hstop, Hss3, Hss2, Hss|].
  split; [simpl; by rewrite Hsn3, Hcur, <- Hnum|].
  split; [simpl; by rewrite Hst3, Hcur|].
  split; [simpl; by rewrite Hclock|].
  split; [intros slot ct; apply (Hinv slot ct)|].
  split; [done|]. split; [apply stopRecording_isPlaybackMode|done].
Qed.

Lemma recording_cycle_appends_one_session_witness :
  ∃ s2, startActualRecording 4000 (toggleRecording 1000 exampleLinked).1 = Done s2 ∧
  ∃ x, recordingSessions
         (stopRecording 64000
            (foldl recorderCall s2
               [CallControl 0 Volume 70 5000 5001; CallControl 0 Volume 71 5010 5010]))
       = recordingSessions exampleLinked ++ [x] ∧
       session x = 1 ∧ duration x = 60000.
Proof.
  destruct (recording_cycle_appends_one_session 1000 4000 64000 1 exampleLinked
              [CallControl 0 Volume 70 5000 5001; CallControl 0 Volume 71 5010 5010]
              eq_refl eq_refl eq_refl) as (s2 & E & x & H1 & H2 & _ & H4 & _).
  - intros slot video p _ Hp. simpl in Hp. by rewrite lookup_empty in Hp.
  - repeat (apply Forall_cons; split); try apply Forall_nil; unfold lagWithin; lia.
  - exists s2. split; [exact E|]. exists x. split; [exact H1|]. split; [exact H2|exact H4].
Defined.

(** ** Removing and loading videos *)

Lemma moduleView_actuallyRemoveVideo (j : nat) (s : State) (slot : nat) :
  moduleView (actuallyRemoveVideo j s) slot
  = if decide (slot = j) then (None, None, None, None, None) else moduleView s slot.
Proof.
  unfold actuallyRemoveVideo, moduleView.
  destruct (decide (slot = j)) as [->|Hne].
  - destruct (videoAt (set_previewPlayers _ s) j) as [v|] eqn:Ev; simpl.
    + unfold videoAt. simpl. rewrite mjoin_arraySet, decide_True by done.
      by rewrite !lookup_delete_eq.
    + change (mjoin (videos s !! j) = None) in Ev. unfold videoAt. simpl.
      rewrite Ev. by rewrite !lookup_delete_eq.
  - destruct (videoAt (set_previewPlayers _ s) j) as [v|] eqn:Ev; simpl.
    + unfold videoAt. simpl. rewrite mjoin_arraySet, decide_False by done.
      by rewrite !lookup_delete_ne by done.
    + by rewrite !lookup_delete_ne by done.
Qed.

Lemma moduleView_videoAt s s' slot :
  moduleView s' slot = moduleView s slot → videoAt s' slot = videoAt s slot.
Proof. unfold moduleView. intros E. by injection E. Qed.

Lemma moduleView_removeAll (l : list nat) (s : State) (slot : nat) :
  moduleView
    (foldl (λ acc slot, match videoAt acc slot with
                        | Some video => actuallyRemoveVideo slot acc
                        | None => acc
                        end) s l) slot
  = if decide (slot ∈ l ∧ is_Some (videoAt s slot))
    then (None, None, None, None, None) else moduleView s slot.
Proof.
  revert s. induction l as [|j l IH]; intros s; simpl.
  - by repeat case_match.
  - rewrite IH. clear IH.
    pose proof (moduleView_actuallyRemoveVideo j s slot) as Hrm.
    destruct (decide (slot = j)) as [->|Hne].
    + destruct (videoAt s j) as [v|] eqn:Ev.
      * rewrite decide_False.
        2:{ intros [_ [x Hx]].
            assert (videoAt (actuallyRemoveVideo j s) j = None) as Hv'
              by (unfold moduleView in Hrm; by injection Hrm).
            rewrite Hv' in Hx. done. }
        rewrite Hrm. rewrite decide_True; [done|]. split; [by left|by eexists].
      * cbv iota. rewrite Ev.
        destruct (decide (j ∈ l ∧ is_Some None)) as [[_ [? ?]]|_]; [done|].
        destruct (decide (j ∈ j :: l ∧ is_Some None)) as [[_ [? ?]]|_]; done.
    + assert (moduleView (match videoAt s j with
                          | Some _ => actuallyRemoveVideo j s
                          | None => s
                          end) slot = moduleView s slot) as E.
      { destruct (videoAt s j); [exact Hrm|done]. }
      rewrite E, (moduleView_videoAt _ _ _ E).
      apply if_decide_iff. rewrite elem_of_cons. naive_solver.
Qed.

Lemma unresetView_actuallyRemoveVideo j s :
  unresetView (actuallyRemoveVideo j s) = unresetView s.
Proof. unfold actuallyRemoveVideo. by repeat case_match. Qed.

Lemma resetInterface_videoAt (s : State) (slot : nat) : videoAt (resetInterface s) slot = None.
Proof.
  unfold resetInterface.
  change (videoAt (forEachVideo (λ _ slot acc, actuallyRemoveVideo slot acc) s) slot = None).
  unfold forEachVideo.
  pose proof (moduleView_removeAll (seq 0 (length (videos s))) s slot) as HM.
  unfold moduleView in HM. destruct (decide _) as [_|Hn]; [by injection HM|].
  assert (videoAt s slot = None) as Hv.
  { destruct (videoAt s slot) as [v|] eqn:Hv; [|done].
    exfalso. apply Hn. split; [|by eexists].
    apply elem_of_seq. split; [lia|]. simpl.
    apply videoAt_lookup, lookup_lt_Some in Hv. lia. }
  rewrite Hv in HM. by injection HM.
Qed.

(** X15.  What a reset clears and what it leaves.  After
    [resetInterface] no slot holds a video, and every slot that held one
    has lost its sliders, its player and its layer; the sessions are
    gone, the session counter is 0, the hijack set is empty and playback
    mode is off.  The recording and countdown flags, the replay timer,
    the recording clock and the session being recorded are not touched:
    a replay timer that was running keeps running. *)
Theorem resetInterface_clears (s : State) :
  let s' := resetInterface s in
  (∀ slot, videoAt s' slot = None) ∧
  (∀ slot, is_Some (videoAt s slot) →
     volSlider s' !! slot = None ∧ opcSlider s' !! slot = None ∧
     previewPlayers s' !! slot = None ∧ mainLayerOpacity s' !! slot = None) ∧
  (∀ slot, videoAt s slot = None →
     volSlider s' !! slot = volSlider s !! slot ∧ opcSlider s' !! slot = opcSlider s !! slot ∧
     previewPlayers s' !! slot = previewPlayers s !! slot) ∧
  recordingSessions s' = [] ∧ currentSession s' = 0 ∧ hijackedControls s' = [] ∧
  isPlaybackMode s' = false ∧
  isRecording s' = isRecording s ∧ isCountdown s' = isCountdown s ∧
  playbackInterval s' = playbackInterval s ∧
  currentRecordingData s' = currentRecordingData s.
Proof.
  cbv zeta. unfold resetInterface.
  set (s1 := forEachVideo (λ _ slot acc, actuallyRemoveVideo slot acc) s).
  assert (∀ slot, moduleView s1 slot
                  = if decide (is_Some (videoAt s slot))
                    then (None, None, None, None, None) else moduleView s slot) as HM.
  { intros slot. unfold s1, forEachVideo. rewrite moduleView_removeAll.
    apply if_decide_iff. split; [tauto|]. intros [v Hv]. split; [|by eexists].
    apply elem_of_seq. split; [lia|]. simpl.
    apply videoAt_lookup, lookup_lt_Some in Hv. lia. }
  assert (unresetView s1 = unresetView s) as HU.
  { unfold s1. apply forEachVideo_preserves. intros. apply unresetView_actuallyRemoveVideo. }
  clearbody s1.
  split; [|split; [|split]].
  - intros slot. specialize (HM slot). change (videoAt s1 slot = None).
    unfold moduleView in HM. destruct (decide _) as [Hs|Hn].
    + by injection HM.
    + injection HM as -> _ _ _ _. destruct (videoAt s slot); [|done]. exfalso. apply Hn. by eexists.
  - intros slot Hs. specialize (HM slot). rewrite decide_True in HM by done.
    unfold moduleView in HM. simpl. by injection HM.
  - intros slot Hn. specialize (HM slot).
    rewrite decide_False in HM by (rewrite Hn; by intros [? ?]).
    unfold moduleView in HM. simpl. by injection HM.
  - unfold unresetView in HU. simpl. by injection HU.
Qed.



Lemma resetInterface_clears_witness :
  volSlider (resetInterface exampleLinked) !! 1%nat = None.
Proof.
  destruct (resetInterface_clears exampleLinked) as (_ & H & _).
  apply (H 1%nat). by eexists.
Defined.

Lemma videoAt_loadVideoInSlot slot u vid s j :
  videoAt (loadVideoInSlot slot u vid s) j
  = if decide (j = slot) then Some (freshVideo slot u vid) else videoAt s j.
Proof.
  unfold loadVideoInSlot.
  change (videoAt (setVideo slot (freshVideo slot u vid)
                     (set_previewPlayers (delete slot (previewPlayers s)) s)) j
          = if decide (j = slot) then Some (freshVideo slot u vid) else videoAt s j).
  by rewrite videoAt_setVideo.
Qed.

Lemma videoAt_loadAll (vs : list (string * string)) (i0 : nat) (s : State) (i : nat) :
  videoAt
    (forEachFrom i0
       (λ (videoData : string * string) index acc,
          if decide (index < 6)%nat
          then loadVideoInSlot index videoData.1 videoData.2 acc else acc) vs s) i
  = if decide (i0 ≤ i ∧ i < 6)%nat
    then match vs !! (i - i0)%nat with
         | Some videoData => Some (freshVideo i videoData.1 videoData.2)
         | None => videoAt s i
         end
    else videoAt s i.
Proof.
  revert i0 s. induction vs as [|vd vs IH]; intros i0 s; simpl.
  - by destruct (decide _).
  - rewrite IH. clear IH.
    assert (videoAt (if decide (i0 < 6)%nat then loadVideoInSlot i0 vd.1 vd.2 s else s) i
            = if decide (i = i0 ∧ i < 6)%nat then Some (freshVideo i vd.1 vd.2) else videoAt s i)
      as E.
    { destruct (decide (i0 < 6)%nat).
      - rewrite videoAt_loadVideoInSlot. destruct (decide (i = i0)) as [->|].
        + by rewrite decide_True.
        + by rewrite decide_False by tauto.
      - rewrite decide_False by lia. done. }
    rewrite E. clear E.
    destruct (decide (i = i0)) as [->|Hne].
    + rewrite decide_False by lia. rewrite Nat.sub_diag. simpl.
      destruct (decide (i0 < 6)%nat).
      * rewrite decide_True by lia. by rewrite decide_True by lia.
      * rewrite decide_False by lia. by rewrite decide_False by lia.
    + rewrite (decide_False (P := (i = i0 ∧ i < 6)%nat)) by tauto.
      destruct (decide (i0 ≤ i ∧ i < 6)%nat).
      * rewrite decide_True by lia.
        replace (i - i0)%nat with (S (i - S i0)) by lia. done.
      * rewrite decide_False by lia. done.
Qed.

Lemma omap_id_lookup_loadedBelow (l : list (option Video)) (slot : nat) (v : Video) :
  l !! slot = Some (Some v) →
  omap (λ x, x) l !! length (omap (λ x, x) (take slot l)) = Some v.
Proof.
  intros H.
  remember (length (omap (λ x, x) (take slot l))) as n eqn:Hn.
  rewrite <- (take_drop_middle l slot (Some v) H).
  rewrite omap_app. rewrite lookup_app_r by lia. rewrite Hn, Nat.sub_diag. done.
Qed.

(** X16.  Where a saved video lands.  Saving compacts the loaded videos
    and loading puts the i-th saved video into slot i, at most six of
    them: after loading the piece saved from page [s0] into any page, the
    video that sat in slot [slot] of [s0] sits, as a freshly loaded
    video with the same url and videoId, in the slot whose number is
    the count of loaded slots below [slot] (so in [slot] itself only
    when no slot below it was empty), while the sessions come back
    unchanged, with their data under the slot numbers of [s0]. *)
Theorem saved_video_lands_compacted (nm thumbnailUrl : string) (now : Z) (isoNow : string)
    (s0 s : State) (slot : nat) (v : Video) :
  videoAt s0 slot = Some v → (loadedBelow s0 slot < 6)%nat →
  let piece := saveComposition nm thumbnailUrl now isoNow s0 in
  let s' := loadAndPlayArtPiece (savedVideoRefs piece) (sessions piece) s in
  videoAt s' (loadedBelow s0 slot) = Some (freshVideo (loadedBelow s0 slot) (url v) (videoId v)) ∧
  recordingSessions s' = recordingSessions s0 ∧
  (∀ i, (length (omap (λ x, x) (videos s0)) ≤ i)%nat → videoAt s' i = None).
Proof.
  intros Hv Hlt. cbv zeta. unfold loadAndPlayArtPiece.
  split; [|split; [done|]].
  - change (videoAt (set_recordingSessions ?x ?y) ?i) with (videoAt y i).
    rewrite videoAt_loadAll. rewrite decide_True by lia. rewrite Nat.sub_0_r.
    unfold savedVideoRefs, saveComposition. simpl.
    rewrite !list_lookup_fmap.
    apply videoAt_lookup in Hv.
    unfold loadedBelow. rewrite (omap_id_lookup_loadedBelow _ _ _ Hv). done.
  - intros i Hi.
    change (videoAt (set_recordingSessions ?x ?y) ?i) with (videoAt y i).
    rewrite videoAt_loadAll.
    assert (videoAt (resetInterface s) i = None) as Hreset
      by apply resetInterface_videoAt.
    destruct (decide _); [|done].
    rewrite Nat.sub_0_r. unfold savedVideoRefs, saveComposition. simpl.
    rewrite !list_lookup_fmap. rewrite lookup_ge_None_2; [done|]. done.
Qed.

Lemma saved_video_lands_compacted_witness :
  let piece := saveComposition "cut" "thumb" 1700000000000 "2024-01-01T00:00:00.000Z"
                               exampleGap in
  let s' := loadAndPlayArtPiece (savedVideoRefs piece) (sessions piece) initialState in
  videoAt s' 0 = Some (freshVideo 0 "https://youtu.be/c" "c") ∧ videoAt s' 2 = None ∧
  (λ x, dom (controlData x)) <$> recordingSessions s' = [{[ 2%nat ]}].
Proof.
  cbv zeta.
  destruct (saved_video_lands_compacted "cut" "thumb" 1700000000000
              "2024-01-01T00:00:00.000Z" exampleGap initialState 2
              (mkVideo "https://youtu.be/c" "c" "Video 3" 50 100 false false false
                       [Some 0%Q; None; None]) eq_refl) as (H1 & H2 & H3).
  { vm_compute. lia. }
  split; [exact H1|]. split; [apply H3; vm_compute; lia|].
  rewrite H2. reflexivity.
Defined.

(** ** Timestamp entry *)

Lemma digit_cases (n : Z) :
  0 ≤ n ≤ 9 → n = 0 ∨ n = 1 ∨ n = 2 ∨ n = 3 ∨ n = 4 ∨ n = 5 ∨ n = 6 ∨ n = 7 ∨ n = 8 ∨ n = 9.
Proof. lia. Qed.

Lemma digitValue_digitChar (n : Z) : 0 ≤ n ≤ 9 → digitValue (digitChar n) = Some n.
Proof.
  intros H. destruct (digit_cases n H) as [->|[->|[->|[->|[->|[->|[->|[->|[->| ->]]]]]]]]];
    reflexivity.
Qed.

Lemma digitValue_inv (c : Ascii.ascii) (n : Z) :
  digitValue c = Some n → 0 ≤ n ≤ 9 ∧ c = digitChar n.
Proof.
  unfold digitValue, digitChar. case_bool_decide as H; [|done]. intros [= <-].
  split; [lia|].
  replace (48 + (Z.of_nat (Ascii.nat_of_ascii c) - 48)) with (Z.of_nat (Ascii.nat_of_ascii c))
    by lia.
  by rewrite Nat2Z.id, Ascii.ascii_nat_embedding.
Qed.

Lemma isDigitKey_inv (key : string) :
  isDigitKey key = true → ∃ n, 0 ≤ n ≤ 9 ∧ key = digitKey n.
Proof.
  destruct key as [|c [|]]; simpl; try done.
  destruct (digitValue c) as [n|] eqn:E; [|done]. intros _.
  apply digitValue_inv in E as [Hn ->]. by exists n.
Qed.

Section Digits.

Context (a b c d e : Z).
Hypothesis (Ha : 0 ≤ a ≤ 9) (Hb : 0 ≤ b ≤ 9) (Hc : 0 ≤ c ≤ 9) (Hd : 0 ≤ d ≤ 9)
  (He : 0 ≤ e ≤ 9).

Lemma parseInt_minutes :
  parseInt (js_substring 0 3 (digitString [a; b; c; d; e])) = Some (100 * a + 10 * b + c).
Proof.
  unfold parseInt, js_substring. simpl.
  rewrite !digitValue_digitChar by done. simpl. f_equal; lia.
Qed.

Lemma parseInt_seconds :
  parseInt (js_substring 3 5 (digitString [a; b; c; d; e])) = Some (10 * d + e).
Proof.
  unfold parseInt, js_substring. simpl.
  rewrite !digitValue_digitChar by done. simpl. f_equal; lia.
Qed.

Lemma parseTimestampFromDigits_digitString :
  parseTimestampFromDigits (digitString [a; b; c; d; e])
  = Some ((100 * a + 10 * b + c) * 60 + (10 * d + e)).
Proof. unfold parseTimestampFromDigits. by rewrite parseInt_minutes, parseInt_seconds. Qed.

Lemma pushDigitRight_digits (pm : bool) (v : string) :
  digits (pushDigitRight (mkTimestampInput (digitString [a; b; c; d; e]) pm v))
  = digitString [0; a; b; c; d] ∧
  pushMode (pushDigitRight (mkTimestampInput (digitString [a; b; c; d; e]) pm v)) = pm.
Proof. done. Qed.

End Digits.

Lemma pushDigitLeft_digits (a b c d e k : Z) (pm : bool) (v : string) :
  0 ≤ a ≤ 9 → 0 ≤ b ≤ 9 → 0 ≤ c ≤ 9 → 0 ≤ d ≤ 9 → 0 ≤ e ≤ 9 → 0 ≤ k ≤ 9 →
  digits (pushDigitLeft (mkTimestampInput (digitString [a; b; c; d; e]) pm v) (digitKey k))
  = (if bool_decide (e ≤ 5) then digitString [b; c; d; e; k] else digitString [a; b; c; d; e]) ∧
  pushMode (pushDigitLeft (mkTimestampInput (digitString [a; b; c; d; e]) pm v) (digitKey k))
  = pm.
Proof.
  intros Ha Hb Hc Hd He Hk. unfold pushDigitLeft.
  change (js_substring_from 1 (digits (mkTimestampInput (digitString [a; b; c; d; e]) pm v))
          +:+ digitKey k) with (digitString [b; c; d; e; k]).
  rewrite parseInt_minutes, parseInt_seconds by done. simpl.
  rewrite bool_decide_eq_false_2 by lia.
  case_bool_decide as H1; case_bool_decide as H2; first [done | lia].
Qed.

Lemma keydown_digitKey_eq (dg v : string) (k : Z) :
  0 ≤ k ≤ 9 →
  keydown (digitKey k) (mkTimestampInput dg true v)
  = pushDigitLeft (mkTimestampInput dg true v) (digitKey k).
Proof.
  intros Hk. unfold keydown.
  rewrite !bool_decide_eq_false_2 by (unfold digitKey; intros [= _ ?]; done).
  assert (isDigitKey (digitKey k) = true) as ->
    by (unfold isDigitKey, digitKey; by rewrite digitValue_digitChar).
  reflexivity.
Qed.

Lemma keydown_digitKey (input : TimestampInput) (a b c d e k : Z) :
  digits input = digitString [a; b; c; d; e] → pushMode input = true →
  0 ≤ a ≤ 9 → 0 ≤ b ≤ 9 → 0 ≤ c ≤ 9 → 0 ≤ d ≤ 9 → 0 ≤ e ≤ 9 → 0 ≤ k ≤ 9 →
  digits (keydown (digitKey k) input)
  = (if bool_decide (e ≤ 5) then digitString [b; c; d; e; k] else digitString [a; b; c; d; e]) ∧
  pushMode (keydown (digitKey k) input) = true.
Proof.
  intros Hdg Hpm Ha Hb Hc Hd He Hk. destruct input as [dg pm v]. simpl in Hdg, Hpm. subst.
  rewrite keydown_digitKey_eq by done.
  by apply pushDigitLeft_digits.
Qed.

Lemma keydown_reachable (key : string) (input : TimestampInput) :
  pushMode input = true →
  (∃ a b c d e, reachableBuffer a b c d e ∧ digits input = digitString [a; b; c; d; e]) →
  pushMode (keydown key input) = true ∧
  ∃ a b c d e, reachableBuffer a b c d e ∧
               digits (keydown key input) = digitString [a; b; c; d; e].
Proof.
  intros Hpm (a & b & c & d & e & Hr & Hdg).
  assert (pushMode input = true ∧
          ∃ a b c d e, reachableBuffer a b c d e ∧ digits input = digitString [a; b; c; d; e])
    as Hsame by (split; [done|]; by exists a, b, c, d, e).
  destruct Hr as (Ha & Hb & Hc & Hd & He).
  unfold keydown.
  case_bool_decide; [done|]. case_bool_decide; [done|].
  case_bool_decide.
  - rewrite Hpm. destruct input as [dg pm v]. simpl in Hdg, Hpm. subst.
    split; [done|]. exists 0, a, b, c, d. split; [|done].
    unfold reachableBuffer. lia.
  - destruct (isDigitKey key) eqn:Ek; [|done].
    apply isDigitKey_inv in Ek as (k & Hk & ->). rewrite Hpm.
    destruct (keydown_digitKey input a b c d e k Hdg Hpm) as [Hdg' Hpm']; try lia.
    destruct input as [dg pm v]. simpl in Hpm. subst pm.
    rewrite keydown_digitKey_eq in Hdg', Hpm' by done.
    split; [done|]. rewrite Hdg'. case_bool_decide.
    + exists b, c, d, e, k. split; [|done]. unfold reachableBuffer. lia.
    + exists a, b, c, d, e. split; [|done]. unfold reachableBuffer. lia.
Qed.

(** X17.  Which times the push-digit editor can hold.  From the fresh
    editor, whatever keys are pressed, the buffer is five digits of
    which the first four are at most 5, and every such buffer is reached
    by typing its five digits.  Hence the time the editor hands over is
    minutes * 60 + seconds with seconds at most 59 and no digit of the
    minutes above 5: times such as 6:00 or 17:30 cannot be entered,
    because the digit that will become the minutes' last digit is
    refused while it passes through the tens of the seconds. *)
Theorem timestamp_entry_reachable_times :
  (∀ keys, ∃ a b c d e,
     reachableBuffer a b c d e ∧
     digits (typeKeys keys) = digitString [a; b; c; d; e] ∧
     parseTimestampFromDigits (digits (typeKeys keys))
     = Some ((100 * a + 10 * b + c) * 60 + (10 * d + e)) ∧
     10 * d + e ≤ 59) ∧
  (∀ a b c d e, reachableBuffer a b c d e →
     digits (typeKeys [digitKey a; digitKey b; digitKey c; digitKey d; digitKey e])
     = digitString [a; b; c; d; e]).
Proof.
  split.
  - intros keys.
    assert (pushMode (typeKeys keys) = true ∧
            ∃ a b c d e, reachableBuffer a b c d e ∧
                         digits (typeKeys keys) = digitString [a; b; c; d; e])
      as (_ & a & b & c & d & e & Hr & Hdg).
    { unfold typeKeys. induction keys as [|key keys IH] using rev_ind.
      - split; [done|]. exists 0, 0, 0, 0, 0. split; [|done]. unfold reachableBuffer. lia.
      - rewrite foldl_app. simpl. destruct IH as [Hpm Hex]. by apply keydown_reachable. }
    exists a, b, c, d, e. split; [done|]. split; [done|].
    destruct Hr as (Ha & Hb & Hc & Hd & He).
    rewrite Hdg. split; [apply parseTimestampFromDigits_digitString; lia|lia].
  - intros a b c d e (Ha & Hb & Hc & Hd & He). unfold typeKeys. simpl.
    destruct (keydown_digitKey newTimestampInput 0 0 0 0 0 a) as [H1 P1]; try done; try lia.
    rewrite bool_decide_eq_true_2 in H1 by lia.
    destruct (keydown_digitKey _ 0 0 0 0 a b H1 P1) as [H2 P2]; try lia.
    rewrite bool_decide_eq_true_2 in H2 by lia.
    destruct (keydown_digitKey _ 0 0 0 a b c H2 P2) as [H3 P3]; try lia.
    rewrite bool_decide_eq_true_2 in H3 by lia.
    destruct (keydown_digitKey _ 0 0 a b c d H3 P3) as [H4 P4]; try lia.
    rewrite bool_decide_eq_true_2 in H4 by lia.
    destruct (keydown_digitKey _ 0 a b c d e H4 P4) as [H5 P5]; try lia.
    rewrite bool_decide_eq_true_2 in H5 by lia.
    exact H5.
Qed.

Lemma timestamp_entry_reachable_times_witness :
  digits (typeKeys [digitKey 0; digitKey 0; digitKey 1; digitKey 2; digitKey 5])
  = digitString [0; 0; 1; 2; 5].
Proof.
  apply timestamp_entry_reachable_times. unfold reachableBuffer. lia.
Defined.

(** ** The transport of the playback page *)

(** X18.  The transport stays inside the piece.  On the playback page,
    from a loaded piece and whatever the order of play / pause presses,
    timer firings, scrubs within the range of the scrubber and replays:
    the timer is set exactly while playback is active, the playback time
    never exceeds the 60000 ms of a piece, and the piece stays loaded. *)
Theorem transport_stays_in_piece (clock : nat → Z) (piece : Composition)
    (p : Playback.PageState) (actions : list Transport.Action) :
  Forall Transport.inRange actions →
  let c := foldl (Transport.act clock) (Transport.loaded piece p) actions in
  Transport.playbackInterval c = Transport.isPlaybackActive c ∧
  Transport.playbackCurrentTime c ≤ Transport.compositionDuration ∧
  Transport.currentArtPiece c = Some piece.
Proof.
  intros Hall. cbv zeta.
  induction actions as [|a actions IH] using rev_ind; [done|].
  apply Forall_app in Hall as [Hall Ha]. rewrite Forall_singleton in Ha.
  specialize (IH Hall). rewrite foldl_app. simpl.
  destruct IH as (Hi & Ht & Hp).
  set (c := foldl (Transport.act clock) (Transport.loaded piece p) actions) in *. clearbody c.
  destruct c as [ap active st ct iv modal pg]. simpl in *. subst.
  unfold Transport.compositionDuration in *.
  destruct a as [now|now|newTime now| |now|slot]; simpl in *.
  - unfold Transport.togglePlayback, Transport.pausePlayback, Transport.startPlayback.
    destruct active; simpl; done.
  - unfold Transport.tick, Transport.updatePlaybackTime, Transport.pausePlayback,
      Transport.showCompletionModal, Transport.compositionDuration.
    destruct active; simpl; [|done].
    case_bool_decide; simpl; [done|]. split; [done|]. split; [lia|done].
  - unfold Transport.compositionDuration in Ha. split; [done|]. split; [lia|done].
  - done.
  - unfold Transport.startPlayback. destruct active; simpl; done.
  - done.
Qed.


Lemma transport_stays_in_piece_witness :
  Transport.playbackCurrentTime
    (foldl (Transport.act (λ _, 1050)) exampleClock
       [Transport.Toggle 1000; Transport.Tick 1050; Transport.Scrub 59000 1060;
        Transport.Tick 5000])
  ≤ Transport.compositionDuration.
Proof.
  apply (transport_stays_in_piece (λ _, 1050) examplePiece examplePage
           [Transport.Toggle 1000; Transport.Tick 1050; Transport.Scrub 59000 1060;
            Transport.Tick 5000]).
  repeat constructor; unfold Transport.compositionDuration; lia.
Defined.

(** X19.  The playback clock continues from where it was put.  With a
    piece loaded and playback paused at time t0, pressing play at clock
    [now] and letting the timer fire at clock [now'] gives the playback
    time t0 + (now' - now) and applies the recorded data at that time
    (volumes, opacities and keyframe jumps, up to the first throw), as
    long as this is below 60000; from there on the firing stops the
    playback at 60000, shows the completion modal and applies nothing.
    So pressing play on a finished piece never plays anything.  A scrub
    to [newTime] during playback re-bases the clock the same way. *)
Theorem transport_continues (clock : nat → Z) (c : Transport.Clock) (piece : Composition)
    (now now' : Z) :
  Transport.currentArtPiece c = Some piece →
  (Transport.isPlaybackActive c = false →
   let t := Transport.playbackCurrentTime c + (now' - now) in
   let c' := Transport.tick clock now' (Transport.togglePlayback now c) in
   (t < 60000 →
    Transport.playbackCurrentTime c' = t ∧ Transport.isPlaybackActive c' = true ∧
    Transport.page c'
    = Playback.outcomeState
        (Playback.applyRecordedDataAtTime clock (Some piece) t (Transport.page c))) ∧
   (60000 ≤ t →
    Transport.playbackCurrentTime c' = 60000 ∧ Transport.isPlaybackActive c' = false ∧
    Transport.playbackInterval c' = false ∧ Transport.completionModal c' = true ∧
    Transport.page c' = Transport.page c)) ∧
  (Transport.isPlaybackActive c = true → Transport.playbackInterval c = true →
   ∀ newTime,
     let t := newTime + (now' - now) in
     let c' := Transport.tick clock now' (Transport.scrubPlayback clock newTime now c) in
     t < 60000 →
     Transport.playbackCurrentTime c' = t ∧
     Transport.page c'
     = Playback.outcomeState
         (Playback.applyRecordedDataAtTime clock (Some piece) t
            (Playback.outcomeState
               (Playback.applyRecordedDataAtTime clock (Some piece) newTime
                  (Transport.page c))))).
Proof.
  intros Hp. destruct c as [ap active st ct iv modal pg]. simpl in Hp. subst ap. split.
  - simpl. intros ->.
    unfold Transport.togglePlayback, Transport.startPlayback, Transport.tick,
      Transport.updatePlaybackTime, Transport.pausePlayback, Transport.showCompletionModal,
      Transport.compositionDuration. simpl.
    replace (now' - (now - ct)) with (ct + (now' - now)) by lia.
    split; intros Ht.
    + rewrite bool_decide_eq_false_2 by lia. done.
    + rewrite bool_decide_eq_true_2 by lia. done.
  - simpl. intros -> -> newTime Ht.
    unfold Transport.scrubPlayback, Transport.tick, Transport.updatePlaybackTime,
      Transport.compositionDuration. simpl.
    replace (now' - (now - newTime)) with (newTime + (now' - now)) by lia.
    rewrite bool_decide_eq_false_2 by lia. done.
Qed.

Lemma transport_continues_witness :
  Transport.playbackCurrentTime
    (Transport.tick (λ _, 1300) 1300 (Transport.togglePlayback 1000 exampleClock))
  = 0 + (1300 - 1000).
Proof.
  destruct (transport_continues (λ _, 1300) exampleClock examplePiece 1000 1300 eq_refl)
    as [H _].
  destruct (H eq_refl) as [H1 _]. apply H1. reflexivity.
Defined.

(** ** The gallery list *)

Lemma isMyCut_negb (cut : Composition) :
  GalleryList.isMyCut cut = negb (GalleryList.isImported cut).
Proof.
  unfold GalleryList.isMyCut, GalleryList.isImported.
  by destruct (GalleryList.truthy _), (GalleryList.truthy _), (GalleryList.includes _ _).
Qed.

Lemma length_filter_negb {A} (f : A → bool) (l : list A) :
  (length (List.filter f l) + length (List.filter (λ x, negb (f x)) l))%nat = length l.
Proof.
  induction l as [|x l IH]; simpl; [done|]. destruct (f x); simpl; lia.
Qed.

Section GalleryListing.

Context (toLowerCase : string → string).

(** X20.  The category filters split the gallery.  Without a search
    term, every saved cut is listed under exactly one of 'my-cuts' and
    'imported', each view keeps the order of the gallery, any other
    filter value lists everything, and the three badges show the
    lengths of the three views.  A search term only removes cuts from a
    view. *)
Theorem gallery_filters_partition (savedCuts : list Composition) :
  let mine := GalleryList.getFilteredCuts toLowerCase "my-cuts" "" savedCuts in
  let imported := GalleryList.getFilteredCuts toLowerCase "imported" "" savedCuts in
  let counts := GalleryList.updateFilterCounts savedCuts in
  (∀ cut, cut ∈ savedCuts → (cut ∈ mine ∧ cut ∉ imported) ∨ (cut ∈ imported ∧ cut ∉ mine)) ∧
  mine `sublist_of` savedCuts ∧ imported `sublist_of` savedCuts ∧
  GalleryList.getFilteredCuts toLowerCase "all" "" savedCuts = savedCuts ∧
  GalleryList.countAll counts = Z.of_nat (length savedCuts) ∧
  GalleryList.countMyCuts counts = Z.of_nat (length mine) ∧
  GalleryList.countImported counts = Z.of_nat (length imported) ∧
  (∀ currentFilter currentSearchTerm,
     GalleryList.getFilteredCuts toLowerCase currentFilter currentSearchTerm savedCuts
     `sublist_of` GalleryList.getFilteredCuts toLowerCase currentFilter "" savedCuts).
Proof.
  cbv zeta.
  assert (∀ (f : Composition → bool) l, List.filter f l `sublist_of` l) as Hsub.
  { intros f l. induction l as [|x l IH]; simpl; [done|].
    destruct (f x); [by apply sublist_skip|by apply sublist_cons]. }
  assert (∀ (f : Composition → bool) l x, x ∈ List.filter f l ↔ x ∈ l ∧ f x = true) as Hin.
  { intros f l x. rewrite !list_elem_of_In. apply filter_In. }
  change (GalleryList.getFilteredCuts toLowerCase "my-cuts" "" savedCuts)
    with (List.filter GalleryList.isMyCut savedCuts).
  change (GalleryList.getFilteredCuts toLowerCase "imported" "" savedCuts)
    with (List.filter GalleryList.isImported savedCuts).
  change (GalleryList.getFilteredCuts toLowerCase "all" "" savedCuts) with savedCuts.
  split; [|split; [apply Hsub|split; [apply Hsub|split; [done|split; [done|split; [|split; [done|]]]]]]].
  - intros cut Hc. rewrite !Hin, isMyCut_negb.
    destruct (GalleryList.isImported cut); simpl; [right|left]; naive_solver.
  - unfold GalleryList.updateFilterCounts. simpl.
    pose proof (length_filter_negb GalleryList.isImported savedCuts) as Hlen.
    assert (List.filter GalleryList.isMyCut savedCuts
            = List.filter (λ x, negb (GalleryList.isImported x)) savedCuts) as ->.
    { apply List.filter_ext. intros. apply isMyCut_negb. }
    lia.
  - intros currentFilter currentSearchTerm. unfold GalleryList.getFilteredCuts.
    simpl. destruct (negb (bool_decide (currentSearchTerm = ""))); [apply Hsub|done].
Qed.

End GalleryListing.

Lemma gallery_filters_partition_witness :
  exampleImported
  ∈ GalleryList.getFilteredCuts (λ str, str) "imported" "" [examplePiece; exampleImported] ∧
  exampleImported
  ∉ GalleryList.getFilteredCuts (λ str, str) "my-cuts" "" [examplePiece; exampleImported].
Proof.
  destruct (gallery_filters_partition (λ str, str) [examplePiece; exampleImported])
    as (H & _).
  destruct (H exampleImported) as [[H1 H2]|H1]; [by right; left| |exact H1].
  exfalso. apply H2. change (exampleImported ∈ [exampleImported]). by left.
Defined.

Lemma find_snoc_fresh {A} (f : A → bool) (l : list A) (x : A) :
  List.find f l = None → f x = true → List.find f (l ++ [x]) = Some x.
Proof.
  intros Hl Hx. induction l as [|y l IH]; simpl in *; [by rewrite Hx|].
  destruct (f y); [done|]. by apply IH.
Qed.

Lemma filter_snoc_fresh {A} (f : A → bool) (l : list A) (x : A) :
  (∀ y, y ∈ l → f y = true) → f x = false → List.filter f (l ++ [x]) = l.
Proof.
  intros Hl Hx. induction l as [|y l IH]; simpl; [by rewrite Hx|].
  rewrite (Hl y) by (by left). f_equal. apply IH. intros z Hz. apply Hl. by right.
Qed.

Section GalleryImport.

Context (looseEq : Id → string → bool) (hashString : Composition → list Z).
Context (toLowerCase : string → string).

(** X21.  An imported cut in the gallery.  When the importer accepts a
    file, the cut it appends carries the new id, the file's own name as
    [originalName] and the hash of the file, so that: it is listed
    under 'imported' and not under 'my-cuts'; importing the same file
    again, at any later time, is refused as a duplicate of that very
    cut; and, provided the new id is loosely equal to itself and to no
    id already in the gallery, deleting it by its id gives back the
    gallery as it was before the import. *)
Theorem imported_cut_in_gallery (e : Gallery.ExportData) (env env' : Gallery.ImportEnv)
    (gallery gallery' : list Composition) (piece' : Composition) :
  Gallery.processImportedData hashString (Gallery.readBack e) env gallery
    = Gallery.Imported gallery' piece' →
  artId piece' = IdStr (Gallery.newId env) ∧
  originalName piece' = Some (artName (Gallery.artPiece e)) ∧
  compositionHash piece'
    = Some (Gallery.generateCompositionHash hashString (Gallery.artPiece e)) ∧
  piece' ∈ GalleryList.getFilteredCuts toLowerCase "imported" "" gallery' ∧
  (piece' ∉ GalleryList.getFilteredCuts toLowerCase "my-cuts" "" gallery') ∧
  Gallery.processImportedData hashString (Gallery.readBack e) env' gallery'
    = Gallery.DuplicateFound piece' ∧
  (looseEq (IdStr (Gallery.newId env)) (Gallery.newId env) = true →
   (∀ cut, cut ∈ gallery → looseEq (artId cut) (Gallery.newId env) = false) →
   GalleryList.actuallyDeleteCut looseEq (Gallery.newId env) gallery' = gallery).
Proof.
  rewrite !readBack_exportData. unfold Gallery.processImportedData.
  destruct (Gallery.idFalsy (artId (Gallery.artPiece e))
            || bool_decide (artName (Gallery.artPiece e) = "")) eqn:Ev; [done|].
  apply orb_false_iff in Ev as [_ Hname]. apply bool_decide_eq_false in Hname.
  set (h := Gallery.generateCompositionHash hashString (Gallery.artPiece e)).
  destruct (List.find (λ cut, bool_decide (compositionHash cut = Some h)) gallery)
    as [dup|] eqn:Hfind; [done|].
  intros [= <- <-].
  set (piece' := mkComposition _ _ _ _ _ _ _ _ _ _).
  assert (GalleryList.isImported piece' = true) as Himp.
  { unfold GalleryList.isImported. simpl.
    rewrite (bool_decide_eq_false_2 _ Hname). simpl. by rewrite orb_true_r. }
  assert (∀ (f : Composition → bool) l x, x ∈ List.filter f l ↔ x ∈ l ∧ f x = true) as Hin.
  { intros f l x. rewrite !list_elem_of_In. apply filter_In. }
  split; [done|]. split; [done|]. split; [done|].
  change (GalleryList.getFilteredCuts toLowerCase "imported" "" (gallery ++ [piece']))
    with (List.filter GalleryList.isImported (gallery ++ [piece'])).
  change (GalleryList.getFilteredCuts toLowerCase "my-cuts" "" (gallery ++ [piece']))
    with (List.filter GalleryList.isMyCut (gallery ++ [piece'])).
  split; [|split; [|split]].
  - apply Hin. split; [|done]. apply elem_of_app. right. by left.
  - rewrite Hin, isMyCut_negb, Himp. simpl. by intros [_ ?].
  - rewrite (find_snoc_fresh _ _ piece' Hfind); [done|]. by apply bool_decide_eq_true.
  - intros Hself Hothers. unfold GalleryList.actuallyDeleteCut.
    assert (List.find (λ piece, looseEq (artId piece) (Gallery.newId env)) (gallery ++ [piece'])
            = Some piece') as ->.
    { apply find_snoc_fresh; [|done].
      destruct (List.find (λ piece, looseEq (artId piece) (Gallery.newId env)) gallery)
        as [x|] eqn:Ex; [|done].
      apply find_some in Ex as [Hx1 Hx2]. apply list_elem_of_In in Hx1.
      by rewrite (Hothers x Hx1) in Hx2. }
    apply filter_snoc_fresh.
    + intros y Hy. by rewrite (Hothers y Hy).
    + simpl. by rewrite Hself.
Qed.

End GalleryImport.

Lemma imported_cut_in_gallery_witness :
  Gallery.processImportedData (λ _, [])
    (Gallery.readBack
       (Gallery.mkExportData "1.0" "2024-01-02T00:00:00.000Z" "Splice" examplePiece))
    exampleImportEnv [exampleImported]
  = Gallery.DuplicateFound exampleImported.
Proof.
  apply (imported_cut_in_gallery (λ _ _, true) (λ _, []) (λ str, str)
           (Gallery.mkExportData "1.0" "2024-01-02T00:00:00.000Z" "Splice" examplePiece)
           exampleImportEnv exampleImportEnv [] [exampleImported] exampleImported eq_refl).
Defined.

(** ** Link and lock flags *)

Lemma flagsKept_refl s : flagsKept s s.
Proof. intros slot v' H. left. by exists v'. Qed.

Lemma flagsKept_trans s1 s2 s3 : flagsKept s1 s2 → flagsKept s2 s3 → flagsKept s1 s3.
Proof.
  intros H12 H23 slot v3 H3.
  destruct (H23 slot v3 H3) as [(v2 & H2 & F23)|Hfresh]; [|by right].
  destruct (H12 slot v2 H2) as [(v1 & H1 & F12)|Hfresh].
  - left. exists v1. split; [done|]. unfold sameFlags in *. naive_solver congruence.
  - right. unfold sameFlags in *. naive_solver congruence.
Qed.

Lemma flagsKept_videoAt s s' : (∀ j, videoAt s' j = videoAt s j) → flagsKept s s'.
Proof. intros H slot v' Hv. left. exists v'. by rewrite <- H. Qed.

Lemma flagsKept_videos s s' : videos s' = videos s → flagsKept s s'.
Proof. intros H. apply flagsKept_videoAt. intros j. unfold videoAt. by rewrite H. Qed.

Lemma flagsKept_setVideo s slot v v' :
  videoAt s slot = Some v → sameFlags v v' → flagsKept s (setVideo slot v' s).
Proof.
  intros Hv Hf j w. rewrite videoAt_setVideo. destruct (decide (j = slot)) as [->|].
  - intros [= <-]. left. by exists v.
  - intros Hw. left. by exists w.
Qed.

Lemma flagsKept_forEachVideo (f : Video → nat → State → State) (s : State) :
  (∀ v slot acc, videoAt acc slot = Some v → flagsKept acc (f v slot acc)) →
  flagsKept s (forEachVideo f s).
Proof.
  intros Hf. unfold forEachVideo. generalize (seq 0 (length (videos s))). intros l.
  revert s. induction l as [|i l IH]; intros s; simpl; [apply flagsKept_refl|].
  eapply flagsKept_trans; [|apply IH].
  destruct (videoAt s i) eqn:E; [by apply Hf|apply flagsKept_refl].
Qed.

Lemma flagsKept_hijackControl slot ct now s : flagsKept s (hijackControl slot ct now s).
Proof. apply flagsKept_videos, hijackControl_videos. Qed.

Lemma flagsKept_linkedControlStep src type change now video slot s :
  videoAt s slot = Some video →
  flagsKept s (linkedControlStep src type change now video slot s).
Proof.
  intros Hv j w. rewrite (linkedControlStep_videoAt _ _ _ _ _ _ _ _ Hv).
  destruct (decide (j = slot)) as [->|].
  - intros [= <-]. left. exists video. split; [done|].
    destruct (linkedVideo_flags src type change slot video) as (? & ? & ?). by repeat split.
  - intros Hw. left. by exists w.
Qed.

Lemma flagsKept_updateLinkedControls src type oldValue newValue now s :
  flagsKept s (updateLinkedControls src type oldValue newValue now s).
Proof.
  unfold updateLinkedControls. destruct (videoAt s src); [|apply flagsKept_refl].
  destruct (negb (linked v)); [apply flagsKept_refl|].
  apply flagsKept_forEachVideo. intros. by apply flagsKept_linkedControlStep.
Qed.

Lemma flagsKept_propagateToLinked slot type oldValue newValue now s :
  flagsKept s (propagateToLinked slot type oldValue newValue now s).
Proof.
  unfold propagateToLinked. destruct (videoAt s slot); [|apply flagsKept_refl].
  destruct (linked v && negb (isReceivingLink s)); [|apply flagsKept_refl].
  apply (flagsKept_trans _ (set_isReceivingLink true s)); [by apply flagsKept_videos|].
  eapply flagsKept_trans; [apply flagsKept_updateLinkedControls|]. by apply flagsKept_videos.
Qed.

Lemma sameFlags_set_volume x v : sameFlags v (set_volume x v).
Proof. done. Qed.

Lemma sameFlags_set_opacity x v : sameFlags v (set_opacity x v).
Proof. done. Qed.

Lemma sameFlags_set_keyframes x v : sameFlags v (set_keyframes x v).
Proof. done. Qed.

Lemma flagsKept_updateOpacityImmediate_skip slot x now s :
  flagsKept s (updateOpacityImmediate_skip slot x now s).
Proof.
  unfold updateOpacityImmediate_skip. destruct (videoAt s slot) as [v|] eqn:Hv;
    [|apply flagsKept_refl].
  destruct (isReceivingLink s); [apply flagsKept_refl|].
  eapply flagsKept_trans; [|apply flagsKept_propagateToLinked].
  apply (flagsKept_trans _ (setVideo slot (set_opacity x v) s)).
  - by apply flagsKept_setVideo with v.
  - by apply flagsKept_videos.
Qed.

Lemma flagsKept_updateVolumeImmediate_skip slot x now s :
  flagsKept s (updateVolumeImmediate_skip slot x now s).
Proof.
  unfold updateVolumeImmediate_skip. destruct (videoAt s slot) as [v|] eqn:Hv;
    [|apply flagsKept_refl].
  destruct (isReceivingLink s); [apply flagsKept_refl|].
  eapply flagsKept_trans; [|apply flagsKept_propagateToLinked].
  by apply flagsKept_setVideo with v.
Qed.

Lemma flagsKept_updateVolumeImmediate slot x skip now s :
  flagsKept s (outcomeState (updateVolumeImmediate slot x skip now s)).
Proof.
  unfold updateVolumeImmediate. destruct skip; [apply flagsKept_updateVolumeImmediate_skip|].
  destruct (videoAt s slot) as [v|] eqn:Hv; [|apply flagsKept_refl].
  destruct (isReceivingLink s); [apply flagsKept_refl|].
  assert (flagsKept s (setVideo slot (set_volume x v) s)) as H1
    by (by apply flagsKept_setVideo with v).
  destruct (volumeOpacityLinked v).
  - destruct (opcSlider _ !! slot); simpl; [|done].
    eapply flagsKept_trans; [|apply flagsKept_propagateToLinked].
    eapply flagsKept_trans; [|apply flagsKept_updateOpacityImmediate_skip].
    eapply flagsKept_trans; [exact H1|]. by apply flagsKept_videos.
  - simpl. eapply flagsKept_trans; [exact H1|apply flagsKept_propagateToLinked].
Qed.

Lemma flagsKept_updateOpacityImmediate slot x skip now s :
  flagsKept s (outcomeState (updateOpacityImmediate slot x skip now s)).
Proof.
  unfold updateOpacityImmediate. destruct skip; [apply flagsKept_updateOpacityImmediate_skip|].
  destruct (videoAt s slot) as [v|] eqn:Hv; [|apply flagsKept_refl].
  destruct (isReceivingLink s); [apply flagsKept_refl|].
  assert (flagsKept s (updateAllLayersOpacity slot x (setVideo slot (set_opacity x v) s))) as H1.
  { apply (flagsKept_trans _ (setVideo slot (set_opacity x v) s)).
    - by apply flagsKept_setVideo with v.
    - by apply flagsKept_videos. }
  destruct (volumeOpacityLinked v).
  - destruct (volSlider _ !! slot); simpl; [|done].
    eapply flagsKept_trans; [|apply flagsKept_propagateToLinked].
    eapply flagsKept_trans; [|apply flagsKept_updateVolumeImmediate_skip].
    eapply flagsKept_trans; [exact H1|]. by apply flagsKept_videos.
  - simpl. eapply flagsKept_trans; [exact H1|apply flagsKept_propagateToLinked].
Qed.

Lemma videos_recordControlChangeThrottled slot ct v now stampNow s :
  videos (recordControlChangeThrottled slot ct v now stampNow s) = videos s.
Proof.
  unfold recordControlChangeThrottled, recordControlChange.
  destruct (isRecording s) eqn:E; simpl; [|done].
  case_bool_decide; simpl; [|done]. by rewrite E.
Qed.

Lemma videos_recordTimestampChange slot idx t a now s :
  videos (recordTimestampChange slot idx t a now s) = videos s.
Proof. unfold recordTimestampChange. by destruct (isRecording s). Qed.

Lemma flagsKept_handle (e : Event) (s : State) : flagsKept s (handle e s).
Proof.
  destruct e; simpl.
  - apply flagsKept_videos. unfold toggleRecording, startRecordingSession, startPlaybackMode.
    repeat case_match; simpl; try done.
    all: repeat match goal with H : (_, _) = (_, _) |- _ => injection H as <- _ end; try done.
  - destruct (isCountdown s); [|apply flagsKept_refl].
    apply flagsKept_videos.
    destruct (startActualRecording now s) as [s'|s'] eqn:E; simpl;
      [apply startActualRecording_Done in E|apply startActualRecording_Thrown in E];
      by destruct E as (_ & _ & _ & _ & _ & _ & H & _).
  - destruct (isRecording s); [|apply flagsKept_refl].
    apply flagsKept_videos. unfold stopRecording, onLoadedSliders.
    by rewrite (forEachVideo_preserves videos) by done.
  - unfold updateVolume.
    pose proof (flagsKept_updateVolumeImmediate slot v false now s) as H.
    destruct (updateVolumeImmediate slot v false now s) as [s1|s1]; simpl in H; [|done].
    destruct (isRecording s1); [|done].
    eapply flagsKept_trans; [exact H|].
    apply flagsKept_videos, videos_recordControlChangeThrottled.
  - unfold updateVolumeDebounced. repeat case_match; try apply flagsKept_refl.
    apply flagsKept_hijackControl.
  - unfold updateOpacity.
    pose proof (flagsKept_updateOpacityImmediate slot v false now s) as H.
    destruct (updateOpacityImmediate slot v false now s) as [s1|s1]; simpl in H; [|done].
    destruct (isRecording s1); [|done].
    eapply flagsKept_trans; [exact H|].
    apply flagsKept_videos, videos_recordControlChangeThrottled.
  - unfold updateOpacityDebounced. repeat case_match; try apply flagsKept_refl.
    apply flagsKept_hijackControl.
  - unfold setKeyframe.
    destruct (videoAt s slot) as [video|] eqn:Hv; [|apply flagsKept_refl].
    destruct (previewPlayers s !! slot); [|apply flagsKept_refl].
    destruct (locked video); [apply flagsKept_refl|].
    set (s1 := if isPlaybackMode s then hijackControl slot Timestamps now s else s).
    assert (∀ j, videoAt s1 j = videoAt s j) as H1.
    { intros j. subst s1. destruct (isPlaybackMode s); [apply hijackControl_videoAt|done]. }
    destruct playerTime as [t|]; [|by apply flagsKept_videoAt].
    apply (flagsKept_trans _ s1); [by apply flagsKept_videoAt|].
    set (s2 := setVideo slot _ s1).
    apply (flagsKept_trans _ s2).
    + apply flagsKept_setVideo with video; [by rewrite H1|done].
    + destruct (isRecording s2); [|apply flagsKept_refl].
      apply flagsKept_videos, videos_recordTimestampChange.
  - apply flagsKept_videoAt. intros j. unfold jumpToKeyframe.
    destruct (videoAt s slot) as [video|]; [|done].
    destruct (keyframes video !! idx) as [[targetTime|]|]; try done.
    destruct (locked video); [done|].
    set (s1 := if isPlaybackMode s && isRecording s
               then hijackControl slot Timestamps now s else s).
    assert (videoAt s1 j = videoAt s j) as H1.
    { subst s1. destruct (_ && _); [apply hijackControl_videoAt|done]. }
    clearbody s1.
    destruct (previewPlayers s1 !! slot) as [p|]; [|done].
    destruct (isSyncLocked s1 slot); [done|].
    destruct (playerReady p); [|done].
    match goal with |- context [if ?b then _ else _] => destruct b end; [|done].
    by rewrite videoAt_recordTimestampChange.
  - unfold deleteKeyframe.
    destruct (videoAt s slot) as [video|] eqn:Hv; [|apply flagsKept_refl].
    destruct (locked video); [apply flagsKept_refl|].
    set (s1 := if isPlaybackMode s then hijackControl slot Timestamps now s else s).
    assert (∀ j, videoAt s1 j = videoAt s j) as H1.
    { intros j. subst s1. destruct (isPlaybackMode s); [apply hijackControl_videoAt|done]. }
    apply (flagsKept_trans _ s1); [by apply flagsKept_videoAt|].
    set (s2 := setVideo slot _ s1).
    apply (flagsKept_trans _ s2).
    + apply flagsKept_setVideo with video; [by rewrite H1|done].
    + destruct (isRecording s2); [|apply flagsKept_refl].
      apply flagsKept_videos, videos_recordTimestampChange.
  - apply flagsKept_videoAt. intros j. apply timelineView_videoAt.
    unfold playbackTick. destruct (playbackInterval s) as [t0|]; [|done].
    pose proof (timelineView_replay (recordingSessions s) (now - t0) s) as H.
    destruct (playbackAllSessions _ _ _) as [s1|s1]; simpl in H; [|done].
    by destruct (bool_decide _).
  - intros j w. rewrite videoAt_loadVideoInSlot. destruct (decide (j = slot)) as [->|].
    + intros [= <-]. by right.
    + intros Hw. left. by exists w.
  - intros j w Hw. left. exists w. split; [|done].
    pose proof (moduleView_actuallyRemoveVideo slot s j) as HM.
    destruct (decide (j = slot)) as [->|].
    + assert (videoAt (actuallyRemoveVideo slot s) slot = None) as E
        by (unfold moduleView in HM; by injection HM).
      by rewrite E in Hw.
    + apply moduleView_videoAt in HM. by rewrite <- HM.
  - intros j w Hw. by rewrite resetInterface_videoAt in Hw.
  - intros j w. unfold loadAndPlayArtPiece.
    change (videoAt (set_recordingSessions ?x ?y) ?i) with (videoAt y i).
    rewrite videoAt_loadAll.
    assert (videoAt (resetInterface s) j = None) as ->
      by apply resetInterface_videoAt.
    destruct (decide _); [|done]. destruct (vs !! _); [|done].
    intros [= <-]. by right.
Qed.

(** X22.  The engine never changes a link or lock flag.  After any run
    of events of the engine (recording, slider, keyframe, replay, load,
    remove, reset), the video of a slot has the cross-link, tie and lock
    flags of the video the slot held before the run, or is a newly
    loaded video with all three flags off; only the three toggles change
    a flag. *)
Theorem events_keep_flags (events : list Event) (s : State) (slot : nat) (v' : Video) :
  videoAt (foldl (λ acc e, handle e acc) s events) slot = Some v' →
  (∃ v, videoAt s slot = Some v ∧ linked v' = linked v ∧
        volumeOpacityLinked v' = volumeOpacityLinked v ∧ locked v' = locked v) ∨
  (linked v' = false ∧ volumeOpacityLinked v' = false ∧ locked v' = false).
Proof.
  assert (flagsKept s (foldl (λ acc e, handle e acc) s events)) as H.
  { induction events as [|e events IH] using rev_ind; [apply flagsKept_refl|].
    rewrite foldl_app. simpl.
    eapply flagsKept_trans; [exact IH|apply flagsKept_handle]. }
  apply H.
Qed.

Lemma events_keep_flags_witness :
  let v' := mkVideo "https://youtu.be/c" "c" "Video 3" 40 100 true false true
                    [Some 0%Q; None; None] in
  (∃ v, videoAt exampleLinked 2 = Some v ∧ linked v' = linked v ∧
        volumeOpacityLinked v' = volumeOpacityLinked v ∧ locked v' = locked v) ∨
  (linked v' = false ∧ volumeOpacityLinked v' = false ∧ locked v' = false).
Proof.
  apply (events_keep_flags [EvUpdateVolume 0 70 2000 2001; EvSetKeyframe 1 1 (Some 3%Q) 2100]
           exampleLinked 2).
  reflexivity.
Defined.

Lemma allVideos_flagsKept (P : Video → Prop) (s s' : State) :
  flagProperty P →
  (∀ v, linked v = false → volumeOpacityLinked v = false → locked v = false → P v) →
  flagsKept s s' → allVideos P s → allVideos P s'.
Proof.
  intros HP Hfresh Hk Hs slot v' Hv'.
  destruct (Hk slot v' Hv') as [(v & Hv & H1 & H2 & H3)|(H1 & H2 & H3)].
  - apply (HP v v'); try done. by apply (Hs slot).
  - by apply Hfresh.
Qed.

Lemma lockedUntied_flagProperty : flagProperty lockedUntied.
Proof. intros v v' _ H2 H3 HP. unfold lockedUntied in *. rewrite H2, H3. done. Qed.

Lemma videoAt_toggleLink slot d1 d2 s j :
  videoAt (toggleLink slot d1 d2 s) j
  = if decide (j = slot)
    then (λ v, if locked v then v else set_linked (negb (linked v)) v) <$> videoAt s slot
    else videoAt s j.
Proof.
  unfold toggleLink. destruct (videoAt s slot) as [v|] eqn:Hv; simpl.
  - destruct (locked v) eqn:Hl.
    + destruct (decide (j = slot)) as [->|]; [|done]. by rewrite Hv.
    + match goal with |- videoAt ?x j = _ =>
        assert (videoAt x j = videoAt (setVideo slot (set_linked (negb (linked v)) v) s) j)
          as -> by (by repeat case_match)
      end.
      apply videoAt_setVideo.
  - destruct (decide (j = slot)) as [->|]; [|done]. by rewrite Hv.
Qed.

Lemma videoAt_toggleVolumeOpacityLink slot s j :
  videoAt (toggleVolumeOpacityLink slot s) j
  = if decide (j = slot)
    then (λ v, if bool_decide (videoId v = EmptyString) || locked v then v
               else set_volumeOpacityLinked (negb (volumeOpacityLinked v)) v)
         <$> videoAt s slot
    else videoAt s j.
Proof.
  unfold toggleVolumeOpacityLink. destruct (videoAt s slot) as [v|] eqn:Hv; simpl.
  - destruct (_ || _).
    + destruct (decide (j = slot)) as [->|]; [|done]. by rewrite Hv.
    + apply videoAt_setVideo.
  - destruct (decide (j = slot)) as [->|]; [|done]. by rewrite Hv.
Qed.

Lemma videoAt_toggleLock slot s j :
  videoAt (toggleLock slot s) j
  = if decide (j = slot)
    then (λ v, if bool_decide (videoId v = EmptyString) then v
               else if locked v then set_locked false v
               else set_locked true (set_volumeOpacityLinked false v))
         <$> videoAt s slot
    else videoAt s j.
Proof.
  unfold toggleLock. destruct (videoAt s slot) as [v|] eqn:Hv; simpl.
  - destruct (bool_decide _).
    + destruct (decide (j = slot)) as [->|]; [|done]. by rewrite Hv.
    + rewrite videoAt_setVideo. destruct (decide (j = slot)) as [->|]; [|done].
      f_equal. destruct v as [? ? ? ? ? ? vo lk ?]. by destruct lk, vo.
  - destruct (decide (j = slot)) as [->|]; [|done]. by rewrite Hv.
Qed.

Lemma lockedUntied_act (s : State) (a : UserAction) :
  allVideos lockedUntied s → allVideos lockedUntied (act s a).
Proof.
  intros Hs. destruct a as [e|slot d1 d2|slot|slot]; simpl.
  - apply (allVideos_flagsKept lockedUntied s); try done.
    + apply lockedUntied_flagProperty.
    + intros v _ _ Hl. unfold lockedUntied. by rewrite Hl.
    + apply flagsKept_handle.
  - intros j w. rewrite videoAt_toggleLink. destruct (decide (j = slot)) as [->|]; [|apply Hs].
    destruct (videoAt s slot) as [v|] eqn:Hv; [|done]. simpl. intros [= <-].
    pose proof (Hs slot v Hv) as HP. by destruct (locked v) eqn:Hl.
  - intros j w. rewrite videoAt_toggleVolumeOpacityLink.
    destruct (decide (j = slot)) as [->|]; [|apply Hs].
    destruct (videoAt s slot) as [v|] eqn:Hv; [|done]. simpl. intros [= <-].
    pose proof (Hs slot v Hv) as HP.
    destruct (bool_decide _); simpl; [done|]. destruct (locked v) eqn:Hl; [done|].
    unfold lockedUntied. simpl. by rewrite Hl.
  - intros j w. rewrite videoAt_toggleLock.
    destruct (decide (j = slot)) as [->|]; [|apply Hs].
    destruct (videoAt s slot) as [v|] eqn:Hv; [|done]. simpl. intros [= <-].
    pose proof (Hs slot v Hv) as HP.
    destruct (bool_decide _); [done|]. by destruct (locked v).
Qed.

(** X23.  A locked module never has its volume tied to its opacity.
    From the initial page, after any run of engine events and of the
    link, tie and lock toggles, every loaded video that is locked has
    [volumeOpacityLinked] off. *)
Theorem locked_modules_are_untied (actions : list UserAction) (slot : nat) (v : Video) :
  videoAt (runActions actions) slot = Some v → locked v = true →
  volumeOpacityLinked v = false.
Proof.
  assert (allVideos lockedUntied (runActions actions)) as H.
  { unfold runActions. induction actions as [|a actions IH] using rev_ind.
    - by intros j w.
    - rewrite foldl_app. simpl. by apply lockedUntied_act. }
  intros Hv. by apply (H slot).
Qed.

Lemma locked_modules_are_untied_witness :
  ∃ v, videoAt (runActions [ActEvent (EvLoadVideo 0 "https://youtu.be/a" "a");
                            ActToggleVolumeOpacityLink 0; ActToggleLock 0]) 0 = Some v ∧
       locked v = true ∧ volumeOpacityLinked v = false.
Proof.
  eexists. split; [reflexivity|]. split; [reflexivity|].
  apply (locked_modules_are_untied
           [ActEvent (EvLoadVideo 0 "https://youtu.be/a" "a");
            ActToggleVolumeOpacityLink 0; ActToggleLock 0] 0 _ eq_refl eq_refl).
Defined.

(** X24.  Locking is not undone by unlocking.  Locking an unlocked
    module turns its tie between volume and opacity off, and while it
    is locked the link toggle and the tie toggle do nothing to it;
    unlocking it again gives back the video it was, cross-link, values
    and keyframes included, except that the tie stays off.  No other
    slot is touched. *)
Theorem lock_then_unlock_loses_tie (slot : nat) (s : State) (v : Video) :
  videoAt s slot = Some v → videoId v ≠ EmptyString → locked v = false →
  let s1 := toggleLock slot s in
  let s2 := toggleLock slot s1 in
  videoAt s1 slot = Some (set_locked true (set_volumeOpacityLinked false v)) ∧
  (∀ volDisabled opcDisabled, toggleLink slot volDisabled opcDisabled s1 = s1) ∧
  toggleVolumeOpacityLink slot s1 = s1 ∧
  videoAt s2 slot = Some (set_volumeOpacityLinked false v) ∧
  (∀ j, j ≠ slot → videoAt s1 j = videoAt s j ∧ videoAt s2 j = videoAt s j).
Proof.
  intros Hv Hid Hl. cbv zeta.
  assert (videoAt (toggleLock slot s) slot
          = Some (set_locked true (set_volumeOpacityLinked false v))) as H1.
  { rewrite videoAt_toggleLock, decide_True by done. rewrite Hv. simpl.
    by rewrite bool_decide_eq_false_2, Hl by done. }
  split; [exact H1|]. split; [|split; [|split]].
  - intros d1 d2. unfold toggleLink. by rewrite H1.
  - unfold toggleVolumeOpacityLink. rewrite H1. simpl. by rewrite orb_true_r.
  - rewrite videoAt_toggleLock, decide_True by done. rewrite H1. simpl.
    rewrite bool_decide_eq_false_2 by done. f_equal.
    destruct v as [? ? ? ? ? ? vo lk ?]. simpl in Hl. by subst lk.
  - intros j Hj. rewrite !videoAt_toggleLock. by rewrite !decide_False by done.
Qed.

Lemma lock_then_unlock_loses_tie_witness :
  volumeOpacityLinked <$> videoAt (toggleLock 0 (toggleLock 0 exampleOverdub)) 0 = Some false.
Proof.
  destruct (lock_then_unlock_loses_tie 0 exampleOverdub exampleVideoTied eq_refl)
    as (_ & _ & _ & H & _); [done|reflexivity|].
  by rewrite H.
Defined.

(** ** Both replayers on recorded arrays *)








(** ** The end of the overdub replay *)

Lemma playbackInterval_replay ss t s :
  playbackInterval (outcomeState (playbackAllSessions ss t s)) = playbackInterval s.
Proof.
  assert (∀ slot data acc,
            playbackInterval (playbackVolumeData slot data t acc) = playbackInterval acc) as Hv.
  { intros. unfold playbackVolumeData, applyVolumeSmooth. by repeat case_match. }
  assert (∀ slot data acc,
            playbackInterval (playbackOpacityData slot data t acc) = playbackInterval acc) as Ho.
  { intros. unfold playbackOpacityData. by repeat case_match. }
  assert (∀ slot data acc,
            playbackInterval (outcomeState (playbackTimestampData slot data t acc))
            = playbackInterval acc) as Ht.
  { intros. unfold playbackTimestampData. by repeat case_match. }
  apply (replay_invariant (λ acc, playbackInterval acc = playbackInterval s)); [|done].
  intros x acc slot _ <-. unfold playbackSlot. destruct (controlData x !! slot); [|done].
  repeat match goal with
         | |- context [if ?b then _ else _] => destruct b
         end; cbn [outcomeState]; by rewrite ?Ht, ?Ho, ?Hv.
Qed.

Lemma outcome_foldl_done {A} (P : State → Prop) (f : A → State → Outcome)
    (l : list A) (s : State) :
  (∀ x acc, P acc → ∃ acc', f x acc = Done acc' ∧ P acc') →
  P s → ∃ s', foldl (λ o x, andThen o (f x)) (Done s) l = Done s' ∧ P s'.
Proof.
  intros Hf. revert s. induction l as [|x l IH]; intros s HP; simpl.
  - by exists s.
  - destruct (Hf x s HP) as (acc' & E & HP'). rewrite E. by apply IH.
Qed.

Lemma playersReady_players (s s' : State) :
  previewPlayers s' = previewPlayers s → playersReady s → playersReady s'.
Proof. intros E H slot p. rewrite E. apply H. Qed.

Lemma playersReady_playbackVolumeData slot data t s :
  playersReady s → playersReady (playbackVolumeData slot data t s).
Proof.
  intros H. unfold playbackVolumeData.
  destruct (interpolatedVolume data t) as [v|]; [|done].
  destruct (volSlider s !! slot) as [sl|]; [|done].
  destruct (classHijacked sl); [done|].
  set (s0 := set_volSlider _ s).
  assert (playersReady s0) as H0 by (by apply (playersReady_players s)).
  clearbody s0. unfold applyVolumeSmooth.
  destruct (previewPlayers s0 !! slot) as [p|] eqn:Ep; [|done].
  set (s1 := match currentPlaybackVolumes s0 !! slot with Some _ => s0 | None => _ end).
  assert (previewPlayers s1 = previewPlayers s0) as E1
    by (unfold s1; by destruct (currentPlaybackVolumes s0 !! slot)).
  assert (playersReady s1) as H1 by (by apply (playersReady_players s0)).
  clearbody s1. unfold setVolume. destruct (playerReady p); [|done].
  intros j q. simpl. destruct (decide (j = slot)) as [->|Hne].
  - rewrite lookup_insert_eq. by intros [= <-].
  - rewrite lookup_insert_ne by done. apply H1.
Qed.

Lemma playersReady_playbackOpacityData slot data t s :
  playersReady s → playersReady (playbackOpacityData slot data t s).
Proof.
  intros H. unfold playbackOpacityData.
  repeat case_match; try done; by apply (playersReady_players s).
Qed.

Lemma playersReady_playbackSlot x t s slot :
  playersReady s → ∃ s', playbackSlot x t s slot = Done s' ∧ playersReady s'.
Proof.
  intros H. unfold playbackSlot. destruct (controlData x !! slot) as [sd|]; [|by exists s].
  set (s1 := if _ && _ then _ else s).
  assert (playersReady s1) as H1.
  { unfold s1. destruct (_ && _); [by apply playersReady_playbackVolumeData|done]. }
  clearbody s1.
  set (s2 := if _ && _ then _ else s1).
  assert (playersReady s2) as H2.
  { unfold s2. destruct (_ && _); [by apply playersReady_playbackOpacityData|done]. }
  clearbody s2.
  destruct (bool_decide (is_Some (videoAt s2 slot))) eqn:Ev; simpl; [|by exists s2].
  destruct (negb _); [|by exists s2].
  apply bool_decide_eq_true in Ev as [video Ev].
  unfold playbackTimestampData.
  destruct (List.find _ _) as [point|]; [|by exists s2].
  destruct (action point); try (by exists s2).
  rewrite Ev.
  assert (∃ s', match previewPlayers s2 !! slot with
                | Some p =>
                    if isSyncLocked s2 slot then Done s2
                    else if playerReady p
                         then Done (set_syncLocks (<[slot := true]> (syncLocks s2)) s2)
                         else Thrown (set_syncLocks (<[slot := true]> (syncLocks s2)) s2)
                | None => Done s2
                end = Done s' ∧ playersReady s') as Hjump.
  { destruct (previewPlayers s2 !! slot) as [p|] eqn:Ep; [|by exists s2].
    destruct (isSyncLocked s2 slot); [by exists s2|].
    rewrite (H2 slot p Ep). eexists. split; [done|]. by apply (playersReady_players s2). }
  destruct (keyframes video !! keyframeIndex point) as [[q|]|]; [exact Hjump|by exists s2|exact Hjump].
Qed.

Lemma playersReady_replay ss t s :
  playersReady s → ∃ s', playbackAllSessions ss t s = Done s' ∧ playersReady s'.
Proof.
  intros H. unfold playbackAllSessions.
  apply (outcome_foldl_done playersReady (λ x acc, playbackSessionData x t acc)); [|done].
  intros x acc Hacc. unfold playbackSessionData.
  apply (outcome_foldl_done playersReady (λ slot acc, playbackSlot x t acc slot)); [|done].
  intros slot acc' Hacc'. by apply playersReady_playbackSlot.
Qed.

(** X26.  The overdub replay stops by itself, unless it throws.  While
    the replay timer is set with start time t0, a firing before
    t0 + 60000 leaves it set.  When every preview player is ready, the
    first firing at or after t0 + 60000 still applies the sessions and
    then clears the timer, and every firing after that changes nothing.
    A firing in which the replay throws, as the seek of a replayed jump
    does on a player that is not ready, ends before the timer is
    cleared: the timer stays set whatever the time. *)
Theorem replay_timer_stops (now : Z) (s : State) (t0 : Z) :
  playbackInterval s = Some t0 →
  (now - t0 < 60000 → playbackInterval (playbackTick now s) = Some t0) ∧
  (60000 ≤ now - t0 → playersReady s →
   playbackInterval (playbackTick now s) = None ∧
   ∀ now', playbackTick now' (playbackTick now s) = playbackTick now s) ∧
  (∀ s1, playbackAllSessions (recordingSessions s) (now - t0) s = Thrown s1 →
         playbackTick now s = s1 ∧ playbackInterval s1 = Some t0).
Proof.
  intros Hi.
  pose proof (playbackInterval_replay (recordingSessions s) (now - t0) s) as Hkeep.
  unfold playbackTick. rewrite Hi. cbv zeta.
  split; [|split].
  - intros Ht. destruct (playbackAllSessions _ _ _) as [s1|s1]; simpl in Hkeep.
    + rewrite bool_decide_eq_false_2 by lia. by rewrite Hkeep.
    + by rewrite Hkeep.
  - intros Ht Hready.
    destruct (playersReady_replay (recordingSessions s) (now - t0) s Hready) as (s1 & -> & _).
    rewrite bool_decide_eq_true_2 by lia. done.
  - intros s1 E. rewrite E in *. simpl in Hkeep. by rewrite Hkeep.
Qed.

Lemma replay_timer_stops_witness :
  playbackInterval (playbackTick 66000 scenarioState) = None ∧
  playbackInterval (playbackTick 66000 scenarioJumpNotReady) = Some 6000.
Proof.
  split.
  - destruct (replay_timer_stops 66000 scenarioState 6000 eq_refl) as (_ & H & _).
    apply H; [lia|]. intros slot p Hp. simpl in Hp.
    apply lookup_singleton_Some in Hp as [_ <-]. reflexivity.
  - destruct (replay_timer_stops 66000 scenarioJumpNotReady 6000 eq_refl) as (_ & _ & H).
    destruct (H (playbackTick 66000 scenarioJumpNotReady)) as [_ H2]; [|exact H2].
    vm_compute. reflexivity.
Defined.

(** ** Slider input and the hijack *)











(** ** Linked input and the hijack *)

Lemma elem_of_hijackControl_new slot ct now s k :
  isPlaybackMode s = true → (slot, ct) ∉ hijackedControls s →
  k ∈ hijackedControls (hijackControl slot ct now s)
  ↔ k ∈ collectLinkedControlsToHijack (videos s) slot ct [(slot, ct)] ∨ k ∈ hijackedControls s.
Proof.
  intros Hp Hn. unfold hijackControl. rewrite Hp. apply Set_has_false in Hn. rewrite Hn. simpl.
  apply elem_of_foldl_hijackKey.
Qed.

Lemma hijackControl_mono slot ct now s k :
  k ∈ hijackedControls s → k ∈ hijackedControls (hijackControl slot ct now s).
Proof.
  intros Hk. unfold hijackControl. destruct (_ && _); [|done].
  apply elem_of_foldl_hijackKey. by right.
Qed.

(** One turn of the loop of [updateLinkedControls] in playback mode. *)
Lemma linkedControlStep_hijack (src : nat) (type : ControlType) (change now : Z)
    (video sv : Video) (i : nat) (acc : State) :
  type ≠ Timestamps → isPlaybackMode acc = true →
  videoAt acc i = Some video → videoAt acc src = Some sv →
  let acc' := linkedControlStep src type change now video i acc in
  isPlaybackMode acc' = true ∧
  (∀ j, linkFlags acc' j = linkFlags acc j) ∧
  (∀ k, k ∈ hijackedControls acc → k ∈ hijackedControls acc') ∧
  (i ≠ src → linked video = true → locked video = false →
   (i, type) ∈ hijackedControls acc' ∧
   ((i, type) ∉ hijackedControls acc → linked sv = true → locked sv = false →
    (src, type) ∈ hijackedControls acc')) ∧
  ((src, type) ∈ hijackedControls acc' ∨ hijackedControls acc' = hijackedControls acc ∨
   linked sv = false ∨ locked sv = true).
Proof.
  intros Hty Hp Hv Hsv. cbv zeta.
  assert (∀ j, linkFlags (linkedControlStep src type change now video i acc) j
               = linkFlags acc j) as Hflags.
  { intros j. unfold linkFlags. rewrite (linkedControlStep_videoAt _ _ _ _ _ _ _ _ Hv).
    destruct (decide (j = i)) as [->|]; [|done]. rewrite Hv. simpl.
    destruct (linkedVideo_flags src type change i video) as (-> & -> & _). done. }
  split; [|split; [exact Hflags|]].
  { unfold linkedControlStep. destruct (_ && _); [|done].
    destruct type; [| |done]; cbv zeta;
      (match goal with |- context [if ?b then _ else _] => destruct b eqn:E end;
       [by rewrite hijackControl_isPlaybackMode|done]). }
  unfold linkedControlStep.
  destruct (negb (bool_decide (i = src)) && linked video && negb (locked video)) eqn:Hc.
  2:{ split; [done|]. split; [|by right; left].
      intros Hne Hl Hu. rewrite Hl, Hu in Hc.
      rewrite bool_decide_eq_false_2 in Hc by done. done. }
  apply andb_true_iff in Hc as [Hc Hu]. apply andb_true_iff in Hc as [Hne Hl].
  apply negb_true_iff, bool_decide_eq_false in Hne. apply negb_true_iff in Hu.
  assert (∀ (s2 : State) (w : Video),
            isPlaybackMode s2 = true → hijackedControls s2 = hijackedControls acc →
            videoAt s2 i = Some w → linked w = true → videoAt s2 src = Some sv →
            let s3 := if isPlaybackMode s2 then hijackControl i type now s2 else s2 in
            (∀ k, k ∈ hijackedControls acc → k ∈ hijackedControls s3) ∧
            (i ≠ src → linked video = true → locked video = false →
             (i, type) ∈ hijackedControls s3 ∧
             ((i, type) ∉ hijackedControls acc → linked sv = true → locked sv = false →
              (src, type) ∈ hijackedControls s3)) ∧
            ((src, type) ∈ hijackedControls s3 ∨ hijackedControls s3 = hijackedControls acc ∨
             linked sv = false ∨ locked sv = true)) as Hmain.
  { intros s2 w Hp2 Hh2 Hw Hlw Hsv2. cbv zeta. rewrite Hp2.
    assert ((i, type) ∉ hijackedControls s2 → linked sv = true → locked sv = false →
            (src, type) ∈ hijackedControls (hijackControl i type now s2)) as Hsrc.
    { intros Hn Hls Hus. apply elem_of_hijackControl_new; [done|done|]. left.
      unfold videoAt in Hw, Hsv2.
      apply (elem_of_collectLinkedControlsToHijack _ _ _ _ w); [done|].
      right; right. split; [done|]. split; [done|].
      exists src, sv. split; [done|]. split; [done|]. split; [done|]. split; [done|]. by left. }
    split; [|split].
    - intros k Hk. apply hijackControl_mono. by rewrite Hh2.
    - intros _ _ _. split; [by apply hijackControl_hijacks|].
      rewrite <- Hh2. apply Hsrc.
    - destruct (decide ((i, type) ∈ hijackedControls s2)) as [Hin|Hn].
      + right; left. by rewrite hijackControl_already.
      + destruct (linked sv) eqn:Hls; [|by right; right; left].
        destruct (locked sv) eqn:Hus; [by right; right; right|].
        left. by apply Hsrc. }
  destruct type; [| |done]; cbv zeta.
  - apply (Hmain _ (set_volume (clamp (volume video + change)) video)); try done.
    + change (videoAt (setVideo i (set_volume (clamp (volume video + change)) video) acc) i
              = Some (set_volume (clamp (volume video + change)) video)).
      by rewrite videoAt_setVideo, decide_True.
    + change (videoAt (setVideo i (set_volume (clamp (volume video + change)) video) acc) src
              = Some sv).
      by rewrite videoAt_setVideo, decide_False.
  - apply (Hmain _ (set_opacity (clamp (opacity video + change)) video)); try done.
    + change (videoAt (setVideo i (set_opacity (clamp (opacity video + change)) video) acc) i
              = Some (set_opacity (clamp (opacity video + change)) video)).
      by rewrite videoAt_setVideo, decide_True.
    + change (videoAt (setVideo i (set_opacity (clamp (opacity video + change)) video) acc) src
              = Some sv).
      by rewrite videoAt_setVideo, decide_False.
Qed.

Lemma linkedControls_fold_hijack (src : nat) (type : ControlType) (change now : Z)
    (s : State) (sv : Video) (l : list nat) (acc : State) :
  type ≠ Timestamps → videoAt s src = Some sv → linked sv = true →
  isPlaybackMode acc = true →
  (∀ j, linkFlags acc j = linkFlags s j) →
  ((src, type) ∈ hijackedControls acc ∨ hijackedControls acc = hijackedControls s ∨
   locked sv = true) →
  let acc' := foldl (λ acc slot, match videoAt acc slot with
                                 | Some video => linkedControlStep src type change now video slot acc
                                 | None => acc
                                 end) acc l in
  (∀ k, k ∈ hijackedControls acc → k ∈ hijackedControls acc') ∧
  (∀ j, j ∈ l → j ≠ src → linkFlags s j = Some (true, false) →
        (j, type) ∈ hijackedControls acc') ∧
  ((src, type) ∈ hijackedControls acc' ∨ hijackedControls acc' = hijackedControls s ∨
   locked sv = true).
Proof.
  intros Hty Hsv Hls. revert acc. induction l as [|i l IH]; intros acc Hp Hfl Hq; simpl.
  - split; [done|]. split; [|done]. intros j Hj. by apply elem_of_nil in Hj.
  - set (acc1 := match videoAt acc i with
                 | Some video => linkedControlStep src type change now video i acc
                 | None => acc
                 end).
    assert (∃ sv', videoAt acc src = Some sv' ∧ linked sv' = true ∧ locked sv' = locked sv)
      as (sv' & Hsv' & Hls' & Hus').
    { specialize (Hfl src). unfold linkFlags in Hfl. rewrite Hsv in Hfl. simpl in Hfl.
      destruct (videoAt acc src) as [sv'|]; [|done]. simpl in Hfl.
      injection Hfl as H1 H2. exists sv'. by rewrite H1, H2. }
    assert (isPlaybackMode acc1 = true ∧
            (∀ j, linkFlags acc1 j = linkFlags s j) ∧
            (∀ k, k ∈ hijackedControls acc → k ∈ hijackedControls acc1) ∧
            (i ≠ src → linkFlags s i = Some (true, false) → (i, type) ∈ hijackedControls acc1) ∧
            ((src, type) ∈ hijackedControls acc1 ∨ hijackedControls acc1 = hijackedControls s ∨
             locked sv = true)) as (Hp1 & Hfl1 & Hmono1 & Hi1 & Hq1).
    { subst acc1. destruct (videoAt acc i) as [video|] eqn:Hvi.
      - destruct (linkedControlStep_hijack src type change now video sv' i acc
                    Hty Hp Hvi Hsv') as (H1 & H2 & H3 & H4 & H5).
        split; [done|]. split; [intros j; by rewrite H2|]. split; [done|]. split.
        + intros Hne Hfi. rewrite <- Hfl in Hfi. unfold linkFlags in Hfi.
          rewrite Hvi in Hfi. simpl in Hfi. injection Hfi as Hl Hu.
          by destruct (H4 Hne Hl Hu).
        + destruct Hq as [Hq|[Hq|Hq]]; [left; by apply H3| |by right; right].
          destruct H5 as [H5|[H5|[H5|H5]]].
          * by left.
          * right; left. by rewrite H5.
          * congruence.
          * right; right. congruence.
      - split; [done|]. split; [done|]. split; [done|]. split; [|done].
        intros _ Hfi. rewrite <- Hfl in Hfi. unfold linkFlags in Hfi. by rewrite Hvi in Hfi. }
    clearbody acc1.
    destruct (IH acc1 Hp1 Hfl1 Hq1) as (Hmono & Hall & Hq').
    split; [intros k Hk; by apply Hmono, Hmono1|]. split; [|done].
    intros j Hj Hne Hfj. apply elem_of_cons in Hj as [->|Hj].
    + apply Hmono. by apply Hi1.
    + by apply Hall.
Qed.

(** X28.  A cross-linked input hijacks at once.  In playback mode, when
    the value of a cross-linked module moves, [updateLinkedControls]
    hijacks the same control of every other cross-linked, unlocked
    module while it moves them, without waiting for a debounced call;
    and if one of these controls was not yet hijacked and the source is
    not locked, the source's own control is hijacked too, through that
    module's links.  No key leaves the hijack set. *)
Theorem linked_input_hijacks_at_once (src : nat) (type : ControlType)
    (oldValue newValue now : Z) (s : State) (sv : Video) :
  isPlaybackMode s = true → videoAt s src = Some sv → linked sv = true →
  type ≠ Timestamps →
  let s' := updateLinkedControls src type oldValue newValue now s in
  (∀ k, k ∈ hijackedControls s → k ∈ hijackedControls s') ∧
  (∀ j v, j ≠ src → videoAt s j = Some v → linked v = true → locked v = false →
          (j, type) ∈ hijackedControls s') ∧
  (locked sv = false →
   (∃ j v, j ≠ src ∧ videoAt s j = Some v ∧ linked v = true ∧ locked v = false ∧
           (j, type) ∉ hijackedControls s) →
   (src, type) ∈ hijackedControls s').
Proof.
  intros Hp Hsv Hls Hty. cbv zeta. unfold updateLinkedControls. rewrite Hsv, Hls. simpl.
  unfold forEachVideo.
  destruct (linkedControls_fold_hijack src type (newValue - oldValue) now s sv
              (seq 0 (length (videos s))) s Hty Hsv Hls Hp) as (Hmono & Hall & Hq);
    [done|by right; left|].
  assert (∀ j v, j ≠ src → videoAt s j = Some v → linked v = true → locked v = false →
            (j, type) ∈ hijackedControls
              (foldl (λ acc slot, match videoAt acc slot with
                                  | Some video =>
                                      linkedControlStep src type (newValue - oldValue) now
                                        video slot acc
                                  | None => acc
                                  end) s (seq 0 (length (videos s))))) as Hothers.
  { intros j v Hne Hv Hl Hu. apply Hall; [|done|].
    - apply elem_of_seq. split; [lia|]. simpl.
      apply videoAt_lookup, lookup_lt_Some in Hv. lia.
    - unfold linkFlags. rewrite Hv. simpl. by rewrite Hl, Hu. }
  split; [done|]. split; [done|].
  intros Hus (j & v & Hne & Hv & Hl & Hu & Hn).
  destruct Hq as [Hq|[Hq|Hq]]; [done| |congruence].
  exfalso. apply Hn. rewrite <- Hq. by apply (Hothers j v).
Qed.

Lemma linked_input_hijacks_at_once_witness :
  (0%nat, Volume) ∈ hijackedControls (updateLinkedControls 0 Volume 50 70 15000 exampleOverdub) ∧
  (1%nat, Volume) ∈ hijackedControls (updateLinkedControls 0 Volume 50 70 15000 exampleOverdub).
Proof.
  destruct (linked_input_hijacks_at_once 0 Volume 50 70 15000 exampleOverdub exampleVideoTied
              eq_refl eq_refl eq_refl) as (_ & H2 & H3); [done|].
  split.
  - apply H3; [reflexivity|]. exists 1%nat, exampleVideoLinked.
    split; [done|]. split; [reflexivity|]. split; [reflexivity|]. split; [reflexivity|].
    intros H. by apply elem_of_nil in H.
  - by apply (H2 1%nat exampleVideoLinked).
Defined.
